(** * The Bing-Web engine of SearXNG ([searx/engines/bing.py])

    A shallow embedding of the request builder, the response handler
    (result extraction, redirect decoding, total-count extraction and the
    pagination guard) and the trait-table refresh, together with the parts
    of the Python standard library those functions call ([str], [bytes],
    the UTF-8 codec, [base64], [urllib.parse]).

    Conventions.
    - A Python [str] is the list of its code points, a [bytes] object the
      list of its byte values; both are [list Z].
    - A Python exception is a value of [exn]; a computation that may raise
      is a [pyresult].  The statements of a [try] block are sequenced with
      the bind of [pyresult].
    - A [dict] read by key is a [gmap]; a [dict] that is only iterated in
      insertion order is an association list. *)

From Stdlib Require Import ZArith Lia String Ascii List DecimalString.
From stdpp Require Import base option list gmap.

Open Scope Z_scope.

(** ** Python values *)

Abbreviation pystr := (list Z).
Abbreviation bytes := (list Z) (only parsing).

(** A literal: the code points of an ASCII string constant of the source. *)
Definition str (s : string) : pystr :=
  map (fun a => Z.of_N (N_of_ascii a)) (list_ascii_of_string s).

(** The double quote character, U+0022. *)
Definition dquote : pystr := [34].

Inductive exn :=
  | KeyError (key : pystr)
  | IndexError
  | AttributeError
  | ValueError
  | BinasciiError
  | UnicodeDecodeError
  | UnicodeEncodeError
  | UnknownLocaleError
  | ParserError.

Inductive pyresult (A : Type) :=
  | Ok (a : A)
  | Raise (e : exn).
Arguments Ok {A} a.
Arguments Raise {A} e.

#[global] Instance pyresult_ret : MRet pyresult := fun _ a => Ok a.
#[global] Instance pyresult_bind : MBind pyresult := fun _ _ f m =>
  match m with Ok a => f a | Raise e => Raise e end.
#[global] Instance pyresult_fmap : FMap pyresult := fun _ _ f m =>
  match m with Ok a => Ok (f a) | Raise e => Raise e end.

(** [try: m except Exception: h] *)
Definition try_except {A} (m : pyresult A) (h : exn -> A) : A :=
  match m with Ok a => a | Raise e => h e end.

(** [x in s] for a one-character [x]. *)
Definition contains (c : Z) (s : pystr) : bool := existsb (Z.eqb c) s.

(** [s.startswith(p)] *)
Fixpoint startswith (p s : pystr) : bool :=
  match p, s with
  | [], _ => true
  | c :: p', d :: s' => (c =? d) && startswith p' s'
  | _ :: _, [] => false
  end.

(** [s.find(c)] for a one-character [c]: the first index, or -1. *)
Fixpoint find_from (i : Z) (c : Z) (s : pystr) : Z :=
  match s with
  | [] => -1
  | d :: s' => if d =? c then i else find_from (i + 1) c s'
  end.
Definition find (c : Z) (s : pystr) : Z := find_from 0 c s.

(** [s[i:]] for [i >= 0]. *)
Definition slice_from (i : Z) (s : pystr) : pystr := drop (Z.to_nat i) s.

(** [len(s)] *)
Definition len (s : pystr) : Z := Z.of_nat (length s).

(** [c * n] for a one-character [c]. *)
Definition repeat_char (c : Z) (n : Z) : pystr := replicate (Z.to_nat n) c.

(** [s.split(sep)] for a one-character separator: never the empty list. *)
Fixpoint split (sep : Z) (s : pystr) : list pystr :=
  match s with
  | [] => [[]]
  | c :: s' =>
      if c =? sep then [] :: split sep s'
      else match split sep s' with
           | piece :: pieces => (c :: piece) :: pieces
           | [] => [[c]]
           end
  end.

(** [s.partition(sep)]: the text before the first separator, whether a
    separator was found, and the text after it. *)
Fixpoint partition (sep : Z) (s : pystr) : pystr * bool * pystr :=
  match s with
  | [] => ([], false, [])
  | c :: s' =>
      if c =? sep then ([], true, s')
      else let '(a, found, b) := partition sep s' in (c :: a, found, b)
  end.

(** [s.replace(a, b)] for one-character [a] and [b]. *)
Definition replace_char (a b : Z) (s : pystr) : pystr :=
  map (fun c => if c =? a then b else c) s.

Definition is_digit (c : Z) : bool := (48 <=? c) && (c <=? 57).
Definition is_upper (c : Z) : bool := (65 <=? c) && (c <=? 90).
Definition is_lower (c : Z) : bool := (97 <=? c) && (c <=? 122).

(** [str(n)] for an [int]. *)
Definition str_of_int (n : Z) : pystr :=
  str (DecimalString.NilZero.string_of_int (Z.to_int n)).

(** [sys.int_info.default_max_str_digits]: [int(s)] raises [ValueError] on a
    longer digit string. *)
Definition int_max_str_digits : Z := 4300.

(** [int(s)] for a non-empty string of ASCII digits. *)
Definition int_of_digits (s : pystr) : pyresult Z :=
  if int_max_str_digits <? len s then Raise ValueError
  else Ok (fold_left (fun acc c => acc * 10 + (c - 48)) s 0).

(** ** The UTF-8 codec ([str.encode], [bytes.decode]) *)

(** One code point, as the encoder of CPython writes it; surrogates and
    values outside the code space have no encoding. *)
Definition utf8_encode_char (ch : Z) : option bytes :=
  if ch <? 0 then None
  else if ch <? 0x80 then Some [ch]
  else if ch <? 0x800 then
    Some [Z.lor 0xc0 (Z.shiftr ch 6); Z.lor 0x80 (Z.land ch 0x3f)]
  else if (0xD800 <=? ch) && (ch <=? 0xDFFF) then None
  else if ch <? 0x10000 then
    Some [Z.lor 0xe0 (Z.shiftr ch 12);
          Z.lor 0x80 (Z.land (Z.shiftr ch 6) 0x3f);
          Z.lor 0x80 (Z.land ch 0x3f)]
  else if ch <=? 0x10FFFF then
    Some [Z.lor 0xf0 (Z.shiftr ch 18);
          Z.lor 0x80 (Z.land (Z.shiftr ch 12) 0x3f);
          Z.lor 0x80 (Z.land (Z.shiftr ch 6) 0x3f);
          Z.lor 0x80 (Z.land ch 0x3f)]
  else None.

(** [s.encode('utf-8')], [None] standing for [UnicodeEncodeError]. *)
Fixpoint utf8_encode (s : pystr) : option bytes :=
  match s with
  | [] => Some []
  | ch :: s' =>
      match utf8_encode_char ch, utf8_encode s' with
      | Some b, Some bs => Some (b ++ bs)
      | _, _ => None
      end
  end.

Inductive error_handler := Strict | Replace.

(** What the codec does with an ill-formed sequence: raise, or emit U+FFFD
    and resume after the offending bytes. *)
Definition decode_error (errors : error_handler) (resume : pyresult pystr)
  : pyresult pystr :=
  match errors with
  | Strict => Raise UnicodeDecodeError
  | Replace => cons 0xFFFD <$> resume
  end.

Definition is_continuation_byte (ch : Z) : bool := (0x80 <=? ch) && (ch <? 0xC0).

(** [b.decode('utf-8', errors)], following the decoder of CPython
    ([Objects/stringlib/codecs.h]): the byte ranges of a well-formed
    sequence, the value arithmetic, and the extent of each error. *)
Fixpoint utf8_decode (errors : error_handler) (s : bytes) {struct s}
  : pyresult pystr :=
  match s with
  | [] => Ok []
  | ch :: s1 =>
    if ch <? 0x80 then cons ch <$> utf8_decode errors s1
    else if ch <? 0xC2 then
      (* invalid start byte *)
      decode_error errors (utf8_decode errors s1)
    else if ch <? 0xE0 then
      match s1 with
      | [] => decode_error errors (Ok [])   (* unexpected end of data *)
      | ch2 :: s2 =>
        if negb (is_continuation_byte ch2) then
          decode_error errors (utf8_decode errors s1)
        else
          cons (Z.shiftl ch 6 + ch2 - (Z.shiftl 0xC0 6 + 0x80))
            <$> utf8_decode errors s2
      end
    else if ch <? 0xF0 then
      match s1 with
      | [] => decode_error errors (Ok [])
      | ch2 :: s2 =>
        if negb (is_continuation_byte ch2)
           || (if ch2 <? 0xA0 then ch =? 0xE0 else ch =? 0xED) then
          decode_error errors (utf8_decode errors s1)
        else
          match s2 with
          | [] => decode_error errors (Ok [])
          | ch3 :: s3 =>
            if negb (is_continuation_byte ch3) then
              decode_error errors (utf8_decode errors s2)
            else
              cons (Z.shiftl ch 12 + Z.shiftl ch2 6 + ch3
                    - (Z.shiftl 0xE0 12 + Z.shiftl 0x80 6 + 0x80))
                <$> utf8_decode errors s3
          end
      end
    else if ch <? 0xF5 then
      match s1 with
      | [] => decode_error errors (Ok [])
      | ch2 :: s2 =>
        if negb (is_continuation_byte ch2)
           || (if ch2 <? 0x90 then ch =? 0xF0 else ch =? 0xF4) then
          decode_error errors (utf8_decode errors s1)
        else
          match s2 with
          | [] => decode_error errors (Ok [])
          | ch3 :: s3 =>
            if negb (is_continuation_byte ch3) then
              decode_error errors (utf8_decode errors s2)
            else
              match s3 with
              | [] => decode_error errors (Ok [])
              | ch4 :: s4 =>
                if negb (is_continuation_byte ch4) then
                  decode_error errors (utf8_decode errors s3)
                else
                  cons (Z.shiftl ch 18 + Z.shiftl ch2 12 + Z.shiftl ch3 6 + ch4
                        - (Z.shiftl 0xF0 18 + Z.shiftl 0x80 12
                           + Z.shiftl 0x80 6 + 0x80))
                    <$> utf8_decode errors s4
              end
          end
      end
    else
      (* invalid start byte *)
      decode_error errors (utf8_decode errors s1)
  end.

(** [b.decode()] *)
Definition bytes_decode (b : bytes) : pyresult pystr := utf8_decode Strict b.

(** ** [base64] and [binascii] *)

(** [binascii.table_a2b_base64]: the value of a character of the standard
    alphabet, [None] for every other byte. *)
Definition table_a2b_base64 (c : Z) : option Z :=
  if is_upper c then Some (c - 65)
  else if is_lower c then Some (c - 97 + 26)
  else if is_digit c then Some (c - 48 + 52)
  else if c =? 43 then Some 62
  else if c =? 47 then Some 63
  else None.

Definition BASE64_PAD : Z := 61.

(** The loop of [binascii.a2b_base64] with [strict_mode] off, from the state
    [quad_pos], [leftchar], [pads]: characters outside the alphabet are
    skipped, a completed pad sequence ends the parse, and a quad left open
    at the end of the data is an error. *)
Fixpoint a2b_base64_loop (quad_pos leftchar pads : Z) (ascii_data : bytes)
  : pyresult bytes :=
  match ascii_data with
  | [] =>
      if quad_pos =? 0 then Ok [] else Raise BinasciiError
  | this_ch :: rest =>
      if this_ch =? BASE64_PAD then
        if 2 <=? quad_pos then
          if 4 <=? quad_pos + (pads + 1) then Ok []
          else a2b_base64_loop quad_pos leftchar (pads + 1) rest
        else a2b_base64_loop quad_pos leftchar pads rest
      else
        match table_a2b_base64 this_ch with
        | None => a2b_base64_loop quad_pos leftchar pads rest
        | Some v =>
            if quad_pos =? 0 then a2b_base64_loop 1 v 0 rest
            else if quad_pos =? 1 then
              cons (Z.lor (Z.shiftl leftchar 2) (Z.shiftr v 4))
                <$> a2b_base64_loop 2 (Z.land v 0x0f) 0 rest
            else if quad_pos =? 2 then
              cons (Z.lor (Z.shiftl leftchar 4) (Z.shiftr v 2))
                <$> a2b_base64_loop 3 (Z.land v 0x03) 0 rest
            else
              cons (Z.lor (Z.shiftl leftchar 6) v)
                <$> a2b_base64_loop 0 0 0 rest
        end
  end.

Definition a2b_base64 (data : bytes) : pyresult bytes :=
  a2b_base64_loop 0 0 0 data.

(** [base64._bytes_from_decode_data] on a [str]: its ASCII bytes. *)
Definition _bytes_from_decode_data (s : pystr) : pyresult bytes :=
  if forallb (fun c => (0 <=? c) && (c <? 128)) s then Ok s
  else Raise ValueError.

(** [base64._urlsafe_decode_translation]: [-] becomes [+], [_] becomes [/]. *)
Definition _urlsafe_decode_translation (c : Z) : Z :=
  if c =? 45 then 43 else if c =? 95 then 47 else c.

(** [base64.urlsafe_b64decode(s)] *)
Definition urlsafe_b64decode (s : pystr) : pyresult bytes :=
  s ← _bytes_from_decode_data s;
  a2b_base64 (map _urlsafe_decode_translation s).

(** The URL-safe alphabet of [base64.urlsafe_b64encode]. *)
Definition urlsafe_alphabet : pystr :=
  str "ABCDEFGHIJKLMNOPQRSTUVWXYZabcdefghijklmnopqrstuvwxyz0123456789-_".

Definition b64char (i : Z) : Z := nth (Z.to_nat i) urlsafe_alphabet 0.

(** The provider's side of the indirection scheme: the URL-safe base64 text
    of a byte string, without the trailing [=] padding. *)
Fixpoint urlsafe_b64encode_nopad (b : bytes) : pystr :=
  match b with
  | [] => []
  | [b1] =>
      [b64char (Z.shiftr b1 2); b64char (Z.shiftl (Z.land b1 0x03) 4)]
  | [b1; b2] =>
      [b64char (Z.shiftr b1 2);
       b64char (Z.lor (Z.shiftl (Z.land b1 0x03) 4) (Z.shiftr b2 4));
       b64char (Z.shiftl (Z.land b2 0x0f) 2)]
  | b1 :: b2 :: b3 :: rest =>
      [b64char (Z.shiftr b1 2);
       b64char (Z.lor (Z.shiftl (Z.land b1 0x03) 4) (Z.shiftr b2 4));
       b64char (Z.lor (Z.shiftl (Z.land b2 0x0f) 2) (Z.shiftr b3 6));
       b64char (Z.land b3 0x3f)]
      ++ urlsafe_b64encode_nopad rest
  end.

(** ** [urllib.parse] *)

Definition hexval (c : Z) : option Z :=
  if is_digit c then Some (c - 48)
  else if (65 <=? c) && (c <=? 70) then Some (c - 55)
  else if (97 <=? c) && (c <=? 102) then Some (c - 87)
  else None.

(** [unquote_to_bytes]: every [%] followed by two hexadecimal digits is the
    byte they denote, every other [%] stands for itself. *)
Fixpoint unquote_to_bytes (s : bytes) : bytes :=
  match s with
  | [] => []
  | c :: rest =>
      if c =? 37 then
        match rest with
        | h1 :: h2 :: rest' =>
            match hexval h1, hexval h2 with
            | Some a, Some b => (16 * a + b) :: unquote_to_bytes rest'
            | _, _ => 37 :: unquote_to_bytes rest
            end
        | _ => 37 :: unquote_to_bytes rest
        end
      else c :: unquote_to_bytes rest
  end.

(** [b.decode('utf-8', 'replace')] *)
Definition decode_replace (b : bytes) : pystr :=
  try_except (utf8_decode Replace b) (fun _ => []).

(** The body of [unquote]: each maximal run of ASCII characters ([run], the
    one being read) is percent-decoded and decoded as UTF-8 with
    replacement, the other characters are kept. *)
Fixpoint unquote_runs (run : bytes) (s : pystr) : pystr :=
  match s with
  | [] => decode_replace (unquote_to_bytes run)
  | c :: rest =>
      if c <? 128 then unquote_runs (run ++ [c]) rest
      else decode_replace (unquote_to_bytes run) ++ c :: unquote_runs [] rest
  end.

(** [unquote(string)] with the defaults [encoding='utf-8'],
    [errors='replace']. *)
Definition unquote (s : pystr) : pystr :=
  if negb (contains 37 s) then s else unquote_runs [] s.

Definition is_empty (s : pystr) : bool :=
  match s with [] => true | _ => false end.

(** [parse_qsl(qs)] with the defaults: fields are separated by [&], a field
    without [=] or with a blank value is dropped. *)
Definition parse_qsl_field (name_value : pystr) : list (pystr * pystr) :=
  if is_empty name_value then []
  else
    let '(name, has_eq, value) := partition 61 name_value in
    if is_empty value then []
    else [(unquote (replace_char 43 32 name), unquote (replace_char 43 32 value))].

Definition parse_qsl (qs : pystr) : list (pystr * pystr) :=
  flat_map parse_qsl_field (split 38 qs).

(** [parse_qs(qs)]: the values of each name, in the order they occur. *)
Definition parse_qs_add (parsed_result : gmap pystr (list pystr))
    (pair : pystr * pystr) : gmap pystr (list pystr) :=
  let '(name, value) := pair in
  match parsed_result !! name with
  | Some values => <[name := values ++ [value]]> parsed_result
  | None => <[name := [value]]> parsed_result
  end.

Definition parse_qs (qs : pystr) : gmap pystr (list pystr) :=
  fold_left parse_qs_add (parse_qsl qs) ∅.

(** [urlparse(url).query]: tab, carriage return and line feed are removed
    from the URL, the fragment starts at the first [#] and the query is
    what follows the first [?] before it.  (The checks of the host part
    that make [urlsplit] raise apply to hosts with brackets or non-ASCII
    characters only.) *)
Definition _UNSAFE_URL_BYTES_TO_REMOVE : list Z := [9; 13; 10].

Fixpoint before (sep : Z) (s : pystr) : pystr :=
  match s with
  | [] => []
  | c :: s' => if c =? sep then [] else c :: before sep s'
  end.

Fixpoint after (sep : Z) (s : pystr) : pystr :=
  match s with
  | [] => []
  | c :: s' => if c =? sep then s' else after sep s'
  end.

Definition not_unsafe (c : Z) : bool :=
  negb (existsb (Z.eqb c) _UNSAFE_URL_BYTES_TO_REMOVE).

Definition urlparse_query (url : pystr) : pystr :=
  let url := List.filter not_unsafe url in
  after 63 (before 35 url).

(** [_ALWAYS_SAFE]: letters, digits and [_.-~]. *)
Definition always_safe (b : Z) : bool :=
  is_upper b || is_lower b || is_digit b
  || (b =? 95) || (b =? 46) || (b =? 45) || (b =? 126).

Definition hexdigit (n : Z) : Z := if n <? 10 then 48 + n else 55 + n.

(** One byte under [quote_plus] with [safe='']: a space is [+], any other
    byte that is not always safe is [%XX]. *)
Definition quote_plus_byte (b : Z) : pystr :=
  if always_safe b then [b]
  else if b =? 32 then [43]
  else [37; hexdigit (b / 16); hexdigit (b mod 16)].

(** [quote_plus(string)] for a [str]. *)
Definition quote_plus (s : pystr) : pyresult pystr :=
  match utf8_encode s with
  | Some b => Ok (concat (map quote_plus_byte b))
  | None => Raise UnicodeEncodeError
  end.

(** [sep.join(l)] *)
Fixpoint join (sep : pystr) (l : list pystr) : pystr :=
  match l with
  | [] => []
  | [s] => s
  | s :: l' => s ++ sep ++ join sep l'
  end.

(** [urlencode(query)] for a [dict] of [str] keys and values, in insertion
    order. *)
Definition urlencode (query : list (pystr * pystr)) : pyresult pystr :=
  l ← mapM (fun kv => k ← quote_plus kv.1; v ← quote_plus kv.2;
                      mret (k ++ str "=" ++ v)) query;
  mret (join (str "&") l).

(** ** The engine: request *)

(** [EngineTraits]: the two tables and the code that stands for every
    locale. *)
Record EngineTraits := {
  languages : gmap pystr pystr;
  regions : gmap pystr pystr;
  all_locale : option pystr;
}.

(** The entries of [params] the engine reads and writes. *)
Record Params := {
  searxng_locale : pystr;
  pageno : option Z;
  time_range : option pystr;
  cookies : gmap pystr pystr;
  url : pystr;
}.

Definition base_url : pystr := str "https://www.bing.com/search".

Definition _page_offset (pageno : Z) : Z := (pageno - 1) * 10 + 1.

Section Request.

(** [str.lower]; its case tables are those of the Unicode database. *)
Variable lower : pystr -> pystr.

(** The module's [traits]. *)
Variable traits : EngineTraits.

(** What a traits object resolves an internal locale tag to, as a region
    code and as a language code; [None] when it has no match. *)
Variable region_of language_of : EngineTraits -> pystr -> option pystr.

(** [int(time.time() / 86400)] when the request is built. *)
Variable unix_day : Z.

(** Modelled from the spec: [EngineTraits.get_region] and
    [EngineTraits.get_language] ([searx/enginelib/traits.py]) resolve the
    internal locale tag through the trait table and give the default
    passed by the caller when there is no match. *)
Definition get_region (searxng_locale default : pystr) : pystr :=
  from_option id default (region_of traits searxng_locale).

Definition get_language (searxng_locale default : pystr) : pystr :=
  from_option id default (language_of traits searxng_locale).

Definition set_bing_cookies (params : Params)
    (engine_language engine_region : pystr) : Params :=
  {| searxng_locale := searxng_locale params;
     pageno := pageno params;
     time_range := time_range params;
     cookies :=
       <[str "_EDGE_CD" :=
           str "m=" ++ lower engine_region ++ str "&u="
           ++ lower engine_language ++ str ";"]> (cookies params);
     url := url params |}.

Definition set_url (params : Params) (u : pystr) : Params :=
  {| searxng_locale := searxng_locale params;
     pageno := pageno params;
     time_range := time_range params;
     cookies := cookies params;
     url := u |}.

Definition time_ranges : gmap pystr pystr :=
  list_to_map
    [(str "day", str "1"); (str "week", str "2"); (str "month", str "3");
     (str "year",
      str "5_" ++ str_of_int (unix_day - 365) ++ str "_" ++ str_of_int unix_day)].

(** Assemble a Bing-Web request. *)
Definition request (query : pystr) (params : Params) : pyresult Params :=
  let engine_region := get_region (searxng_locale params) (str "en-us") in
  let engine_language := get_language (searxng_locale params) (str "en-us") in
  let params := set_bing_cookies params engine_language engine_region in
  let query_params :=
    [(str "q", query);
     (str "first", str_of_int (_page_offset (default 1 (pageno params))))] in
  encoded ← urlencode query_params;
  let params := set_url params (base_url ++ str "?" ++ encoded) in
  mret match time_range params ≫= (time_ranges !!.) with
       | Some code =>
           set_url params
             (url params ++ str "&filters=ex1:" ++ dquote ++ str "ez" ++ code
              ++ dquote)
       | None => params
       end.

End Request.

(** ** The engine: response *)

(** What the XPath queries of [response] find in the document: for each
    [li] of class [b_algo] under [ol#b_results] the first [h2/a] (its
    [href] attribute and its text) and the text of the first [p] once the
    links nested in it are removed, and the text nodes of [span.sb_count]. *)
Record Link := {
  href : option pystr;
  link_text : pystr;
}.

Record ResultBlock := {
  h2_a : option Link;
  first_p : pystr;
}.

Record Response := {
  b_results : list ResultBlock;
  sb_count : list pystr;
  search_params_pageno : option Z;
}.

(** An entry of the returned list. *)
Inductive Result :=
  | WebResult (url title content : pystr)
  | NumberOfResults (number_of_results : Z).

Definition ck_prefix : pystr := str "https://www.bing.com/ck/a?".

(** "get the real URL" *)
Definition real_url (url : pystr) : pyresult pystr :=
  if startswith ck_prefix url then
    (* get the first value of u parameter *)
    let url_query := urlparse_query url in
    let parsed_url_query := parse_qs url_query in
    match parsed_url_query !! str "u" with
    | None => Raise (KeyError (str "u"))
    | Some [] => Raise IndexError
    | Some (param_u :: _) =>
        (* remove "a1" in front *)
        let encoded_url := slice_from 2 param_u in
        (* add padding *)
        let encoded_url :=
          encoded_url ++ repeat_char 61 ((- len encoded_url) mod 4) in
        (* decode base64 encoded URL *)
        b ← urlsafe_b64decode encoded_url;
        bytes_decode b
    end
  else Ok url.

(** The loop over the result blocks, from the list [results] built so far. *)
Fixpoint response_loop (blocks : list ResultBlock) (results : list Result)
  : pyresult (list Result) :=
  match blocks with
  | [] => Ok results
  | result :: blocks' =>
      match h2_a result with
      | None => response_loop blocks' results
      | Some link =>
          match href link with
          | None => Raise AttributeError
          | Some url =>
              let title := link_text link in
              let content := first_p result in
              url ← real_url url;
              response_loop blocks'
                (results ++ [WebResult url title content])
          end
      end
  end.

(** The text [result_len_container] holds when it is measured: the text of
    the count element, without the part "from-to", reduced to its digits. *)
Definition result_len_container_of (sb_count : list pystr) : pystr :=
  let result_len_container := concat sb_count in
  let result_len_container :=
    if contains 45 result_len_container then
      (* Remove the part "from-to" for paginated request ... *)
      slice_from (find 45 result_len_container * 2 + 2) result_len_container
    else result_len_container in
  List.filter is_digit result_len_container.

(** The body of the [try] block: the new value of [result_len]. *)
Definition get_number_of_results (sb_count : list pystr) (result_len : Z)
  : pyresult Z :=
  let result_len_container := result_len_container_of sb_count in
  if 0 <? len result_len_container then int_of_digits result_len_container
  else Ok result_len.

(** [result_len] after the [try] statement; it is 0 before it. *)
Definition result_len_of (sb_count : list pystr) : Z :=
  try_except (get_number_of_results sb_count 0) (fun _ => 0).

Definition response (resp : Response) : pyresult (list Result) :=
  results ← response_loop (b_results resp) [];
  let result_len := result_len_of (sb_count resp) in
  if negb (result_len =? 0)
     && (result_len <? _page_offset (default 0 (search_params_pageno resp)))
  then
    (* Avoid reading more results than avalaible. *)
    Ok []
  else Ok (results ++ [NumberOfResults result_len]).

(** [response(resp)] from the text of the response.  [fromstring] stands
    for [html.fromstring(resp.text)] followed by the XPath queries of the
    handler: the result blocks and the text nodes of the count element
    that [lxml] finds in the body, or the exception it raises on it
    ([lxml.etree.ParserError] on an empty body).  The call is outside
    every [try]: what it raises leaves the handler. *)
Definition response_on_text
    (fromstring : pystr -> pyresult (list ResultBlock * list pystr))
    (text : pystr) (pageno : option Z) : pyresult (list Result) :=
  dom ← fromstring text;
  response {| b_results := dom.1; sb_count := dom.2;
              search_params_pageno := pageno |}.

(** ** The engine: refresh of the trait tables *)

(** The columns [_fetch_traits] reads in the reference document ([td.text]
    is [None] for a cell without text), and whether the fetch was [ok]. *)
Record TraitsDocument := {
  ok : bool;
  language_codes : list (option pystr);
  market_codes : list (option pystr);
}.

(** How a statement ends: normally, or by raising. *)
Inductive completion :=
  | Normal
  | Raised (e : exn).

(** The state [_fetch_traits] works on: the traits object it fills, and
    what it has printed. *)
Record FetchState := {
  engine_traits : EngineTraits;
  stdout : list pystr;
}.

Definition print (st : FetchState) (line : pystr) : FetchState :=
  {| engine_traits := engine_traits st; stdout := stdout st ++ [line] |}.

Definition set_language (st : FetchState) (sxng_tag eng_lang : pystr)
  : FetchState :=
  {| engine_traits :=
       {| languages := <[sxng_tag := eng_lang]> (languages (engine_traits st));
          regions := regions (engine_traits st);
          all_locale := all_locale (engine_traits st) |};
     stdout := stdout st |}.

Definition set_region (st : FetchState) (sxng_tag eng_region : pystr)
  : FetchState :=
  {| engine_traits :=
       {| languages := languages (engine_traits st);
          regions := <[sxng_tag := eng_region]> (regions (engine_traits st));
          all_locale := all_locale (engine_traits st) |};
     stdout := stdout st |}.

Definition set_all_locale (st : FetchState) (eng_region : pystr) : FetchState :=
  {| engine_traits :=
       {| languages := languages (engine_traits st);
          regions := regions (engine_traits st);
          all_locale := Some eng_region |};
     stdout := stdout st |}.

Definition map_lang : gmap pystr pystr := {[ str "jp" := str "ja" ]}.

Definition map_region : gmap pystr pystr :=
  list_to_map [(str "en-ID", str "id_ID"); (str "no-NO", str "nb_NO")].

(** [map_lang.get(eng_lang, eng_lang).replace('-', '_')] *)
Definition babel_lang_of (eng_lang : pystr) : pystr :=
  replace_char 45 95 (default eng_lang (map_lang !! eng_lang)).

(** [map_region.get(eng_region, eng_region).replace('-', '_')] *)
Definition babel_region_of (eng_region : pystr) : pystr :=
  replace_char 45 95 (default eng_region (map_region !! eng_region)).

(** ["CONFLICT: babel %s --> %s, %s" % (sxng_tag, conflict, eng_code)] *)
Definition conflict_line (sxng_tag conflict eng_code : pystr) : pystr :=
  str "CONFLICT: babel " ++ sxng_tag ++ str " --> " ++ conflict ++ str ", "
  ++ eng_code.

Section FetchTraits.

(** [language_tag(babel.Locale.parse(babel_lang))] and
    [region_tag(babel.Locale.parse(babel_region))]: the internal tag of a
    locale identifier, or the exception [babel] raises on it. *)
Variable language_tag_of : pystr -> pyresult pystr.
Variable region_tag_of : pystr -> pyresult pystr.

(** One iteration of the loop over the language codes. *)
Definition language_step (td : option pystr) (st : FetchState)
  : FetchState * completion :=
  match td with
  | None => (st, Raised AttributeError)
  | Some eng_lang =>
      if bool_decide (eng_lang = str "en-gb")
         || bool_decide (eng_lang = str "pt-br") then (st, Normal)
      else
        let babel_lang := babel_lang_of eng_lang in
        match language_tag_of babel_lang with
        | Raise UnknownLocaleError =>
            (print st (str "ERROR: language (" ++ eng_lang
                       ++ str ") is unknown by babel"), Normal)
        | Raise e => (st, Raised e)
        | Ok sxng_tag =>
            match languages (engine_traits st) !! sxng_tag with
            | Some (c :: conflict') =>
                let conflict := c :: conflict' in
                if bool_decide (conflict ≠ eng_lang) then
                  (print st (conflict_line sxng_tag conflict eng_lang), Normal)
                else (st, Normal)
            | _ => (set_language st sxng_tag eng_lang, Normal)
            end
        end
  end.

(** One iteration of the loop over the market codes. *)
Definition region_step (td : option pystr) (st : FetchState)
  : FetchState * completion :=
  match td with
  | None => (st, Raised AttributeError)
  | Some eng_region =>
      let babel_region := babel_region_of eng_region in
      if bool_decide (eng_region = str "en-WW") then
        (set_all_locale st eng_region, Normal)
      else
        match region_tag_of babel_region with
        | Raise UnknownLocaleError =>
            (print st (str "ERROR: region (" ++ eng_region
                       ++ str ") is unknown by babel"), Normal)
        | Raise e => (st, Raised e)
        | Ok sxng_tag =>
            match regions (engine_traits st) !! sxng_tag with
            | Some (c :: conflict') =>
                let conflict := c :: conflict' in
                if bool_decide (conflict ≠ eng_region) then
                  (print st (conflict_line sxng_tag conflict eng_region), Normal)
                else (st, Normal)
            | _ => (set_region st sxng_tag eng_region, Normal)
            end
        end
  end.

(** [for td in ...: body], stopped by the first exception. *)
Fixpoint for_each (body : option pystr -> FetchState -> FetchState * completion)
    (tds : list (option pystr)) (st : FetchState) : FetchState * completion :=
  match tds with
  | [] => (st, Normal)
  | td :: tds' =>
      match body td st with
      | (st', Normal) => for_each body tds' st'
      | stopped => stopped
      end
  end.

Definition _fetch_traits (traits : EngineTraits) (doc : TraitsDocument)
  : FetchState * completion :=
  (* insert alias to map from a language (zh) to a language + script (zh_Hans) *)
  let st :=
    set_language {| engine_traits := traits; stdout := [] |}
      (str "zh") (str "zh-hans") in
  let st :=
    if ok doc then st
    else print st (str "ERROR: response from peertube is not OK.") in
  match for_each language_step (language_codes doc) st with
  | (st, Normal) => for_each region_step (market_codes doc) st
  | stopped => stopped
  end.

End FetchTraits.

(** Bing (Web) search API description *)
Definition bing_traits_url : pystr :=
  str "https://learn.microsoft.com/en-us/bing/search-apis/bing-web-search/reference/market-codes".

Section FetchTraitsOnline.

Variable language_tag_of : pystr -> pyresult pystr.
Variable region_tag_of : pystr -> pyresult pystr.

(** [searx.network.get(url)]: [resp.ok] and [resp.text], or the exception
    the request raises. *)
Variable get : pystr -> pyresult (bool * pystr).

(** The documents of [lxml]; [html.fromstring], which raises on a text it
    cannot parse; and [eval_xpath(dom, xpath)], as the list of the
    [td.text] of the cells it selects. *)
Variable Dom : Type.
Variable fromstring : pystr -> pyresult Dom.
Variable eval_xpath : Dom -> pystr -> pyresult (list (option pystr)).

(** [_fetch_traits(engine_traits, url, xpath_language_codes,
    xpath_market_codes)], from the alias of line 182 on: the fetch and the
    parse are outside every [try], and the market column is read after
    the loop over the language column. *)
Definition _fetch_traits_on_url (traits : EngineTraits)
    (url xpath_language_codes xpath_market_codes : pystr)
  : FetchState * completion :=
  (* insert alias to map from a language (zh) to a language + script (zh_Hans) *)
  let st :=
    set_language {| engine_traits := traits; stdout := [] |}
      (str "zh") (str "zh-hans") in
  match get url with
  | Raise e => (st, Raised e)
  | Ok resp =>
      let st :=
        if resp.1 then st
        else print st (str "ERROR: response from peertube is not OK.") in
      match fromstring resp.2 with
      | Raise e => (st, Raised e)
      | Ok dom =>
          match eval_xpath dom xpath_language_codes with
          | Raise e => (st, Raised e)
          | Ok language_cells =>
              match for_each (language_step language_tag_of) language_cells st with
              | (st, Normal) =>
                  match eval_xpath dom xpath_market_codes with
                  | Raise e => (st, Raised e)
                  | Ok market_cells =>
                      for_each (region_step region_tag_of) market_cells st
                  end
              | stopped => stopped
              end
          end
      end
  end.

(** Fetch languages and regions from Bing-Web. *)
Definition fetch_traits (traits : EngineTraits) : FetchState * completion :=
  let xpath_market_codes := str "//table[1]/tbody/tr/td[3]" in
  let xpath_language_codes := str "//table[3]/tbody/tr/td[2]" in
  _fetch_traits_on_url traits bing_traits_url xpath_language_codes
    xpath_market_codes.

End FetchTraitsOnline.

(** ** Vocabulary of the statements *)

(** A value a [bytes] object can hold. *)
Definition is_byte (b : Z) : Prop := 0 <= b < 256.

(** A character of the URL-safe alphabet. *)
Definition is_b64char (c : Z) : Prop := exists i, 0 <= i < 64 /\ c = b64char i.

(** The characters that pass through every step of [real_url] unchanged:
    ASCII, and none of [%+&=#?], tab, carriage return, line feed. *)
Definition plain (c : Z) : bool :=
  (0 <=? c) && (c <? 128)
  && negb (existsb (Z.eqb c) [37; 43; 38; 61; 35; 9; 13; 10; 63]).

(** A character that [urlparse] neither removes nor reads as the start of
    the fragment. *)
Definition query_char (c : Z) : bool :=
  negb (existsb (Z.eqb c) [35; 9; 13; 10]).

(** What the alphabet has to satisfy for the decoder, checked entry by
    entry. *)
Definition b64char_ok (i : Z) : bool :=
  let c := b64char i in
  negb (_urlsafe_decode_translation c =? BASE64_PAD)
  && bool_decide (table_a2b_base64 (_urlsafe_decode_translation c) = Some i)
  && ((0 <=? c) && (c <? 128))
  && negb (existsb (Z.eqb c) [37; 43; 38; 61; 35; 9; 13; 10; 63]).

(** The provider's indirection URL for the destination bytes [dest]: under
    the [ck/a] prefix, the fields [pre], then the field [u] holding a tag
    followed by the unpadded URL-safe base64 text of [dest], then [post]. *)
Definition indirection_url (pre tag : pystr) (dest : bytes) (post : pystr) : pystr :=
  ck_prefix ++ pre ++ str "u=" ++ tag ++ urlsafe_b64encode_nopad dest ++ post.

(** ** Vocabulary of the statements: request *)

(** The characters of a quoted string: always safe, [+] or [%]. *)
Definition quoted_char (c : Z) : bool :=
  always_safe c || (c =? 43) || (c =? 37).

(** The values of the pairs named [k], in order. *)
Definition values_of (k : pystr) (l : list (pystr * pystr)) : list pystr :=
  map snd (List.filter (fun pair => bool_decide (pair.1 = k)) l).

(** The text [request] appends for the time range. *)
Definition filters_of (unix_day : Z) (time_range : option pystr) : pystr :=
  match time_range ≫= (time_ranges unix_day !!.) with
  | Some code => str "&filters=ex1:" ++ dquote ++ str "ez" ++ code ++ dquote
  | None => []
  end.

(** [str.lower] on ASCII text. *)
Definition ascii_lower (s : pystr) : pystr :=
  map (fun c => if is_upper c then c + 32 else c) s.

(** A traits object without any mapping. *)
Definition no_traits : EngineTraits :=
  {| languages := ∅; regions := ∅; all_locale := None |}.

(** ** Vocabulary of the statements: response *)

(** What the loop appends for a block that has a title link. *)
Definition extracted (block : ResultBlock) (r : Result) : Prop :=
  exists link wrapped url,
    h2_a block = Some link /\ href link = Some wrapped
    /\ real_url wrapped = Ok url
    /\ r = WebResult url (link_text link) (first_p block).

(** The blocks the loop does not skip. *)
Definition has_title_link (block : ResultBlock) : bool :=
  match h2_a block with Some _ => true | None => false end.

(** The pagination guard, as [response] tests it. *)
Definition guard_triggers (resp : Response) : bool :=
  let result_len := result_len_of (sb_count resp) in
  negb (result_len =? 0)
  && (result_len <? _page_offset (default 0 (search_params_pageno resp))).

(** A block whose link is not wrapped, and the record it gives. *)
Definition plain_block : ResultBlock :=
  {| h2_a := Some {| href := Some (str "https://example.org/");
                     link_text := str "Example Domain" |};
     first_p := str "This domain is for use in examples." |}.

Definition plain_record : Result :=
  WebResult (str "https://example.org/") (str "Example Domain")
    (str "This domain is for use in examples.").

(** A wrapper URL without a [u] parameter. *)
Definition no_u_block : ResultBlock :=
  {| h2_a := Some {| href := Some (str "https://www.bing.com/ck/a?!&&p=5d1f&ntb=1");
                     link_text := str "Wrapped" |};
     first_p := str "A wrapped result." |}.

(** A wrapper URL whose base64 body has one character too many. *)
Definition bad_base64_block : ResultBlock :=
  {| h2_a := Some {| href := Some (str "https://www.bing.com/ck/a?u=a1aHR0c");
                     link_text := str "Wrapped" |};
     first_p := str "A wrapped result." |}.

(** ** Vocabulary of the statements: trait tables *)

(** Stand-ins for [babel]: the language tag is the text before the first
    [_], the region tag is the identifier with [-] for [_]. *)
Definition example_language_tag (babel_lang : pystr) : pyresult pystr :=
  Ok (before 95 babel_lang).

Definition example_region_tag (babel_region : pystr) : pyresult pystr :=
  Ok (replace_char 95 45 babel_region).

(** Two language codes for [fr], one remapped by [map_lang], one for the
    alias [zh]; the sentinel market, and two market codes for [id-ID]. *)
Definition example_document : TraitsDocument :=
  {| ok := true;
     language_codes := [Some (str "fr"); Some (str "fr-ca"); Some (str "jp");
                        Some (str "zh-hant")];
     market_codes := [Some (str "en-WW"); Some (str "en-ID"); Some (str "id-ID")] |}.

(** ** Vocabulary of the further properties *)

(** A code point that has a UTF-8 encoding: in the code space and not a
    surrogate. *)
Definition is_scalar (c : Z) : bool :=
  (0 <=? c) && (c <=? 0x10FFFF) && negb ((0xD800 <=? c) && (c <=? 0xDFFF)).

(** The fields [request] writes in the query of the URL: the query text
    (a blank one is dropped by [parse_qsl]), the offset, and the filter of
    a time range that [time_ranges] knows. *)
Definition request_fields (query : pystr) (offset : Z) (code : option pystr)
  : list (pystr * pystr) :=
  (if is_empty query then [] else [(str "q", query)])
  ++ [(str "first", str_of_int offset)]
  ++ match code with
     | Some code =>
         [(str "filters", str "ex1:" ++ dquote ++ str "ez" ++ code ++ dquote)]
     | None => []
     end.

(** The record of a block whose title link has an [href] that is kept as
    it is. *)
Definition unwrapped_record (block : ResultBlock) : option Result :=
  link ← h2_a block;
  url ← href link;
  Some (WebResult url (link_text link) (first_p block)).

(** The title link of the block, when it has one, has an [href] outside
    the wrapper prefix. *)
Definition unwrapped (block : ResultBlock) : Prop :=
  forall link, h2_a block = Some link ->
  exists url, href link = Some url /\ startswith ck_prefix url = false.

(** The same document, received for the page [n]. *)
Definition at_page (resp : Response) (n : Z) : Response :=
  {| b_results := b_results resp; sb_count := sb_count resp;
     search_params_pageno := Some n |}.

(** Whether a character is in the URL-safe alphabet. *)
Definition in_urlsafe_alphabet (c : Z) : bool := existsb (Z.eqb c) urlsafe_alphabet.

(** What the state of the base64 decoder holds between two characters. *)
Definition a2b_state_ok (quad_pos leftchar : Z) : Prop :=
  (quad_pos = 0 \/ (quad_pos = 1 /\ 0 <= leftchar < 64)
   \/ (quad_pos = 2 /\ 0 <= leftchar < 16) \/ (quad_pos = 3 /\ 0 <= leftchar < 4)).

(** An entry of the language column the table has settled: the iteration
    on it changes no table whose language part is [table]. *)
Definition language_settled (language_tag_of : pystr -> pyresult pystr)
    (table : gmap pystr pystr) (td : option pystr) : Prop :=
  match td with
  | None => True
  | Some eng_lang =>
      if bool_decide (eng_lang = str "en-gb")
         || bool_decide (eng_lang = str "pt-br") then True
      else
        match language_tag_of (babel_lang_of eng_lang) with
        | Raise _ => True
        | Ok sxng_tag =>
            match table !! sxng_tag with
            | Some (_ :: _) => True
            | Some [] => eng_lang = []
            | None => False
            end
        end
  end.

(** An entry of the market column the traits object has settled. *)
Definition region_settled (region_tag_of : pystr -> pyresult pystr)
    (traits : EngineTraits) (td : option pystr) : Prop :=
  match td with
  | None => True
  | Some eng_region =>
      if bool_decide (eng_region = str "en-WW") then
        all_locale traits = Some eng_region
      else
        match region_tag_of (babel_region_of eng_region) with
        | Raise _ => True
        | Ok sxng_tag =>
            match regions traits !! sxng_tag with
            | Some (_ :: _) => True
            | Some [] => eng_region = []
            | None => False
            end
        end
  end.

(** A stand-in for [babel] that does not know the locale [unknown]. *)
Definition without_locale (unknown : pystr) (tag_of : pystr -> pyresult pystr)
    (babel_locale : pystr) : pyresult pystr :=
  if bool_decide (babel_locale = unknown) then Raise UnknownLocaleError
  else tag_of babel_locale.

(** A document with a language code [babel] does not know and, in each
    column, a cell without text. *)
Definition example_broken_document : TraitsDocument :=
  {| ok := false;
     language_codes := [Some (str "fr"); Some (str "xx"); None; Some (str "jp")];
     market_codes := [Some (str "en-WW"); None] |}.

(** A traits object filled before the refresh. *)
Definition example_traits : EngineTraits :=
  {| languages := {[ str "de" := str "de" ]};
     regions := {[ str "de-DE" := str "de-DE" ]};
     all_locale := None |}.

(** A stand-in for [lxml] in the handler: it refuses the empty body, as
    [html.fromstring] does, and finds [page] in every other one. *)
Definition example_fromstring (page : list ResultBlock * list pystr)
    (text : pystr) : pyresult (list ResultBlock * list pystr) :=
  if is_empty text then Raise ParserError else Ok page.

(** Stand-ins for the network and for [lxml] in the refresh: every URL
    answers with [page]; the parser refuses the empty body and finds the
    two columns of [doc] in every other one. *)
Definition example_get (page : bool * pystr) (url : pystr)
  : pyresult (bool * pystr) :=
  Ok page.

Definition example_dom_fromstring (doc : TraitsDocument) (text : pystr)
  : pyresult TraitsDocument :=
  if is_empty text then Raise ParserError else Ok doc.

Definition example_eval_xpath (dom : TraitsDocument) (xpath : pystr)
  : pyresult (list (option pystr)) :=
  if bool_decide (xpath = str "//table[3]/tbody/tr/td[2]")
  then Ok (language_codes dom)
  else if bool_decide (xpath = str "//table[1]/tbody/tr/td[3]")
  then Ok (market_codes dom)
  else Ok [].

(* ================================================================== *)
(** * Properties *)

(** ** The library functions on sample values

    The values on the right are those CPython 3.11 returns. *)

Example utf8_decode_euro :
  bytes_decode [0xE2; 0x82; 0xAC] = Ok [0x20AC].
Proof. reflexivity. Qed.

Example utf8_decode_surrogate :
  bytes_decode [0xED; 0xA0; 0x80] = Raise UnicodeDecodeError.
Proof. reflexivity. Qed.

Example utf8_decode_replace_truncated :
  decode_replace [0x61; 0xE2; 0x82; 0x62; 0xF0; 0x9F] = [0x61; 0xFFFD; 0x62; 0xFFFD].
Proof. reflexivity. Qed.

Example unquote_mixed :
  unquote (str "a%41%e2%82%acb%zz%e2%82")
  = [97; 65; 0x20AC; 98; 37; 122; 122; 0xFFFD].
Proof. reflexivity. Qed.

Example urlsafe_b64decode_http :
  urlsafe_b64decode (str "aHR0cH==") = Ok (str "http").
Proof. reflexivity. Qed.

Example urlsafe_b64decode_incorrect_padding :
  urlsafe_b64decode (str "YQ=") = Raise BinasciiError.
Proof. reflexivity. Qed.

Example urlsafe_b64decode_stray_pad :
  urlsafe_b64decode (str "Y=Q==YQ==") = Ok (str "a").
Proof. reflexivity. Qed.

Example parse_qs_repeated_and_blank :
  parse_qs (str "a=1&a=2&b=&c&%75=x+y")
  = list_to_map [(str "a", [str "1"; str "2"]); (str "u", [str "x y"])].
Proof. vm_compute. reflexivity. Qed.

Example urlparse_query_tab_and_fragment :
  urlparse_query (str "https://www.bing.com/ck/a?x=1" ++ [9] ++ str "2#f&u=3")
  = str "x=12".
Proof. reflexivity. Qed.

Example quote_plus_reserved :
  quote_plus (str "a b&c=" ++ [233]) = Ok (str "a+b%26c%3D%C3%A9").
Proof. reflexivity. Qed.

Example str_of_int_negative : str_of_int (-9) = str "-9".
Proof. reflexivity. Qed.

(** ** Bit arithmetic *)

Lemma land_disjoint k b n :
  0 <= n -> 0 <= b < 2 ^ n -> k mod 2 ^ n = 0 -> Z.land k b = 0.
Proof.
  intros Hn Hb Hk. apply Z.bits_inj'. intros i Hi.
  rewrite Z.land_spec, Z.bits_0.
  destruct (Z.lt_ge_cases i n) as [Hlt | Hge].
  - rewrite <- (Z.mod_pow2_bits_low k n i) by lia.
    rewrite Hk, Z.bits_0. reflexivity.
  - rewrite <- (Z.mod_small b (2 ^ n)) by lia.
    rewrite Z.mod_pow2_bits_high by lia. apply andb_false_r.
Qed.

Lemma lor_disjoint k b n :
  0 <= n -> 0 <= b < 2 ^ n -> k mod 2 ^ n = 0 -> Z.lor k b = k + b.
Proof.
  intros Hn Hb Hk. pose proof (land_disjoint k b n Hn Hb Hk) as H0.
  rewrite <- Z.lxor_lor by exact H0. symmetry. apply Z.add_nocarry_lxor. exact H0.
Qed.

Lemma land_low a n : 0 <= n -> Z.land a (2 ^ n - 1) = a mod 2 ^ n.
Proof.
  intros Hn. replace (2 ^ n - 1) with (Z.ones n) by (rewrite Z.ones_equiv; lia).
  apply Z.land_ones. exact Hn.
Qed.

Ltac bits_to_arith :=
  repeat match goal with
  | |- context [Z.shiftr ?a ?n] => rewrite (Z.shiftr_div_pow2 a n) by lia
  | |- context [Z.shiftl ?a ?n] => rewrite (Z.shiftl_mul_pow2 a n) by lia
  | |- context [Z.land ?a 0x3f] => rewrite (land_low a 6 ltac:(lia) : Z.land a 0x3f = a mod 2 ^ 6)
  | |- context [Z.land ?a 0x0f] => rewrite (land_low a 4 ltac:(lia) : Z.land a 0x0f = a mod 2 ^ 4)
  | |- context [Z.land ?a 0x03] => rewrite (land_low a 2 ltac:(lia) : Z.land a 0x03 = a mod 2 ^ 2)
  end.

Lemma utf8_encode_char_2 ch :
  0x80 <= ch < 0x800 ->
  utf8_encode_char ch = Some [192 + ch / 64; 128 + ch mod 64].
Proof.
  intros H. unfold utf8_encode_char.
  destruct (Z.ltb_spec ch 0); [lia|].
  destruct (Z.ltb_spec ch 0x80); [lia|].
  destruct (Z.ltb_spec ch 0x800); [|lia].
  bits_to_arith.
  rewrite (lor_disjoint 0xc0 _ 6), (lor_disjoint 0x80 _ 6); try reflexivity; try lia.
  all: change (2 ^ 6) with 64; try (apply Z.mod_pos_bound; lia).
  split; [apply Z.div_pos; lia | apply Z.div_lt_upper_bound; lia].
Qed.

Ltac Zify.zify_post_hook ::= Z.to_euclidean_division_equations.

Lemma utf8_encode_char_3 ch :
  0x800 <= ch < 0x10000 -> ~ (0xD800 <= ch <= 0xDFFF) ->
  utf8_encode_char ch =
    Some [224 + ch / 4096; 128 + (ch / 64) mod 64; 128 + ch mod 64].
Proof.
  intros H Hs. unfold utf8_encode_char.
  destruct (Z.ltb_spec ch 0); [lia|].
  destruct (Z.ltb_spec ch 0x80); [lia|].
  destruct (Z.ltb_spec ch 0x800); [lia|].
  destruct (Z.leb_spec 0xD800 ch), (Z.leb_spec ch 0xDFFF); simpl; try lia.
  all: destruct (Z.ltb_spec ch 0x10000); [|lia].
  all: bits_to_arith.
  all: rewrite (lor_disjoint 0xe0 _ 4), !(lor_disjoint 0x80 _ 6); try reflexivity; try lia.
Qed.

Lemma utf8_encode_char_4 ch :
  0x10000 <= ch <= 0x10FFFF ->
  utf8_encode_char ch =
    Some [240 + ch / 262144; 128 + (ch / 4096) mod 64;
          128 + (ch / 64) mod 64; 128 + ch mod 64].
Proof.
  intros H. unfold utf8_encode_char.
  destruct (Z.ltb_spec ch 0); [lia|].
  destruct (Z.ltb_spec ch 0x80); [lia|].
  destruct (Z.ltb_spec ch 0x800); [lia|].
  destruct (Z.leb_spec 0xD800 ch), (Z.leb_spec ch 0xDFFF); simpl; try lia.
  destruct (Z.ltb_spec ch 0x10000); [lia|].
  destruct (Z.leb_spec ch 0x10FFFF); [|lia].
  bits_to_arith.
  rewrite (lor_disjoint 0xf0 _ 3), !(lor_disjoint 0x80 _ 6); try reflexivity; try lia.
Qed.

Ltac decide_tests :=
  repeat match goal with
  | |- context [Z.ltb ?a ?b] => destruct (Z.ltb_spec a b); try lia
  | |- context [Z.leb ?a ?b] => destruct (Z.leb_spec a b); try lia
  | |- context [Z.eqb ?a ?b] => destruct (Z.eqb_spec a b); try lia
  end.

Lemma utf8_decode_encode_char errors ch b rest :
  utf8_encode_char ch = Some b ->
  utf8_decode errors (b ++ rest) = cons ch <$> utf8_decode errors rest.
Proof.
  intros Hb.
  assert (Hr : 0 <= ch <= 0x10FFFF /\ ~ (0xD800 <= ch <= 0xDFFF)).
  { unfold utf8_encode_char in Hb. revert Hb. decide_tests; simpl; try discriminate; lia. }
  destruct Hr as [Hr Hs].
  destruct (Z.lt_ge_cases ch 0x80) as [H1 | H1].
  - unfold utf8_encode_char in Hb. revert Hb. decide_tests. intros [= <-].
    simpl. decide_tests. reflexivity.
  - destruct (Z.lt_ge_cases ch 0x800) as [H2 | H2].
    + rewrite utf8_encode_char_2 in Hb by lia. injection Hb as <-.
      set (a := ch / 64) in *. set (c := ch mod 64) in *.
      assert (ch = 64 * a + c /\ 0 <= c < 64) as [E Hc] by (subst a c; lia).
      clearbody a c. subst ch.
      cbn [app utf8_decode]. unfold is_continuation_byte.
      decide_tests. cbn [negb andb]. f_equal. f_equal.
      rewrite Z.shiftl_mul_pow2 by lia. change (Z.shiftl 192 6) with 12288. lia.
    + destruct (Z.lt_ge_cases ch 0x10000) as [H3 | H3].
      * rewrite utf8_encode_char_3 in Hb by lia. injection Hb as <-.
        set (a := ch / 4096) in *. set (b := (ch / 64) mod 64) in *.
        set (c := ch mod 64) in *.
        assert (ch = 4096 * a + 64 * b + c /\ 0 <= b < 64 /\ 0 <= c < 64)
          as (E & Hb & Hc) by (subst a b c; lia).
        clearbody a b c. subst ch.
        cbn [app utf8_decode]. unfold is_continuation_byte.
        decide_tests; cbn [negb andb orb]; try lia.
        all: f_equal; f_equal; rewrite !Z.shiftl_mul_pow2 by lia; lia.
      * rewrite utf8_encode_char_4 in Hb by lia. injection Hb as <-.
        set (a := ch / 262144) in *. set (b := (ch / 4096) mod 64) in *.
        set (c := (ch / 64) mod 64) in *. set (d := ch mod 64) in *.
        assert (ch = 262144 * a + 4096 * b + 64 * c + d
                /\ 0 <= b < 64 /\ 0 <= c < 64 /\ 0 <= d < 64)
          as (E & Hb & Hc & Hd) by (subst a b c d; lia).
        clearbody a b c d. subst ch.
        cbn [app utf8_decode]. unfold is_continuation_byte.
        decide_tests; cbn [negb andb orb]; try lia.
        all: f_equal; f_equal; rewrite !Z.shiftl_mul_pow2 by lia; lia.
Qed.

Lemma utf8_decode_encode errors s b :
  utf8_encode s = Some b -> utf8_decode errors b = Ok s.
Proof.
  revert b. induction s as [|ch s IH]; intros b Hb; simpl in Hb.
  - injection Hb as <-. reflexivity.
  - destruct (utf8_encode_char ch) as [bc|] eqn:Hc; [|discriminate].
    destruct (utf8_encode s) as [bs|]; [|discriminate].
    injection Hb as <-.
    rewrite (utf8_decode_encode_char errors ch bc bs Hc), (IH bs eq_refl).
    reflexivity.
Qed.

(** Exhaustive check of a decidable property below a bound. *)
Lemma forall_below (P : Z -> bool) (n : nat) :
  forallb P (map Z.of_nat (seq 0 n)) = true ->
  forall i, 0 <= i < Z.of_nat n -> P i = true.
Proof.
  intros H i Hi. rewrite forallb_forall in H. apply H.
  apply in_map_iff. exists (Z.to_nat i). split; [lia|].
  apply in_seq. lia.
Qed.

Lemma b64char_spec i :
  0 <= i < 64 -> b64char_ok i = true.
Proof. apply (forall_below b64char_ok 64). vm_compute. reflexivity. Qed.

Lemma b64char_decode i :
  0 <= i < 64 ->
  (_urlsafe_decode_translation (b64char i) =? BASE64_PAD) = false
  /\ table_a2b_base64 (_urlsafe_decode_translation (b64char i)) = Some i.
Proof.
  intros Hi. pose proof (b64char_spec i Hi) as H.
  unfold b64char_ok in H. rewrite !andb_true_iff in H.
  destruct H as (((Hpad & Htab) & _) & _).
  apply bool_decide_eq_true in Htab. apply negb_true_iff in Hpad. auto.
Qed.

Lemma list_ind3 {A} (P : list A -> Prop) :
  P [] -> (forall a, P [a]) -> (forall a b, P [a; b]) ->
  (forall a b c l, P l -> P (a :: b :: c :: l)) ->
  forall l, P l.
Proof.
  intros H0 H1 H2 H3.
  fix IH 1. intros [|a [|b [|c l]]];
    [apply H0 | apply H1 | apply H2 | apply H3, IH].
Qed.

Lemma a2b_char0 leftchar pads i rest :
  0 <= i < 64 ->
  a2b_base64_loop 0 leftchar pads
    (_urlsafe_decode_translation (b64char i) :: rest) =
  a2b_base64_loop 1 i 0 rest.
Proof.
  intros Hi. destruct (b64char_decode i Hi) as [Hne Htab].
  cbn [a2b_base64_loop]. rewrite Hne, Htab. reflexivity.
Qed.

Lemma a2b_char1 leftchar pads i rest :
  0 <= i < 64 ->
  a2b_base64_loop 1 leftchar pads
    (_urlsafe_decode_translation (b64char i) :: rest) =
  cons (Z.lor (Z.shiftl leftchar 2) (Z.shiftr i 4))
    <$> a2b_base64_loop 2 (Z.land i 0x0f) 0 rest.
Proof.
  intros Hi. destruct (b64char_decode i Hi) as [Hne Htab].
  cbn [a2b_base64_loop]. rewrite Hne, Htab. reflexivity.
Qed.

Lemma a2b_char2 leftchar pads i rest :
  0 <= i < 64 ->
  a2b_base64_loop 2 leftchar pads
    (_urlsafe_decode_translation (b64char i) :: rest) =
  cons (Z.lor (Z.shiftl leftchar 4) (Z.shiftr i 2))
    <$> a2b_base64_loop 3 (Z.land i 0x03) 0 rest.
Proof.
  intros Hi. destruct (b64char_decode i Hi) as [Hne Htab].
  cbn [a2b_base64_loop]. rewrite Hne, Htab. reflexivity.
Qed.

Lemma a2b_char3 leftchar pads i rest :
  0 <= i < 64 ->
  a2b_base64_loop 3 leftchar pads
    (_urlsafe_decode_translation (b64char i) :: rest) =
  cons (Z.lor (Z.shiftl leftchar 6) i) <$> a2b_base64_loop 0 0 0 rest.
Proof.
  intros Hi. destruct (b64char_decode i Hi) as [Hne Htab].
  cbn [a2b_base64_loop]. rewrite Hne, Htab. reflexivity.
Qed.

Lemma a2b_pad2 leftchar : a2b_base64_loop 2 leftchar 0 [61; 61] = Ok [].
Proof. reflexivity. Qed.

Lemma a2b_pad3 leftchar : a2b_base64_loop 3 leftchar 0 [61] = Ok [].
Proof. reflexivity. Qed.

Lemma lor_shiftl x y n :
  0 <= n -> 0 <= y < 2 ^ n -> Z.lor (Z.shiftl x n) y = x * 2 ^ n + y.
Proof.
  intros Hn Hy. rewrite Z.shiftl_mul_pow2 by exact Hn.
  apply (lor_disjoint _ _ n Hn Hy). apply Z.mod_mul. lia.
Qed.

Ltac bitarith :=
  repeat match goal with
  | |- context [Z.shiftr ?a ?n] => rewrite (Z.shiftr_div_pow2 a n) by lia
  | |- context [Z.land ?a 0x3f] => rewrite (land_low a 6 ltac:(lia) : Z.land a 0x3f = a mod 2 ^ 6)
  | |- context [Z.land ?a 0x0f] => rewrite (land_low a 4 ltac:(lia) : Z.land a 0x0f = a mod 2 ^ 4)
  | |- context [Z.land ?a 0x03] => rewrite (land_low a 2 ltac:(lia) : Z.land a 0x03 = a mod 2 ^ 2)
  end;
  repeat match goal with
  | |- context [Z.lor (Z.shiftl ?x ?n) ?y] => rewrite (lor_shiftl x y n) by lia
  end;
  repeat match goal with
  | |- context [Z.shiftl ?a ?n] => rewrite (Z.shiftl_mul_pow2 a n) by lia
  end.

(** The sextets of a group of three bytes. *)
Lemma sextets b1 b2 b3 :
  is_byte b1 -> is_byte b2 -> is_byte b3 ->
  Z.shiftr b1 2 = b1 / 4
  /\ Z.shiftl (Z.land b1 0x03) 4 = b1 mod 4 * 16
  /\ Z.lor (Z.shiftl (Z.land b1 0x03) 4) (Z.shiftr b2 4) = b1 mod 4 * 16 + b2 / 16
  /\ Z.shiftl (Z.land b2 0x0f) 2 = b2 mod 16 * 4
  /\ Z.lor (Z.shiftl (Z.land b2 0x0f) 2) (Z.shiftr b3 6) = b2 mod 16 * 4 + b3 / 64
  /\ Z.land b3 0x3f = b3 mod 64.
Proof.
  unfold is_byte. intros H1 H2 H3. repeat split; bitarith; reflexivity.
Qed.

Lemma a2b_base64_loop_encode b :
  Forall is_byte b ->
  a2b_base64_loop 0 0 0
    (map _urlsafe_decode_translation (urlsafe_b64encode_nopad b)
     ++ repeat_char 61 ((- len (urlsafe_b64encode_nopad b)) mod 4)) = Ok b.
Proof.
  induction b as [|b1|b1 b2|b1 b2 b3 b IH] using list_ind3; intros Hb.
  - reflexivity.
  - apply Forall_cons in Hb as [H1 _].
    cbn [urlsafe_b64encode_nopad map app].
    destruct (sextets b1 0 0 H1) as (-> & -> & _); [unfold is_byte; lia ..|].
    unfold is_byte in H1.
    rewrite a2b_char0, a2b_char1 by lia.
    change (repeat_char 61 _) with [61; 61]. rewrite a2b_pad2.
    cbn [fmap pyresult_fmap]. f_equal. f_equal. bitarith. lia.
  - apply Forall_cons in Hb as [H1 Hb]. apply Forall_cons in Hb as [H2 _].
    cbn [urlsafe_b64encode_nopad map app].
    destruct (sextets b1 b2 0 H1 H2) as (-> & _ & -> & -> & _); [unfold is_byte; lia|].
    unfold is_byte in H1, H2.
    rewrite a2b_char0, a2b_char1, a2b_char2 by lia.
    change (repeat_char 61 _) with [61]. rewrite a2b_pad3.
    cbn [fmap pyresult_fmap]. f_equal. f_equal; [|f_equal]; bitarith; lia.
  - apply Forall_cons in Hb as [H1 Hb]. apply Forall_cons in Hb as [H2 Hb].
    apply Forall_cons in Hb as [H3 Hb].
    destruct (sextets b1 b2 b3 H1 H2 H3) as (E1 & _ & E2 & _ & E3 & E4).
    unfold is_byte in H1, H2, H3.
    cbn [urlsafe_b64encode_nopad map app]. rewrite E1, E2, E3, E4.
    rewrite a2b_char0, a2b_char1, a2b_char2, a2b_char3 by lia.
    replace ((- len (b64char (b1 / 4) :: b64char (b1 mod 4 * 16 + b2 / 16)
                     :: b64char (b2 mod 16 * 4 + b3 / 64) :: b64char (b3 mod 64)
                     :: urlsafe_b64encode_nopad b)) mod 4)
      with ((- len (urlsafe_b64encode_nopad b)) mod 4).
    2:{ unfold len. cbn [length]. rewrite !Nat2Z.inj_succ.
        generalize (Z.of_nat (length (urlsafe_b64encode_nopad b))). intros n. lia. }
    rewrite (IH Hb). cbn [fmap pyresult_fmap].
    f_equal. f_equal; [|f_equal; [|f_equal]]; bitarith; lia.
Qed.

(** ** Facts about the encoders' output *)

Lemma utf8_encode_char_bytes ch b :
  utf8_encode_char ch = Some b -> Forall is_byte b.
Proof.
  intros Hb.
  assert (Hr : 0 <= ch <= 0x10FFFF /\ ~ (0xD800 <= ch <= 0xDFFF)).
  { unfold utf8_encode_char in Hb. revert Hb. decide_tests; simpl; try discriminate; lia. }
  destruct Hr as [Hr Hs]. unfold is_byte.
  destruct (Z.lt_ge_cases ch 0x80) as [H1 | H1].
  - unfold utf8_encode_char in Hb. revert Hb. decide_tests. intros [= <-].
    repeat constructor; lia.
  - destruct (Z.lt_ge_cases ch 0x800) as [H2 | H2].
    + rewrite utf8_encode_char_2 in Hb by lia. injection Hb as <-.
      repeat constructor; lia.
    + destruct (Z.lt_ge_cases ch 0x10000) as [H3 | H3].
      * rewrite utf8_encode_char_3 in Hb by lia. injection Hb as <-.
        repeat constructor; lia.
      * rewrite utf8_encode_char_4 in Hb by lia. injection Hb as <-.
        repeat constructor; lia.
Qed.

Lemma utf8_encode_bytes s b :
  utf8_encode s = Some b -> Forall is_byte b.
Proof.
  revert b. induction s as [|ch s IH]; intros b Hb; simpl in Hb.
  - injection Hb as <-. constructor.
  - destruct (utf8_encode_char ch) as [bc|] eqn:Hc; [|discriminate].
    destruct (utf8_encode s) as [bs|]; [|discriminate].
    injection Hb as <-. apply Forall_app. split.
    + eapply utf8_encode_char_bytes, Hc.
    + apply IH. reflexivity.
Qed.

Lemma urlsafe_b64encode_nopad_alphabet b :
  Forall is_byte b -> Forall is_b64char (urlsafe_b64encode_nopad b).
Proof.
  induction b as [|b1|b1 b2|b1 b2 b3 b IH] using list_ind3; intros Hb.
  - constructor.
  - apply Forall_cons in Hb as [H1 _].
    cbn [urlsafe_b64encode_nopad].
    destruct (sextets b1 0 0 H1) as (-> & -> & _); [unfold is_byte; lia ..|].
    unfold is_byte in H1. repeat constructor; eexists; (split; [|reflexivity]); lia.
  - apply Forall_cons in Hb as [H1 Hb]. apply Forall_cons in Hb as [H2 _].
    cbn [urlsafe_b64encode_nopad].
    destruct (sextets b1 b2 0 H1 H2) as (-> & _ & -> & -> & _); [unfold is_byte; lia|].
    unfold is_byte in H1, H2.
    repeat constructor; eexists; (split; [|reflexivity]); lia.
  - apply Forall_cons in Hb as [H1 Hb]. apply Forall_cons in Hb as [H2 Hb].
    apply Forall_cons in Hb as [H3 Hb].
    destruct (sextets b1 b2 b3 H1 H2 H3) as (E1 & _ & E2 & _ & E3 & E4).
    unfold is_byte in H1, H2, H3.
    cbn [urlsafe_b64encode_nopad app]. rewrite E1, E2, E3, E4.
    repeat (constructor; [eexists; (split; [|reflexivity]); lia|]).
    apply IH, Hb.
Qed.

Lemma b64char_plain c : is_b64char c -> plain c = true.
Proof.
  intros (i & Hi & ->). pose proof (b64char_spec i Hi) as H.
  unfold b64char_ok in H. rewrite !andb_true_iff in H.
  unfold plain. rewrite !andb_true_iff. tauto.
Qed.

Lemma always_safe_plain c : always_safe c = true -> plain c = true.
Proof.
  unfold always_safe, plain, is_upper, is_lower, is_digit. cbn [existsb].
  decide_tests; cbn; try reflexivity; try discriminate.
Qed.

(** ** Splitting and parsing a query string *)

Lemma split_nonempty sep s : split sep s <> [].
Proof.
  destruct s as [|c s]; simpl; [discriminate|].
  destruct (c =? sep); [discriminate|].
  destruct (split sep s); discriminate.
Qed.

Lemma split_app_sep sep a b :
  split sep (a ++ sep :: b) = split sep a ++ split sep b.
Proof.
  induction a as [|c a IH]; simpl.
  - rewrite Z.eqb_refl. reflexivity.
  - destruct (c =? sep); [rewrite IH; reflexivity|].
    rewrite IH. pose proof (split_nonempty sep a) as Hne.
    destruct (split sep a); [contradiction|reflexivity].
Qed.

Lemma split_no_sep sep s :
  contains sep s = false -> split sep s = [s].
Proof.
  unfold contains. induction s as [|c s IH]; simpl; [reflexivity|].
  rewrite orb_false_iff. intros [Hc Hs].
  rewrite Z.eqb_sym, Hc, (IH Hs). reflexivity.
Qed.

Lemma parse_qsl_nil : parse_qsl [] = [].
Proof. reflexivity. Qed.

Lemma parse_qsl_app a b :
  parse_qsl (a ++ 38 :: b) = parse_qsl a ++ parse_qsl b.
Proof.
  unfold parse_qsl. rewrite split_app_sep. apply flat_map_app.
Qed.

Lemma parse_qsl_field_only s :
  contains 38 s = false -> parse_qsl s = parse_qsl_field s.
Proof.
  intros H. unfold parse_qsl. rewrite (split_no_sep _ _ H). simpl.
  apply app_nil_r.
Qed.

Lemma plain_not c x :
  plain c = true -> In x [37; 43; 38; 61; 35; 9; 13; 10; 63] -> (c =? x) = false.
Proof.
  unfold plain. rewrite !andb_true_iff, negb_true_iff.
  intros [_ H] Hx. rewrite <- not_true_iff_false. intros Heq.
  rewrite <- not_true_iff_false in H. apply H.
  apply existsb_exists. exists x. auto.
Qed.

Lemma plain_contains x s :
  Forall (fun c => plain c = true) s ->
  In x [37; 43; 38; 61; 35; 9; 13; 10; 63] -> contains x s = false.
Proof.
  intros Hs Hx. unfold contains. induction Hs as [|c s Hc Hs IH]; simpl; [reflexivity|].
  rewrite Z.eqb_sym, (plain_not c x Hc Hx), IH. reflexivity.
Qed.

Lemma plain_replace_plus s :
  Forall (fun c => plain c = true) s -> replace_char 43 32 s = s.
Proof.
  intros Hs. unfold replace_char. induction Hs as [|c s Hc Hs IH]; simpl; [reflexivity|].
  rewrite (plain_not c 43 Hc), IH; [reflexivity|]. simpl; tauto.
Qed.

Lemma plain_unquote s :
  Forall (fun c => plain c = true) s -> unquote s = s.
Proof.
  intros Hs. unfold unquote. rewrite (plain_contains 37 s Hs); [reflexivity|].
  simpl; tauto.
Qed.

(** ** The values [parse_qs] keeps for a name *)

Lemma parse_qs_add_first parsed_result pair k v vs :
  parsed_result !! k = Some (v :: vs) ->
  exists vs', parse_qs_add parsed_result pair !! k = Some (v :: vs').
Proof.
  intros Hk. destruct pair as [name value]. unfold parse_qs_add.
  destruct (decide (name = k)) as [-> | Hne].
  - rewrite Hk, lookup_insert_eq. eexists. reflexivity.
  - destruct (parsed_result !! name); rewrite lookup_insert_ne by exact Hne; eauto.
Qed.

Lemma parse_qs_fold_first l : forall (parsed_result : gmap pystr (list pystr)) k v vs,
  parsed_result !! k = Some (v :: vs) ->
  exists vs', fold_left parse_qs_add l parsed_result !! k = Some (v :: vs').
Proof.
  induction l as [|pair l IH]; intros m k v vs Hk; simpl; [eauto|].
  destruct (parse_qs_add_first m pair k v vs Hk) as [vs' Hk'].
  eapply IH, Hk'.
Qed.

Lemma parse_qs_fold_other l : forall (parsed_result : gmap pystr (list pystr)) k,
  Forall (fun pair => pair.1 <> k) l ->
  fold_left parse_qs_add l parsed_result !! k = parsed_result !! k.
Proof.
  induction l as [|[name value] l IH]; intros m k Hl; simpl; [reflexivity|].
  apply Forall_cons in Hl as [Hne Hl]. simpl in Hne.
  rewrite (IH _ k Hl). unfold parse_qs_add.
  destruct (m !! name); rewrite lookup_insert_ne by exact Hne; reflexivity.
Qed.

Lemma parse_qs_first_value before k v after :
  Forall (fun pair => pair.1 <> k) before ->
  exists vs, fold_left parse_qs_add (before ++ (k, v) :: after) ∅ !! k = Some (v :: vs).
Proof.
  intros Hb. rewrite fold_left_app. cbn [fold_left].
  eapply parse_qs_fold_first. unfold parse_qs_add at 1.
  rewrite (parse_qs_fold_other before ∅ k Hb), lookup_empty.
  apply lookup_insert_eq.
Qed.

(** ** The query of a wrapper URL *)

Lemma plain_query_char c : plain c = true -> query_char c = true.
Proof.
  intros Hc. unfold query_char. cbn [existsb].
  rewrite !(plain_not c _ Hc) by (simpl; tauto). reflexivity.
Qed.

Lemma query_char_filter s :
  Forall (fun c => query_char c = true) s -> List.filter not_unsafe s = s.
Proof.
  intros Hs. induction Hs as [|c s Hc Hs IH]; simpl; [reflexivity|].
  rewrite IH. unfold not_unsafe, query_char, _UNSAFE_URL_BYTES_TO_REMOVE in *.
  cbn [existsb] in *. revert Hc. decide_tests; simpl; try discriminate; reflexivity.
Qed.

Lemma query_char_before s t :
  Forall (fun c => query_char c = true) s -> before 35 (s ++ t) = s ++ before 35 t.
Proof.
  intros Hs. induction Hs as [|c s Hc Hs IH]; simpl; [reflexivity|].
  rewrite IH. unfold query_char in Hc. cbn [existsb] in Hc.
  revert Hc. decide_tests; simpl; try discriminate; reflexivity.
Qed.

Lemma ck_prefix_query_char : Forall (fun c => query_char c = true) ck_prefix.
Proof. apply (bool_decide_unpack _). vm_compute. exact I. Qed.

Lemma urlparse_query_ck q rest :
  Forall (fun c => query_char c = true) q ->
  urlparse_query (ck_prefix ++ q ++ rest)
  = q ++ before 35 (List.filter not_unsafe rest).
Proof.
  intros Hq. unfold urlparse_query. fold not_unsafe.
  rewrite !List.filter_app.
  rewrite (query_char_filter _ ck_prefix_query_char), (query_char_filter _ Hq).
  rewrite (query_char_before _ _ ck_prefix_query_char), (query_char_before _ _ Hq).
  reflexivity.
Qed.

(** What is left of the text that follows the [u] field. *)
Lemma tail_shape post :
  post = [] \/ (exists p, post = 38 :: p) ->
  let post' := before 35 (List.filter not_unsafe post) in
  post' = [] \/ exists p, post' = 38 :: p.
Proof.
  intros [-> | [p ->]]; [left; reflexivity|right].
  simpl. eexists. reflexivity.
Qed.

Lemma parse_qsl_u_field pre value tail :
  pre = [] \/ (exists p, pre = p ++ [38]) ->
  tail = [] \/ (exists p, tail = 38 :: p) ->
  value <> [] ->
  Forall (fun c => plain c = true) value ->
  exists others,
    parse_qsl (pre ++ str "u=" ++ value ++ tail)
    = parse_qsl pre ++ (str "u", value) :: others.
Proof.
  intros Hpre Htail Hne Hplain.
  assert (Hfield : parse_qsl (str "u=" ++ value) = [(str "u", value)]).
  { rewrite parse_qsl_field_only.
    - unfold parse_qsl_field. cbn [str app list_ascii_of_string map is_empty partition].
      change (Z.of_N (N_of_ascii "u") =? 61) with false.
      change (Z.of_N (N_of_ascii "=") =? 61) with true. cbn iota.
      destruct value as [|c value]; [contradiction|]. cbn [is_empty].
      rewrite (plain_replace_plus _ Hplain), (plain_unquote _ Hplain).
      reflexivity.
    - change (str "u=" ++ value) with (117 :: 61 :: value).
      unfold contains. cbn [existsb]. apply (plain_contains 38 value Hplain).
      simpl; tauto. }
  assert (Hmid : exists others,
             parse_qsl (str "u=" ++ value ++ tail) = (str "u", value) :: others).
  { destruct Htail as [-> | [p ->]].
    - rewrite app_nil_r, Hfield. eauto.
    - rewrite app_assoc, parse_qsl_app, Hfield. eauto. }
  destruct Hmid as [others Hmid].
  destruct Hpre as [-> | [p ->]].
  - exists others. rewrite parse_qsl_nil. exact Hmid.
  - exists others. rewrite <- !app_assoc. cbn [app].
    rewrite !parse_qsl_app, parse_qsl_nil, app_nil_r, Hmid. reflexivity.
Qed.

Lemma parse_qs_u_field pre value tail :
  pre = [] \/ (exists p, pre = p ++ [38]) ->
  tail = [] \/ (exists p, tail = 38 :: p) ->
  Forall (fun pair => pair.1 <> str "u") (parse_qsl pre) ->
  value <> [] ->
  Forall (fun c => plain c = true) value ->
  exists vs,
    parse_qs (pre ++ str "u=" ++ value ++ tail) !! str "u" = Some (value :: vs).
Proof.
  intros Hpre Htail Hu Hne Hplain.
  destruct (parse_qsl_u_field pre value tail Hpre Htail Hne Hplain) as [others E].
  unfold parse_qs. rewrite E. apply parse_qs_first_value, Hu.
Qed.

Lemma startswith_app p s : startswith p (p ++ s) = true.
Proof. induction p as [|c p IH]; simpl; [reflexivity|]. rewrite Z.eqb_refl. exact IH. Qed.

Lemma plain_ascii s :
  Forall (fun c => plain c = true) s ->
  forallb (fun c => (0 <=? c) && (c <? 128)) s = true.
Proof.
  intros Hs. induction Hs as [|c s Hc Hs IH]; simpl; [reflexivity|].
  rewrite IH, andb_true_r. unfold plain in Hc.
  rewrite andb_true_iff in Hc. tauto.
Qed.

Lemma urlsafe_b64decode_encode b :
  Forall is_byte b ->
  urlsafe_b64decode
    (urlsafe_b64encode_nopad b
     ++ repeat_char 61 ((- len (urlsafe_b64encode_nopad b)) mod 4)) = Ok b.
Proof.
  intros Hb. unfold urlsafe_b64decode, _bytes_from_decode_data.
  assert (Hplain : Forall (fun c => plain c = true) (urlsafe_b64encode_nopad b)).
  { eapply Forall_impl; [apply urlsafe_b64encode_nopad_alphabet, Hb|].
    apply b64char_plain. }
  rewrite forallb_app, (plain_ascii _ Hplain).
  assert (Hpad : forall n, forallb (fun c => (0 <=? c) && (c <? 128)) (replicate n 61) = true
                           /\ map _urlsafe_decode_translation (replicate n 61) = replicate n 61).
  { induction n as [|n [IH1 IH2]]; simpl; [split; reflexivity|].
    rewrite IH1, IH2. split; reflexivity. }
  unfold repeat_char. rewrite (proj1 (Hpad _)). cbn [andb mbind pyresult_bind].
  unfold a2b_base64. rewrite map_app, (proj2 (Hpad _)).
  apply a2b_base64_loop_encode, Hb.
Qed.

(** C3: redirect decoding round-trips.  Take a destination URL that has a
    UTF-8 encoding [b], and wrap it the provider's way: under the [ck/a]
    prefix, as the first value of the parameter [u], a two-character tag
    followed by the unpadded URL-safe base64 text of [b]; other fields may
    come before (none of them named [u]) and after.  Then the steps of
    [real_url] (first value of [u], drop two characters, pad with [=],
    base64url-decode, UTF-8 decode) give the destination URL back. *)
Theorem redirect_roundtrip url b pre tag post :
  utf8_encode url = Some b ->
  length tag = 2%nat ->
  Forall (fun c => always_safe c = true) tag ->
  pre = [] \/ (exists p, pre = p ++ str "&") ->
  Forall (fun c => query_char c = true) pre ->
  Forall (fun pair => pair.1 <> str "u") (parse_qsl pre) ->
  post = [] \/ (exists p, post = str "&" ++ p) ->
  real_url (indirection_url pre tag b post) = Ok url.
Proof.
  intros Henc Htag Hsafe Hpre Hclean Hu Hpost.
  pose proof (utf8_encode_bytes url b Henc) as Hb.
  set (enc := urlsafe_b64encode_nopad b).
  assert (Hval : Forall (fun c => plain c = true) (tag ++ enc)).
  { apply Forall_app. split.
    - eapply Forall_impl; [exact Hsafe|]. apply always_safe_plain.
    - eapply Forall_impl; [apply urlsafe_b64encode_nopad_alphabet, Hb|].
      apply b64char_plain. }
  unfold real_url, indirection_url. rewrite startswith_app.
  fold enc.
  replace (pre ++ str "u=" ++ tag ++ enc ++ post)
    with ((pre ++ str "u=" ++ tag ++ enc) ++ post)
    by (rewrite <- !app_assoc; reflexivity).
  rewrite urlparse_query_ck.
  2:{ apply Forall_app. split; [exact Hclean|].
      apply Forall_app. split; [apply (bool_decide_unpack _); vm_compute; exact I|].
      eapply Forall_impl; [exact Hval|]. apply plain_query_char. }
  destruct (parse_qs_u_field pre (tag ++ enc)
              (before 35 (List.filter not_unsafe post))) as [vs Hlookup].
  - exact Hpre.
  - apply tail_shape. exact Hpost.
  - exact Hu.
  - destruct tag; [discriminate|discriminate].
  - exact Hval.
  - rewrite <- !app_assoc. rewrite <- !app_assoc in Hlookup.
    match goal with
    | |- match ?x with _ => _ end = _ =>
        replace x with (Some ((tag ++ enc) :: vs)) by (symmetry; exact Hlookup)
    end.
    destruct tag as [|c1 [|c2 [|c3 tag]]]; try discriminate.
    change (slice_from 2 ([c1; c2] ++ enc)) with enc.
    unfold enc. rewrite (urlsafe_b64decode_encode b Hb).
    cbn [mbind pyresult_bind]. unfold bytes_decode.
    apply utf8_decode_encode, Henc.
Qed.

Lemma redirect_roundtrip_witness :
  let url := str "https://example.org/caf" ++ [233; 8364] in
  let b := str "https://example.org/caf" ++ [0xC3; 0xA9; 0xE2; 0x82; 0xAC] in
  utf8_encode url = Some b
  /\ indirection_url (str "!&&p=5d1f&ptn=3&") (str "a1") b (str "&ntb=1")
     = str "https://www.bing.com/ck/a?!&&p=5d1f&ptn=3&u=a1aHR0cHM6Ly9leGFtcGxlLm9yZy9jYWbDqeKCrA&ntb=1"
  /\ real_url (indirection_url (str "!&&p=5d1f&ptn=3&") (str "a1") b (str "&ntb=1"))
     = Ok url.
Proof.
  split; [reflexivity|]. split; [reflexivity|].
  apply (redirect_roundtrip
           (str "https://example.org/caf" ++ [233; 8364])
           (str "https://example.org/caf" ++ [0xC3; 0xA9; 0xE2; 0x82; 0xAC])
           (str "!&&p=5d1f&ptn=3&") (str "a1") (str "&ntb=1")).
  - reflexivity.
  - reflexivity.
  - apply (bool_decide_unpack _). vm_compute. exact I.
  - right. exists (str "!&&p=5d1f&ptn=3"). reflexivity.
  - apply (bool_decide_unpack _). vm_compute. exact I.
  - apply (bool_decide_unpack _). vm_compute. exact I.
  - right. exists (str "ntb=1"). reflexivity.
Defined.

(** ** What [quote_plus] writes *)

Lemma utf8_encode_ascii s :
  Forall (fun c => 0 <= c < 128) s -> utf8_encode s = Some s.
Proof.
  intros Hs. induction Hs as [|c s Hc Hs IH]; simpl; [reflexivity|].
  rewrite IH. unfold utf8_encode_char.
  destruct (Z.ltb_spec c 0); [lia|]. destruct (Z.ltb_spec c 0x80); [|lia].
  reflexivity.
Qed.

Lemma always_safe_ascii c : always_safe c = true -> 0 <= c < 128.
Proof.
  unfold always_safe, is_upper, is_lower, is_digit.
  rewrite !orb_true_iff, !andb_true_iff. lia.
Qed.

Lemma quote_plus_safe s :
  Forall (fun c => always_safe c = true) s -> quote_plus s = Ok s.
Proof.
  intros Hs. unfold quote_plus. rewrite utf8_encode_ascii.
  - f_equal. induction Hs as [|c s Hc Hs IH]; simpl; [reflexivity|].
    rewrite IH. unfold quote_plus_byte. rewrite Hc. reflexivity.
  - eapply Forall_impl; [exact Hs|]. apply always_safe_ascii.
Qed.

Lemma hexdigit_safe n : 0 <= n < 16 -> always_safe (hexdigit n) = true.
Proof.
  intros Hn. revert n Hn.
  apply (forall_below (fun n => always_safe (hexdigit n)) 16). reflexivity.
Qed.

Lemma quote_plus_byte_quoted b :
  is_byte b -> Forall (fun c => quoted_char c = true) (quote_plus_byte b).
Proof.
  unfold is_byte. intros Hb. unfold quote_plus_byte.
  destruct (always_safe b) eqn:Hsafe.
  - repeat constructor. unfold quoted_char. rewrite Hsafe. reflexivity.
  - destruct (b =? 32) eqn:Hsp.
    + repeat constructor.
    + repeat constructor; unfold quoted_char.
      * rewrite hexdigit_safe; [reflexivity|lia].
      * rewrite hexdigit_safe; [reflexivity|lia].
Qed.

Lemma quote_plus_quoted s q :
  quote_plus s = Ok q -> Forall (fun c => quoted_char c = true) q.
Proof.
  unfold quote_plus. destruct (utf8_encode s) as [b|] eqn:Hb; [|discriminate].
  intros [= <-]. pose proof (utf8_encode_bytes s b Hb) as Hbytes. clear Hb.
  induction Hbytes as [|c b Hc Hbytes IH]; simpl; [constructor|].
  apply Forall_app. split; [apply quote_plus_byte_quoted, Hc|apply IH].
Qed.

(** ** What [str] of an [int] writes *)

Lemma string_of_uint_safe d :
  Forall (fun c => always_safe c = true) (str (NilEmpty.string_of_uint d)).
Proof.
  induction d; simpl; try (constructor; [reflexivity|exact IHd]). constructor.
Qed.

Lemma str_of_int_safe n : Forall (fun c => always_safe c = true) (str_of_int n).
Proof.
  unfold str_of_int, NilZero.string_of_int, NilZero.string_of_uint.
  destruct (Z.to_int n) as [d|d].
  - destruct d; try apply (string_of_uint_safe (_ _)). repeat constructor.
  - change (str (String "-" ?s)) with (45 :: str s).
    constructor; [reflexivity|].
    destruct d; try apply (string_of_uint_safe (_ _)). repeat constructor.
Qed.

(** ** All the values [parse_qs] keeps for a name *)

Lemma parse_qs_fold_lookup l : forall (parsed_result : gmap pystr (list pystr)) k,
  fold_left parse_qs_add l parsed_result !! k =
    match parsed_result !! k, values_of k l with
    | None, [] => None
    | None, vs => Some vs
    | Some vs0, vs => Some (vs0 ++ vs)
    end.
Proof.
  induction l as [|[name value] l IH]; intros m k.
  - simpl. destruct (m !! k); [rewrite app_nil_r|]; reflexivity.
  - cbn [fold_left]. rewrite IH. unfold values_of, parse_qs_add.
    cbn [List.filter fst]. destruct (decide (name = k)) as [-> | Hne].
    + rewrite bool_decide_eq_true_2 by reflexivity. cbn [map snd].
      destruct (m !! k) as [vs0|]; rewrite lookup_insert_eq.
      * rewrite <- app_assoc. reflexivity.
      * reflexivity.
    + rewrite bool_decide_eq_false_2 by exact Hne.
      destruct (m !! name); rewrite lookup_insert_ne by exact Hne; reflexivity.
Qed.

Lemma parse_qs_lookup qs k :
  parse_qs qs !! k =
    match values_of k (parse_qsl qs) with [] => None | vs => Some vs end.
Proof.
  unfold parse_qs. rewrite parse_qs_fold_lookup, lookup_empty.
  destruct (values_of k (parse_qsl qs)); reflexivity.
Qed.

Lemma values_of_app k l1 l2 :
  values_of k (l1 ++ l2) = values_of k l1 ++ values_of k l2.
Proof. unfold values_of. rewrite List.filter_app, map_app. reflexivity. Qed.

Lemma values_of_other k l :
  Forall (fun pair => pair.1 <> k) l -> values_of k l = [].
Proof.
  intros Hl. unfold values_of. induction Hl as [|pair l Hp Hl IH]; simpl; [reflexivity|].
  rewrite bool_decide_eq_false_2 by exact Hp. exact IH.
Qed.

(** ** One field of a query string *)

Lemma partition_plain name value :
  Forall (fun c => plain c = true) name ->
  partition 61 (name ++ 61 :: value) = (name, true, value).
Proof.
  intros Hn. induction Hn as [|c name Hc Hn IH]; simpl; [reflexivity|].
  rewrite (plain_not c 61 Hc) by (simpl; tauto). rewrite IH. reflexivity.
Qed.

Lemma parse_qsl_plain_field name value :
  Forall (fun c => plain c = true) name ->
  Forall (fun c => plain c = true) value ->
  value <> [] ->
  parse_qsl (name ++ 61 :: value) = [(name, value)].
Proof.
  intros Hn Hv Hne. rewrite parse_qsl_field_only.
  - unfold parse_qsl_field. rewrite (partition_plain name value Hn).
    destruct value as [|c value]; [contradiction|].
    replace (is_empty (name ++ 61 :: c :: value)) with false
      by (destruct name; reflexivity).
    cbn [is_empty].
    rewrite (plain_replace_plus _ Hn), (plain_unquote _ Hn),
      (plain_replace_plus _ Hv), (plain_unquote _ Hv).
    reflexivity.
  - unfold contains. rewrite existsb_app. cbn [existsb].
    apply orb_false_iff. split; [apply (plain_contains 38 name Hn); simpl; tauto|].
    apply (plain_contains 38 value Hv). simpl; tauto.
Qed.

(** ** The request *)

Section RequestFacts.

Variable lower : pystr -> pystr.
Variable traits : EngineTraits.
Variable region_of language_of : EngineTraits -> pystr -> option pystr.
Variable unix_day : Z.

Lemma request_ok query params q :
  quote_plus query = Ok q ->
  request lower traits region_of language_of unix_day query params =
    Ok {| searxng_locale := searxng_locale params;
          pageno := pageno params;
          time_range := time_range params;
          cookies :=
            <[str "_EDGE_CD" :=
                str "m="
                ++ lower (get_region traits region_of
                            (searxng_locale params) (str "en-us"))
                ++ str "&u="
                ++ lower (get_language traits language_of
                            (searxng_locale params) (str "en-us"))
                ++ str ";"]> (cookies params);
          url :=
            base_url ++ str "?q=" ++ q ++ str "&first="
            ++ str_of_int (_page_offset (default 1 (pageno params)))
            ++ filters_of unix_day (time_range params) |}.
Proof.
  intros Hq. unfold request, urlencode. cbn [mapM fst snd].
  change (quote_plus (str "q")) with (Ok (str "q")).
  change (quote_plus (str "first")) with (Ok (str "first")).
  rewrite Hq, (quote_plus_safe _ (str_of_int_safe _)).
  cbn [mbind pyresult_bind mret pyresult_ret join].
  unfold filters_of, set_url, set_bing_cookies. cbn [time_range url pageno].
  destruct (time_range params ≫= (time_ranges unix_day !!.)) as [code|].
  - f_equal. f_equal. rewrite <- !app_assoc. reflexivity.
  - f_equal. f_equal. rewrite <- !app_assoc, app_nil_r. reflexivity.
Qed.

End RequestFacts.

Lemma quoted_not c x :
  quoted_char c = true -> In x [38; 61; 35; 9; 13; 10; 63] -> (c =? x) = false.
Proof.
  unfold quoted_char, always_safe, is_upper, is_lower, is_digit.
  rewrite !orb_true_iff, !andb_true_iff. simpl.
  intros Hc Hx. apply Z.eqb_neq. lia.
Qed.

Lemma always_safe_quoted c : always_safe c = true -> quoted_char c = true.
Proof. unfold quoted_char. intros ->. reflexivity. Qed.

Lemma quoted_query_char s :
  Forall (fun c => quoted_char c = true) s ->
  Forall (fun c => query_char c = true) s.
Proof.
  intros Hs. eapply Forall_impl; [exact Hs|].
  intros c Hc. unfold query_char. cbn [existsb].
  rewrite !(quoted_not c _ Hc) by (simpl; tauto). reflexivity.
Qed.

Lemma quoted_contains x s :
  Forall (fun c => quoted_char c = true) s ->
  In x [38; 61; 35; 9; 13; 10; 63] -> contains x s = false.
Proof.
  intros Hs Hx. unfold contains. induction Hs as [|c s Hc Hs IH]; simpl; [reflexivity|].
  rewrite Z.eqb_sym, (quoted_not c x Hc Hx), IH. reflexivity.
Qed.

Lemma time_ranges_safe unix_day k code :
  time_ranges unix_day !! k = Some code ->
  Forall (fun c => always_safe c = true) code.
Proof.
  intros H. unfold time_ranges in H. apply elem_of_list_to_map_2 in H.
  apply elem_of_cons in H as [[= _ ->] | H];
    [apply (bool_decide_unpack _); vm_compute; exact I|].
  apply elem_of_cons in H as [[= _ ->] | H];
    [apply (bool_decide_unpack _); vm_compute; exact I|].
  apply elem_of_cons in H as [[= _ ->] | H];
    [apply (bool_decide_unpack _); vm_compute; exact I|].
  apply elem_of_cons in H as [[= _ ->] | H]; [|apply elem_of_nil in H as []].
  constructor; [reflexivity|]. constructor; [reflexivity|].
  apply Forall_app; split; [apply str_of_int_safe|].
  constructor; [reflexivity|]. apply str_of_int_safe.
Qed.

Lemma str_of_int_nonempty n : str_of_int n <> [].
Proof.
  unfold str_of_int, NilZero.string_of_int, NilZero.string_of_uint.
  destruct (Z.to_int n) as [d|d]; [|discriminate].
  destruct d; discriminate.
Qed.

Lemma base_url_query_char : Forall (fun c => query_char c = true) base_url.
Proof. apply (bool_decide_unpack _). vm_compute. exact I. Qed.

Lemma urlparse_query_base rest :
  Forall (fun c => query_char c = true) rest ->
  urlparse_query (base_url ++ 63 :: rest) = rest.
Proof.
  intros Hrest. unfold urlparse_query.
  assert (Hall : Forall (fun c => query_char c = true) (base_url ++ 63 :: rest)).
  { apply Forall_app. split; [apply base_url_query_char|].
    constructor; [reflexivity|exact Hrest]. }
  rewrite (query_char_filter _ Hall).
  rewrite <- (app_nil_r (base_url ++ 63 :: rest)) at 1.
  rewrite (query_char_before _ [] Hall), app_nil_r. reflexivity.
Qed.

(** The fields of the query [request] writes, once parsed. *)
Lemma q_field_names q :
  Forall (fun c => quoted_char c = true) q ->
  Forall (fun pair => pair.1 = str "q") (parse_qsl (str "q=" ++ q)).
Proof.
  intros Hq. rewrite parse_qsl_field_only.
  - unfold parse_qsl_field.
    change (partition 61 (str "q=" ++ q)) with (str "q", true, q).
    change (is_empty (str "q=" ++ q)) with false. cbn iota.
    destruct (is_empty q); repeat constructor.
  - change (contains 38 (113 :: 61 :: q) = false). unfold contains. cbn [existsb].
    apply (quoted_contains 38 q Hq). simpl; tauto.
Qed.

Lemma filters_field_names code :
  Forall (fun c => always_safe c = true) code ->
  Forall (fun pair => pair.1 = str "filters")
    (parse_qsl (str "filters=ex1:" ++ dquote ++ str "ez" ++ code ++ dquote)).
Proof.
  intros Hcode. rewrite parse_qsl_field_only.
  - unfold parse_qsl_field.
    change (partition 61 (str "filters=ex1:" ++ dquote ++ str "ez" ++ code ++ dquote))
      with (str "filters", true, str "ex1:" ++ dquote ++ str "ez" ++ code ++ dquote).
    change (is_empty (str "filters=ex1:" ++ dquote ++ str "ez" ++ code ++ dquote))
      with false.
    change (is_empty (str "ex1:" ++ dquote ++ str "ez" ++ code ++ dquote))
      with false.
    cbn iota. repeat constructor.
  - unfold contains. rewrite !existsb_app.
    change (existsb (Z.eqb 38) (str "filters=ex1:")) with false.
    change (existsb (Z.eqb 38) dquote) with false.
    change (existsb (Z.eqb 38) (str "ez")) with false.
    cbn [orb]. rewrite orb_false_r.
    apply (quoted_contains 38 code); [|simpl; tauto].
    eapply Forall_impl; [exact Hcode|]. apply always_safe_quoted.
Qed.

Lemma filters_of_shape unix_day time_range :
  filters_of unix_day time_range = []
  \/ exists code,
       Forall (fun c => always_safe c = true) code
       /\ filters_of unix_day time_range
          = 38 :: (str "filters=ex1:" ++ dquote ++ str "ez" ++ code ++ dquote).
Proof.
  unfold filters_of. destruct time_range as [tr|]; [|left; reflexivity].
  cbn [mbind option_bind].
  destruct (time_ranges unix_day !! tr) as [code|] eqn:E; [|left; reflexivity].
  right. exists code. split; [|reflexivity].
  eapply time_ranges_safe, E.
Qed.

Lemma request_query_first unix_day time_range q d :
  Forall (fun c => quoted_char c = true) q ->
  Forall (fun c => always_safe c = true) d -> d <> [] ->
  parse_qs
    (urlparse_query
       (base_url ++ str "?q=" ++ q ++ str "&first=" ++ d
        ++ filters_of unix_day time_range))
  !! str "first" = Some [d].
Proof.
  intros Hq Hd Hne.
  assert (Hdp : Forall (fun c => plain c = true) d).
  { eapply Forall_impl; [exact Hd|]. apply always_safe_plain. }
  assert (Hfirst : parse_qsl (str "first=" ++ d) = [(str "first", d)]).
  { apply (parse_qsl_plain_field (str "first") d); [|exact Hdp|exact Hne].
    apply (bool_decide_unpack _). vm_compute. exact I. }
  change (base_url ++ str "?q=" ++ q ++ str "&first=" ++ d
          ++ filters_of unix_day time_range)
    with (base_url ++ 63 :: ((str "q=" ++ q) ++ 38 :: str "first=" ++ d
                             ++ filters_of unix_day time_range)).
  destruct (filters_of_shape unix_day time_range) as [-> | (code & Hcode & ->)].
  - rewrite app_nil_r, urlparse_query_base.
    2:{ apply Forall_app. split.
        - constructor; [reflexivity|]. constructor; [reflexivity|].
          apply quoted_query_char, Hq.
        - constructor; [reflexivity|]. apply Forall_app. split.
          + apply (bool_decide_unpack _). vm_compute. exact I.
          + eapply Forall_impl; [exact Hdp|]. apply plain_query_char. }
    rewrite parse_qs_lookup, parse_qsl_app, values_of_app, Hfirst.
    rewrite values_of_other.
    2:{ eapply Forall_impl; [apply q_field_names, Hq|].
        intros pair ->. discriminate. }
    reflexivity.
  - set (field := str "filters=ex1:" ++ dquote ++ str "ez" ++ code ++ dquote).
    rewrite urlparse_query_base.
    2:{ apply Forall_app. split.
        - constructor; [reflexivity|]. constructor; [reflexivity|].
          apply quoted_query_char, Hq.
        - constructor; [reflexivity|]. apply Forall_app. split.
          + apply (bool_decide_unpack _). vm_compute. exact I.
          + apply Forall_app. split.
            * eapply Forall_impl; [exact Hdp|]. apply plain_query_char.
            * constructor; [reflexivity|]. unfold field.
              repeat (apply Forall_app; split);
                try (apply (bool_decide_unpack _); vm_compute; exact I).
              apply quoted_query_char.
              eapply Forall_impl; [exact Hcode|]. apply always_safe_quoted. }
    rewrite parse_qs_lookup, parse_qsl_app, values_of_app.
    rewrite app_assoc, parse_qsl_app, values_of_app, Hfirst.
    rewrite (values_of_other _ (parse_qsl (str "q=" ++ q))).
    2:{ eapply Forall_impl; [apply q_field_names, Hq|].
        intros pair ->. discriminate. }
    rewrite (values_of_other _ (parse_qsl field)).
    2:{ eapply Forall_impl; [apply filters_field_names, Hcode|].
        intros pair ->. discriminate. }
    reflexivity.
Qed.

(** C1: for a page number n >= 1 the offset is 10 (n - 1) + 1, so 1 for
    page 1 and 21 for page 3, and the URL of the request carries it as the
    value of the query parameter [first], the only value of that name. *)
Theorem first_parameter_is_page_offset
    lower traits region_of language_of unix_day query params n q :
  1 <= n ->
  pageno params = Some n ->
  quote_plus query = Ok q ->
  _page_offset n = 10 * (n - 1) + 1
  /\ _page_offset 1 = 1
  /\ _page_offset 3 = 21
  /\ exists params',
       request lower traits region_of language_of unix_day query params = Ok params'
       /\ url params'
          = base_url ++ str "?q=" ++ q ++ str "&first="
            ++ str_of_int (10 * (n - 1) + 1)
            ++ filters_of unix_day (time_range params)
       /\ parse_qs (urlparse_query (url params')) !! str "first"
          = Some [str_of_int (10 * (n - 1) + 1)].
Proof.
  intros Hn Hpage Hq.
  assert (Hoff : _page_offset n = 10 * (n - 1) + 1) by (unfold _page_offset; lia).
  split; [exact Hoff|]. split; [reflexivity|]. split; [reflexivity|].
  eexists. split; [apply (request_ok _ _ _ _ _ _ _ q Hq)|].
  cbn [url]. rewrite Hpage. change (default 1 (Some n)) with n. rewrite Hoff.
  split; [reflexivity|].
  apply request_query_first.
  - eapply quote_plus_quoted, Hq.
  - apply str_of_int_safe.
  - apply str_of_int_nonempty.
Qed.

Lemma first_parameter_is_page_offset_witness :
  exists params',
    request ascii_lower no_traits (fun _ _ => None) (fun _ _ => None) 19000 (str "a b&c")
      {| searxng_locale := str "fr"; pageno := Some 3;
         time_range := Some (str "year"); cookies := ∅; url := [] |}
    = Ok params'
    /\ url params'
       = str "https://www.bing.com/search?q=a+b%26c&first=21&filters=ex1:"
         ++ dquote ++ str "ez5_18635_19000" ++ dquote
    /\ parse_qs (urlparse_query (url params')) !! str "first" = Some [str "21"].
Proof.
  destruct (first_parameter_is_page_offset ascii_lower no_traits
              (fun _ _ => None) (fun _ _ => None)
              19000 (str "a b&c")
              {| searxng_locale := str "fr"; pageno := Some 3;
                 time_range := Some (str "year"); cookies := ∅; url := [] |}
              3 (str "a+b%26c"))
    as (_ & _ & _ & params' & Hreq & Hurl & Hfirst);
    [lia | reflexivity | reflexivity |].
  exists params'. split; [exact Hreq|]. split; [|exact Hfirst].
  rewrite Hurl. vm_compute. reflexivity.
Defined.

(** C9, as the code has it: the request sets one cookie, [_EDGE_CD], whose
    value is [m=<region>&u=<language>;] with both codes in lower case; the
    region and the language are what the trait tables give for the locale,
    and each is "en-us" when the table has no match. *)
Theorem locale_cookie
    lower traits region_of language_of unix_day query params q :
  quote_plus query = Ok q ->
  let engine_region :=
    from_option id (str "en-us")
      (region_of traits (searxng_locale params)) in
  let engine_language :=
    from_option id (str "en-us")
      (language_of traits (searxng_locale params)) in
  exists params',
    request lower traits region_of language_of unix_day query params = Ok params'
    /\ cookies params'
       = <[str "_EDGE_CD" :=
             str "m=" ++ lower engine_region ++ str "&u="
             ++ lower engine_language ++ str ";"]> (cookies params).
Proof.
  intros Hq engine_region engine_language.
  eexists. split; [apply (request_ok _ _ _ _ _ _ _ q Hq)|]. reflexivity.
Qed.

Lemma locale_cookie_witness :
  exists params',
    request ascii_lower
      {| languages := {[ str "de" := str "de" ]};
         regions := {[ str "de" := str "de-DE" ]}; all_locale := None |}
      (fun traits locale => regions traits !! locale)
      (fun traits locale => languages traits !! locale)
      19000 (str "rocq")
      {| searxng_locale := str "de"; pageno := Some 1;
         time_range := None; cookies := ∅; url := [] |}
    = Ok params'
    /\ cookies params' = {[ str "_EDGE_CD" := str "m=de-de&u=de;" ]}.
Proof.
  destruct (locale_cookie ascii_lower
              {| languages := {[ str "de" := str "de" ]};
                 regions := {[ str "de" := str "de-DE" ]}; all_locale := None |}
              (fun traits locale => regions traits !! locale)
              (fun traits locale => languages traits !! locale)
              19000 (str "rocq")
              {| searxng_locale := str "de"; pageno := Some 1;
                 time_range := None; cookies := ∅; url := [] |}
              (str "rocq") eq_refl) as (params' & Hreq & Hcookies).
  exists params'. split; [exact Hreq|]. rewrite Hcookies.
  vm_compute. reflexivity.
Defined.

(** C9 fails as stated: with no mapping for the locale the request sets a
    single cookie, and its value names "en-us" for both the region and the
    language, not region "us" and language "en". *)
Lemma one_cookie_with_en_us_defaults :
  let params := {| searxng_locale := str "xx"; pageno := Some 1;
                   time_range := None; cookies := ∅; url := [] |} in
  exists params',
    request ascii_lower no_traits (fun _ _ => None) (fun _ _ => None) 19000 (str "rocq") params
    = Ok params'
    /\ cookies params' = {[ str "_EDGE_CD" := str "m=en-us&u=en-us;" ]}
    /\ size (cookies params') = 1%nat
    /\ cookies params' !! str "_EDGE_CD" <> Some (str "m=us&u=en;").
Proof.
  eexists. split; [reflexivity|]. vm_compute.
  split; [reflexivity|]. split; [reflexivity|]. discriminate.
Qed.

(** ** The response handler *)

Lemma response_loop_app blocks1 blocks2 results :
  response_loop (blocks1 ++ blocks2) results
  = response_loop blocks1 results ≫= response_loop blocks2.
Proof.
  revert results. induction blocks1 as [|block blocks1 IH]; intros results; simpl.
  - reflexivity.
  - destruct (h2_a block) as [link|]; [|apply IH].
    destruct (href link) as [wrapped|]; [|reflexivity].
    destruct (real_url wrapped) as [url|e]; simpl; [apply IH|reflexivity].
Qed.

Lemma response_loop_extracted blocks : forall results records,
  response_loop blocks results = Ok records ->
  exists new,
    records = results ++ new
    /\ Forall2 extracted (List.filter has_title_link blocks) new.
Proof.
  induction blocks as [|block blocks IH]; intros results records H; simpl in H.
  - injection H as <-. exists []. rewrite app_nil_r. split; [reflexivity|constructor].
  - cbn [List.filter]. unfold has_title_link at 1.
    destruct (h2_a block) as [link|] eqn:Hlink.
    + destruct (href link) as [wrapped|] eqn:Hhref; [|discriminate].
      destruct (real_url wrapped) as [url|e] eqn:Hurl; simpl in H; [|discriminate].
      destruct (IH _ _ H) as (new & -> & Hnew).
      exists (WebResult url (link_text link) (first_p block) :: new).
      rewrite <- app_assoc. split; [reflexivity|].
      constructor; [|exact Hnew].
      exists link, wrapped, url. auto.
    + apply IH, H.
Qed.

Lemma response_unfold resp records :
  response_loop (b_results resp) [] = Ok records ->
  response resp =
    if guard_triggers resp then Ok []
    else Ok (records ++ [NumberOfResults (result_len_of (sb_count resp))]).
Proof. intros H. unfold response, guard_triggers. rewrite H. reflexivity. Qed.

(** *** The count *)

Lemma filter_digit_drop n s :
  existsb is_digit s = false -> List.filter is_digit (drop n s) = [].
Proof.
  revert n. induction s as [|c s IH]; intros n H.
  - destruct n; reflexivity.
  - simpl in H. apply orb_false_iff in H as [Hc Hs].
    destruct n as [|n]; simpl.
    + rewrite Hc. apply (IH 0%nat Hs).
    + apply IH, Hs.
Qed.

Lemma result_len_container_no_digit sb_count :
  existsb is_digit (concat sb_count) = false ->
  result_len_container_of sb_count = [].
Proof.
  intros H. unfold result_len_container_of, slice_from.
  destruct (contains 45 (concat sb_count)).
  - apply filter_digit_drop, H.
  - apply (filter_digit_drop 0), H.
Qed.

Lemma int_of_digits_nonneg s n :
  Forall (fun c => is_digit c = true) s -> int_of_digits s = Ok n -> 0 <= n.
Proof.
  unfold int_of_digits. destruct (int_max_str_digits <? len s); [discriminate|].
  intros Hs [= <-].
  assert (H : forall acc, 0 <= acc ->
            0 <= fold_left (fun acc c => acc * 10 + (c - 48)) s acc).
  { induction Hs as [|c s Hc Hs IH]; intros acc Hacc; simpl; [exact Hacc|].
    apply IH. unfold is_digit in Hc. lia. }
  apply H. lia.
Qed.

Lemma result_len_container_digits sb_count :
  Forall (fun c => is_digit c = true) (result_len_container_of sb_count).
Proof.
  unfold result_len_container_of. apply Forall_forall. intros c Hc.
  apply list_elem_of_In, filter_In in Hc. tauto.
Qed.

Lemma result_len_nonneg sb_count : 0 <= result_len_of sb_count.
Proof.
  unfold result_len_of, get_number_of_results.
  destruct (0 <? len (result_len_container_of sb_count)); simpl; [|lia].
  destruct (int_of_digits (result_len_container_of sb_count)) as [n|e] eqn:E;
    simpl; [|lia].
  eapply int_of_digits_nonneg, E. apply result_len_container_digits.
Qed.

(** C5: the count text "1-10 of 1,234 results" gives 1234: the part
    "1-10" is cut off, the digits of the rest are kept and read as a
    number. *)
Theorem count_of_paginated_text :
  let text := str "1-10 of 1,234 results" in
  contains 45 text = true
  /\ slice_from (find 45 text * 2 + 2) text = str " of 1,234 results"
  /\ result_len_container_of [text] = str "1234"
  /\ get_number_of_results [text] 0 = Ok 1234
  /\ result_len_of [text] = 1234
  /\ response {| b_results := [plain_block]; sb_count := [text];
                 search_params_pageno := Some 1 |}
     = Ok [plain_record; NumberOfResults 1234].
Proof. vm_compute. repeat split; reflexivity. Qed.

(** C6: for a count text without any digit the count extraction raises
    nothing and leaves the count unknown ([result_len] keeps its initial 0),
    and the records of the page are returned. *)
Theorem count_without_digits resp records :
  existsb is_digit (concat (sb_count resp)) = false ->
  response_loop (b_results resp) [] = Ok records ->
  get_number_of_results (sb_count resp) 0 = Ok 0
  /\ result_len_of (sb_count resp) = 0
  /\ response resp = Ok (records ++ [NumberOfResults 0]).
Proof.
  intros Hdigits Hloop.
  pose proof (result_len_container_no_digit _ Hdigits) as Hc.
  assert (Hget : get_number_of_results (sb_count resp) 0 = Ok 0).
  { unfold get_number_of_results. rewrite Hc. reflexivity. }
  assert (Hlen : result_len_of (sb_count resp) = 0).
  { unfold result_len_of. rewrite Hget. reflexivity. }
  repeat split; [exact Hget|exact Hlen|].
  rewrite (response_unfold resp records Hloop). unfold guard_triggers.
  rewrite Hlen. reflexivity.
Qed.

Lemma count_without_digits_witness :
  let resp := {| b_results := [plain_block]; sb_count := [str "No results found"];
                 search_params_pageno := Some 2 |} in
  get_number_of_results (sb_count resp) 0 = Ok 0
  /\ result_len_of (sb_count resp) = 0
  /\ response resp = Ok ([plain_record] ++ [NumberOfResults 0]).
Proof.
  apply (count_without_digits
           {| b_results := [plain_block]; sb_count := [str "No results found"];
              search_params_pageno := Some 2 |} [plain_record]);
    vm_compute; reflexivity.
Defined.

(** C10: when the echoed search parameters carry no page number, the guard
    is evaluated for page 0, whose offset is -9; the count is never
    negative, so the guard does not trigger and the page is returned. *)
Theorem missing_pageno_never_guards resp records :
  search_params_pageno resp = None ->
  response_loop (b_results resp) [] = Ok records ->
  _page_offset (default 0 (search_params_pageno resp)) = -9
  /\ 0 <= result_len_of (sb_count resp)
  /\ guard_triggers resp = false
  /\ response resp
     = Ok (records ++ [NumberOfResults (result_len_of (sb_count resp))]).
Proof.
  intros Hpage Hloop. pose proof (result_len_nonneg (sb_count resp)) as Hnn.
  assert (Hguard : guard_triggers resp = false).
  { unfold guard_triggers. rewrite Hpage. cbn [default].
    change (_page_offset 0) with (-9).
    apply andb_false_iff. right. apply Z.ltb_ge. lia. }
  rewrite (response_unfold resp records Hloop), Hguard, Hpage.
  split; [reflexivity|]. split; [exact Hnn|]. split; reflexivity.
Qed.

Lemma missing_pageno_never_guards_witness :
  let resp := {| b_results := [plain_block]; sb_count := [str "3 results"];
                 search_params_pageno := None |} in
  _page_offset (default 0 (search_params_pageno resp)) = -9
  /\ 0 <= result_len_of (sb_count resp)
  /\ guard_triggers resp = false
  /\ response resp
     = Ok ([plain_record] ++ [NumberOfResults (result_len_of (sb_count resp))]).
Proof.
  apply (missing_pageno_never_guards
           {| b_results := [plain_block]; sb_count := [str "3 results"];
              search_params_pageno := None |} [plain_record]);
    vm_compute; reflexivity.
Defined.

(** C2, as the code has it: the guard returns the empty list when the
    count is known and not zero and the offset of the requested page
    exceeds it; a count of 0 is how the code writes "unknown", no guard
    is applied then and the records are returned. *)
Theorem guard_on_nonzero_count resp records :
  response_loop (b_results resp) [] = Ok records ->
  let result_len := result_len_of (sb_count resp) in
  let offset := _page_offset (default 0 (search_params_pageno resp)) in
  (result_len <> 0 -> result_len < offset -> response resp = Ok [])
  /\ (result_len = 0 -> response resp = Ok (records ++ [NumberOfResults 0]))
  /\ (result_len_container_of (sb_count resp) = [] -> result_len = 0).
Proof.
  intros Hloop result_len offset.
  rewrite (response_unfold resp records Hloop). unfold guard_triggers.
  fold result_len. fold offset. repeat split.
  - intros Hne Hlt.
    destruct (Z.eqb_spec result_len 0); [contradiction|].
    destruct (Z.ltb_spec result_len offset); [reflexivity|lia].
  - intros ->. reflexivity.
  - intros Hc. unfold result_len, result_len_of, get_number_of_results.
    rewrite Hc. reflexivity.
Qed.

Lemma guard_on_nonzero_count_witness :
  let resp := {| b_results := [plain_block];
                 sb_count := [str "111-120 of 100 results"];
                 search_params_pageno := Some 12 |} in
  response_loop (b_results resp) [] = Ok [plain_record]
  /\ result_len_of (sb_count resp) = 100
  /\ _page_offset 12 = 111
  /\ response resp = Ok [].
Proof.
  split; [reflexivity|]. split; [reflexivity|]. split; [reflexivity|].
  apply (guard_on_nonzero_count
           {| b_results := [plain_block];
              sb_count := [str "111-120 of 100 results"];
              search_params_pageno := Some 12 |} [plain_record]).
  - reflexivity.
  - vm_compute. discriminate.
  - vm_compute. reflexivity.
Defined.

(** C2 fails as stated: a count element reading "0 results" is parsed (a
    digit remains and is read as 0) and the offset of page 1 exceeds it,
    yet the guard is not applied and the page is returned. *)
Lemma guard_skips_zero_count :
  let resp := {| b_results := [plain_block]; sb_count := [str "0 results"];
                 search_params_pageno := Some 1 |} in
  result_len_container_of (sb_count resp) = str "0"
  /\ get_number_of_results (sb_count resp) 7 = Ok 0
  /\ 0 < _page_offset 1
  /\ response resp = Ok [plain_record; NumberOfResults 0]
  /\ response resp <> Ok [].
Proof. vm_compute. repeat split; try reflexivity. discriminate. Qed.

(** C7, as the code has it: the records are those of the blocks with a
    title link, in block order; unless the guard triggers the count record
    is appended in every case, carrying 0 when the count is unknown; when
    the guard triggers the list is empty. *)
Theorem result_page_shape resp records :
  response_loop (b_results resp) [] = Ok records ->
  Forall2 extracted (List.filter has_title_link (b_results resp)) records
  /\ (guard_triggers resp = true -> response resp = Ok [])
  /\ (guard_triggers resp = false ->
      response resp
      = Ok (records ++ [NumberOfResults (result_len_of (sb_count resp))]))
  /\ (result_len_container_of (sb_count resp) = [] ->
      response resp = Ok (records ++ [NumberOfResults 0])).
Proof.
  intros Hloop. rewrite (response_unfold resp records Hloop).
  split; [|split; [|split]].
  - destruct (response_loop_extracted _ _ _ Hloop) as (new & -> & Hnew).
    exact Hnew.
  - intros ->. reflexivity.
  - intros ->. reflexivity.
  - intros Hc. unfold guard_triggers, result_len_of, get_number_of_results.
    rewrite Hc. reflexivity.
Qed.

Lemma result_page_shape_witness :
  let resp := {| b_results := [plain_block; {| h2_a := None; first_p := [] |};
                               plain_block];
                 sb_count := [str "About 1,234 results"];
                 search_params_pageno := Some 2 |} in
  response_loop (b_results resp) [] = Ok [plain_record; plain_record]
  /\ response resp = Ok [plain_record; plain_record; NumberOfResults 1234].
Proof.
  split; [reflexivity|].
  apply (result_page_shape
           {| b_results := [plain_block; {| h2_a := None; first_p := [] |};
                            plain_block];
              sb_count := [str "About 1,234 results"];
              search_params_pageno := Some 2 |} [plain_record; plain_record]);
    reflexivity.
Defined.

(** C7 fails as stated: with no count element in the page the total count
    is not available, and the returned list still ends with a count
    record. *)
Lemma count_record_without_count :
  let resp := {| b_results := [plain_block]; sb_count := [];
                 search_params_pageno := Some 1 |} in
  result_len_container_of (sb_count resp) = []
  /\ response resp = Ok [plain_record; NumberOfResults 0]
  /\ response resp <> Ok [plain_record].
Proof. vm_compute. repeat split; try reflexivity. discriminate. Qed.

(** C4, as the code has it: a redirect that cannot be decoded raises out of
    the loop over the blocks, so the exception of the first such block is
    the outcome of the whole handler and no record is returned. *)
Theorem decode_failure_aborts_page resp before block after link wrapped e done :
  b_results resp = before ++ block :: after ->
  response_loop before [] = Ok done ->
  h2_a block = Some link ->
  href link = Some wrapped ->
  real_url wrapped = Raise e ->
  response resp = Raise e.
Proof.
  intros Hblocks Hbefore Hlink Hhref Hurl.
  unfold response. rewrite Hblocks, response_loop_app, Hbefore.
  cbn [mbind pyresult_bind response_loop]. rewrite Hlink, Hhref, Hurl.
  reflexivity.
Qed.

Lemma decode_failure_aborts_page_witness :
  response {| b_results := [plain_block; bad_base64_block; plain_block];
              sb_count := [str "3 results"];
              search_params_pageno := Some 1 |}
  = Raise BinasciiError.
Proof.
  apply (decode_failure_aborts_page _ [plain_block] bad_base64_block [plain_block]
           {| href := Some (str "https://www.bing.com/ck/a?u=a1aHR0c");
              link_text := str "Wrapped" |}
           (str "https://www.bing.com/ck/a?u=a1aHR0c") BinasciiError [plain_record]);
    reflexivity.
Defined.

(** C4 fails as stated: a wrapper URL without a [u] parameter in the first
    block makes the handler raise [KeyError], although the second block
    alone is extracted without error. *)
Lemma sibling_records_lost :
  response {| b_results := [no_u_block; plain_block]; sb_count := [];
              search_params_pageno := Some 1 |}
  = Raise (KeyError (str "u"))
  /\ response {| b_results := [plain_block]; sb_count := [];
                 search_params_pageno := Some 1 |}
     = Ok [plain_record; NumberOfResults 0].
Proof. vm_compute. split; reflexivity. Qed.

(** ** The refresh of the trait tables *)

Section FetchTraitsFacts.

Variable language_tag_of : pystr -> pyresult pystr.
Variable region_tag_of : pystr -> pyresult pystr.


Lemma print_traits st line : engine_traits (print st line) = engine_traits st.
Proof. reflexivity. Qed.

(** One iteration keeps every mapping whose code is not empty. *)
Lemma language_step_keeps td st tag code :
  languages (engine_traits st) !! tag = Some code -> code <> [] ->
  languages (engine_traits (language_step language_tag_of td st).1) !! tag = Some code.
Proof.
  intros Htag Hne. unfold language_step.
  destruct td as [eng_lang|]; [|exact Htag].
  destruct (_ || _); [exact Htag|]. cbn zeta.
  destruct (language_tag_of (babel_lang_of eng_lang)) as [sxng_tag|e].
  - destruct (languages (engine_traits st) !! sxng_tag) as [[|c conflict']|] eqn:E.
    + cbn. rewrite lookup_insert_ne; [exact Htag|]. intros ->. congruence.
    + destruct (bool_decide _); exact Htag.
    + cbn. rewrite lookup_insert_ne; [exact Htag|]. intros ->. congruence.
  - destruct e; exact Htag.
Qed.


(** A loop keeps what each of its iterations keeps. *)
Lemma for_each_keeps (body : option pystr -> FetchState -> FetchState * completion)
    (P : FetchState -> Prop) :
  (forall td st, P st -> P (body td st).1) ->
  forall tds st, P st -> P (for_each body tds st).1.
Proof.
  intros Hbody. induction tds as [|td tds IH]; intros st Hst; simpl; [exact Hst|].
  specialize (Hbody td st Hst).
  destruct (body td st) as [st' [|e]]; [apply IH|]; exact Hbody.
Qed.






Lemma region_step_languages td st :
  languages (engine_traits (region_step region_tag_of td st).1) = languages (engine_traits st).
Proof.
  unfold region_step.
  destruct td as [eng_region|]; [|reflexivity]. cbn zeta.
  destruct (bool_decide _); [reflexivity|].
  destruct (region_tag_of (babel_region_of eng_region)) as [sxng_tag|e].
  - destruct (regions (engine_traits st) !! sxng_tag) as [[|c conflict']|];
      try reflexivity.
    destruct (bool_decide _); reflexivity.
  - destruct e; reflexivity.
Qed.

Lemma language_step_regions td st :
  regions (engine_traits (language_step language_tag_of td st).1) = regions (engine_traits st).
Proof.
  unfold language_step.
  destruct td as [eng_lang|]; [|reflexivity].
  destruct (_ || _); [reflexivity|]. cbn zeta.
  destruct (language_tag_of (babel_lang_of eng_lang)) as [sxng_tag|e].
  - destruct (languages (engine_traits st) !! sxng_tag) as [[|c conflict']|];
      try reflexivity.
    destruct (bool_decide _); reflexivity.
  - destruct e; reflexivity.
Qed.






End FetchTraitsFacts.


(* ================================================================== *)
(** * Further properties *)

(** ** Further properties: the request *)

Lemma utf8_encode_char_scalar c :
  is_scalar c = true <-> exists b, utf8_encode_char c = Some b.
Proof.
  unfold is_scalar, utf8_encode_char. split.
  - rewrite !andb_true_iff, negb_true_iff, andb_false_iff.
    intros H. decide_tests; cbn [andb]; eauto; lia.
  - intros [b H]. revert H. decide_tests; cbn [andb negb]; try discriminate; auto.
Qed.

Lemma utf8_encode_scalar s :
  forallb is_scalar s = true <-> exists b, utf8_encode s = Some b.
Proof.
  induction s as [|c s IH]; simpl.
  - split; eauto.
  - rewrite andb_true_iff, IH, utf8_encode_char_scalar. split.
    + intros [[bc ->] [bs ->]]. eauto.
    + intros [b H]. destruct (utf8_encode_char c); [|discriminate].
      destruct (utf8_encode s); [|discriminate]. eauto.
Qed.

Lemma quote_plus_raises s e :
  quote_plus s = Raise e -> e = UnicodeEncodeError /\ utf8_encode s = None.
Proof.
  unfold quote_plus. destruct (utf8_encode s); [discriminate|].
  intros [= <-]. auto.
Qed.

Section RequestMore.

Variable lower : pystr -> pystr.
Variable traits : EngineTraits.
Variable region_of language_of : EngineTraits -> pystr -> option pystr.
Variable unix_day : Z.

Lemma request_raise query params :
  utf8_encode query = None ->
  request lower traits region_of language_of unix_day query params
  = Raise UnicodeEncodeError.
Proof.
  intros H. unfold request, urlencode. cbn [mapM fst snd].
  change (quote_plus (str "q")) with (Ok (str "q")).
  replace (quote_plus query) with (@Raise pystr UnicodeEncodeError)
    by (unfold quote_plus; rewrite H; reflexivity).
  reflexivity.
Qed.

(** X1: The request is built for every query text that has a UTF-8 encoding,
    and for no other: a text with a lone surrogate makes [urlencode] raise
    [UnicodeEncodeError], the only exception [request] raises. *)
Theorem request_raises_iff_not_encodable query params :
  (forallb is_scalar query = true <->
   exists params',
     request lower traits region_of language_of unix_day query params = Ok params')
  /\ (forallb is_scalar query = false <->
      request lower traits region_of language_of unix_day query params
      = Raise UnicodeEncodeError)
  /\ (forall e,
        request lower traits region_of language_of unix_day query params = Raise e ->
        e = UnicodeEncodeError).
Proof.
  destruct (utf8_encode query) as [b|] eqn:Hb.
  - assert (Hs : forallb is_scalar query = true) by (apply utf8_encode_scalar; eauto).
    assert (Hq : quote_plus query = Ok (concat (map quote_plus_byte b)))
      by (unfold quote_plus; rewrite Hb; reflexivity).
    rewrite (request_ok lower traits region_of language_of unix_day _ params _ Hq).
    rewrite Hs. repeat split; eauto; discriminate.
  - assert (Hs : forallb is_scalar query = false).
    { apply not_true_iff_false. intros H. apply utf8_encode_scalar in H as [b' H].
      congruence. }
    rewrite (request_raise query params Hb), Hs.
    repeat split; try discriminate; auto.
    + intros [? ?]. discriminate.
    + intros e [= <-]. reflexivity.
Qed.

(** X2: [request] writes the cookie [_EDGE_CD] and the URL and nothing else:
    the other cookies and the other entries of [params] are those it was
    given. *)
Theorem request_keeps_other_entries query params params' :
  request lower traits region_of language_of unix_day query params = Ok params' ->
  searxng_locale params' = searxng_locale params
  /\ pageno params' = pageno params
  /\ time_range params' = time_range params
  /\ (forall name, name <> str "_EDGE_CD" ->
        cookies params' !! name = cookies params !! name)
  /\ is_Some (cookies params' !! str "_EDGE_CD").
Proof.
  intros H. destruct (quote_plus query) as [q|e] eqn:Hq.
  - rewrite (request_ok lower traits region_of language_of unix_day _ params _ Hq) in H.
    injection H as <-. cbn. repeat split.
    + intros name Hne. apply lookup_insert_ne. congruence.
    + rewrite lookup_insert_eq. eauto.
  - apply quote_plus_raises in Hq as [_ Hq].
    rewrite (request_raise query params Hq) in H. discriminate.
Qed.

End RequestMore.

(** ** Further properties: quoting and unquoting *)

Lemma hexval_hexdigit n : 0 <= n < 16 -> hexval (hexdigit n) = Some n.
Proof.
  intros Hn. apply (bool_decide_eq_true_1 _). revert n Hn.
  apply (forall_below (fun n => bool_decide (hexval (hexdigit n) = Some n)) 16).
  reflexivity.
Qed.

Lemma hexdigit_not_plus n : 0 <= n < 16 -> (hexdigit n =? 43) = false.
Proof.
  intros Hn. apply negb_true_iff. revert n Hn.
  apply (forall_below (fun n => negb (hexdigit n =? 43)) 16). reflexivity.
Qed.

Lemma always_safe_not c x :
  always_safe c = true -> In x [37; 43; 32] -> (c =? x) = false.
Proof.
  unfold always_safe, is_upper, is_lower, is_digit.
  rewrite !orb_true_iff, !andb_true_iff. simpl.
  intros Hc Hx. apply Z.eqb_neq. lia.
Qed.

(** Percent-decoding undoes the quoting of a byte string. *)
Lemma unquote_to_bytes_quote b :
  Forall is_byte b ->
  unquote_to_bytes (replace_char 43 32 (concat (map quote_plus_byte b))) = b.
Proof.
  intros Hb. induction Hb as [|c b Hc Hb IH]; [reflexivity|].
  cbn [map concat]. unfold replace_char in *. rewrite map_app.
  unfold quote_plus_byte at 1. unfold is_byte in Hc.
  destruct (always_safe c) eqn:Hsafe.
  - cbn [map app]. rewrite (always_safe_not c 43 Hsafe) by (simpl; tauto).
    cbn [unquote_to_bytes]. rewrite (always_safe_not c 37 Hsafe) by (simpl; tauto).
    rewrite IH. reflexivity.
  - destruct (Z.eqb_spec c 32) as [-> | Hsp].
    + cbn [map app Z.eqb Pos.eqb unquote_to_bytes]. rewrite IH. reflexivity.
    + cbn [map app]. change (37 =? 43) with false. cbn iota.
      rewrite !hexdigit_not_plus by lia.
      cbn [unquote_to_bytes]. change (37 =? 37) with true. cbn iota.
      rewrite !hexval_hexdigit by lia. rewrite IH. f_equal. lia.
Qed.

Lemma unquote_to_bytes_no_percent s :
  contains 37 s = false -> unquote_to_bytes s = s.
Proof.
  unfold contains. induction s as [|c s IH]; [reflexivity|].
  cbn [existsb]. rewrite orb_false_iff. intros [Hc Hs].
  cbn [unquote_to_bytes]. rewrite Z.eqb_sym, Hc, (IH Hs). reflexivity.
Qed.

Lemma utf8_decode_ascii errors s :
  Forall (fun c => c < 128) s -> utf8_decode errors s = Ok s.
Proof.
  intros Hs. induction Hs as [|c s Hc Hs IH]; [reflexivity|].
  cbn [utf8_decode]. destruct (Z.ltb_spec c 0x80); [|lia].
  rewrite IH. reflexivity.
Qed.

Lemma unquote_runs_ascii s : forall run,
  Forall (fun c => c < 128) s ->
  unquote_runs run s = decode_replace (unquote_to_bytes (run ++ s)).
Proof.
  induction s as [|c s IH]; intros run Hs.
  - rewrite app_nil_r. reflexivity.
  - apply Forall_cons in Hs as [Hc Hs]. cbn [unquote_runs].
    destruct (Z.ltb_spec c 128); [|lia].
    rewrite (IH _ Hs), <- app_assoc. reflexivity.
Qed.

Lemma unquote_ascii s :
  Forall (fun c => c < 128) s ->
  unquote s = decode_replace (unquote_to_bytes s).
Proof.
  intros Hs. unfold unquote. destruct (contains 37 s) eqn:Hp; cbn [negb].
  - apply (unquote_runs_ascii s [] Hs).
  - rewrite (unquote_to_bytes_no_percent s Hp). unfold decode_replace.
    rewrite (utf8_decode_ascii _ _ Hs). reflexivity.
Qed.

Lemma quoted_replaced_ascii q :
  Forall (fun c => quoted_char c = true) q ->
  Forall (fun c => c < 128) (replace_char 43 32 q).
Proof.
  intros Hq. unfold replace_char. apply Forall_map.
  eapply Forall_impl; [exact Hq|]. intros c Hc. cbn beta.
  destruct (c =? 43); [lia|].
  unfold quoted_char, always_safe, is_upper, is_lower, is_digit in Hc.
  rewrite !orb_true_iff, !andb_true_iff in Hc. lia.
Qed.

(** The round trip of a form value: what [parse_qs] does to a value
    ([+] to space, then [unquote]) undoes [quote_plus]. *)
Lemma unquote_quote_plus s q :
  quote_plus s = Ok q -> unquote (replace_char 43 32 q) = s.
Proof.
  intros Hq. pose proof (quote_plus_quoted s q Hq) as Hquoted.
  rewrite (unquote_ascii _ (quoted_replaced_ascii q Hquoted)).
  unfold quote_plus in Hq. destruct (utf8_encode s) as [b|] eqn:Hb; [|discriminate].
  injection Hq as <-.
  rewrite (unquote_to_bytes_quote b (utf8_encode_bytes s b Hb)).
  unfold decode_replace. rewrite (utf8_decode_encode Replace s b Hb). reflexivity.
Qed.

Lemma quote_plus_empty s q :
  quote_plus s = Ok q -> is_empty q = is_empty s.
Proof.
  unfold quote_plus. destruct s as [|c s]; [intros [= <-]; reflexivity|].
  cbn [utf8_encode]. destruct (utf8_encode_char c) as [bc|] eqn:Hc; [|discriminate].
  destruct (utf8_encode s) as [bs|]; [|discriminate]. intros [= <-].
  assert (Hbc : exists b0 bc', bc = b0 :: bc').
  { unfold utf8_encode_char in Hc. revert Hc.
    repeat match goal with |- context [if ?b then _ else _] => destruct b end;
      try discriminate; intros [= <-]; eauto. }
  destruct Hbc as (b0 & bc' & ->). cbn [app map concat is_empty].
  unfold quote_plus_byte.
  repeat match goal with |- context [if ?b then _ else _] => destruct b end;
    reflexivity.
Qed.

Lemma q_field_parsed query q :
  quote_plus query = Ok q ->
  parse_qsl (str "q=" ++ q) = if is_empty query then [] else [(str "q", query)].
Proof.
  intros Hq. pose proof (quote_plus_quoted query q Hq) as Hquoted.
  rewrite parse_qsl_field_only.
  - unfold parse_qsl_field.
    change (partition 61 (str "q=" ++ q)) with (str "q", true, q).
    change (is_empty (str "q=" ++ q)) with false. cbn iota.
    rewrite (quote_plus_empty query q Hq).
    destruct (is_empty query); [reflexivity|].
    rewrite (unquote_quote_plus query q Hq). reflexivity.
  - change (contains 38 (113 :: 61 :: q) = false). unfold contains. cbn [existsb].
    apply (quoted_contains 38 q Hquoted). simpl; tauto.
Qed.

Lemma filters_field_parsed code :
  Forall (fun c => always_safe c = true) code ->
  parse_qsl (str "filters=ex1:" ++ dquote ++ str "ez" ++ code ++ dquote)
  = [(str "filters", str "ex1:" ++ dquote ++ str "ez" ++ code ++ dquote)].
Proof.
  intros Hcode.
  apply (parse_qsl_plain_field (str "filters")
           (str "ex1:" ++ dquote ++ str "ez" ++ code ++ dquote)).
  - apply (bool_decide_unpack _). vm_compute. exact I.
  - apply Forall_app. split; [apply (bool_decide_unpack _); vm_compute; exact I|].
    apply Forall_app. split; [apply (bool_decide_unpack _); vm_compute; exact I|].
    apply Forall_app. split; [apply (bool_decide_unpack _); vm_compute; exact I|].
    apply Forall_app. split; [|apply (bool_decide_unpack _); vm_compute; exact I].
    eapply Forall_impl; [exact Hcode|]. apply always_safe_plain.
  - discriminate.
Qed.

Section RequestParsesBack.

Variable lower : pystr -> pystr.
Variable traits : EngineTraits.
Variable region_of language_of : EngineTraits -> pystr -> option pystr.
Variable unix_day : Z.

(** X3: Parsing the query of the request URL gives back what the request was
    built from: the query text, the offset of the page, and the filter of
    the time range, in this order and nothing else. *)
Theorem request_url_parses_back query params params' :
  request lower traits region_of language_of unix_day query params = Ok params' ->
  parse_qsl (urlparse_query (url params'))
  = request_fields query (_page_offset (default 1 (pageno params)))
      (time_range params ≫= (time_ranges unix_day !!.)).
Proof.
  intros H. destruct (quote_plus query) as [q|e] eqn:Hq.
  2:{ apply quote_plus_raises in Hq as [_ Hq].
      rewrite (request_raise lower traits region_of language_of unix_day
                 query params Hq) in H. discriminate. }
  set (d := str_of_int (_page_offset (default 1 (pageno params)))).
  assert (Hurl : url params'
                 = base_url ++ str "?q=" ++ q ++ str "&first=" ++ d
                   ++ filters_of unix_day (time_range params)).
  { rewrite (request_ok lower traits region_of language_of unix_day _ params _ Hq)
      in H.
    injection H as <-. reflexivity. }
  rewrite Hurl. clear H Hurl.
  pose proof (quote_plus_quoted query q Hq) as Hquoted.
  assert (Hdp : Forall (fun c => plain c = true) d).
  { eapply Forall_impl; [apply str_of_int_safe|]. apply always_safe_plain. }
  assert (Hfirst : parse_qsl (str "first=" ++ d) = [(str "first", d)]).
  { apply (parse_qsl_plain_field (str "first") d);
      [|exact Hdp|apply str_of_int_nonempty].
    apply (bool_decide_unpack _). vm_compute. exact I. }
  unfold request_fields, filters_of.
  destruct (time_range params ≫= (time_ranges unix_day !!.)) as [code|] eqn:E.
  - assert (Hcode : Forall (fun c => always_safe c = true) code).
    { destruct (time_range params) as [tr|]; [|discriminate].
      eapply time_ranges_safe, E. }
    set (field := str "filters=ex1:" ++ dquote ++ str "ez" ++ code ++ dquote).
    change (base_url ++ str "?q=" ++ q ++ str "&first=" ++ d
            ++ str "&filters=ex1:" ++ dquote ++ str "ez" ++ code ++ dquote)
      with (base_url ++ 63 :: ((str "q=" ++ q) ++ 38 :: str "first=" ++ d
                               ++ 38 :: field)).
    rewrite urlparse_query_base.
    2:{ apply Forall_app. split.
        - constructor; [reflexivity|]. constructor; [reflexivity|].
          apply quoted_query_char, Hquoted.
        - constructor; [reflexivity|]. apply Forall_app. split.
          + apply (bool_decide_unpack _). vm_compute. exact I.
          + apply Forall_app. split.
            * eapply Forall_impl; [exact Hdp|]. apply plain_query_char.
            * constructor; [reflexivity|]. unfold field.
              repeat (apply Forall_app; split);
                try (apply (bool_decide_unpack _); vm_compute; exact I).
              apply quoted_query_char.
              eapply Forall_impl; [exact Hcode|]. apply always_safe_quoted. }
    rewrite parse_qsl_app, app_assoc, parse_qsl_app, Hfirst.
    unfold field. rewrite (filters_field_parsed code Hcode).
    rewrite (q_field_parsed query q Hq). reflexivity.
  - change (base_url ++ str "?q=" ++ q ++ str "&first=" ++ d ++ [])
      with (base_url ++ 63 :: ((str "q=" ++ q) ++ 38 :: str "first=" ++ d ++ [])).
    rewrite app_nil_r, urlparse_query_base.
    2:{ apply Forall_app. split.
        - constructor; [reflexivity|]. constructor; [reflexivity|].
          apply quoted_query_char, Hquoted.
        - constructor; [reflexivity|]. apply Forall_app. split.
          + apply (bool_decide_unpack _). vm_compute. exact I.
          + eapply Forall_impl; [exact Hdp|]. apply plain_query_char. }
    rewrite parse_qsl_app, Hfirst, (q_field_parsed query q Hq).
    rewrite app_nil_r. reflexivity.
Qed.

End RequestParsesBack.

Lemma request_url_parses_back_witness :
  exists params',
    request ascii_lower no_traits (fun _ _ => None) (fun _ _ => None) 19000
      (str "caf" ++ [233] ++ str " & 100%")
      {| searxng_locale := str "fr"; pageno := Some 2;
         time_range := Some (str "week"); cookies := ∅; url := [] |}
    = Ok params'
    /\ parse_qsl (urlparse_query (url params'))
       = [(str "q", str "caf" ++ [233] ++ str " & 100%");
          (str "first", str "11");
          (str "filters", str "ex1:" ++ dquote ++ str "ez2" ++ dquote)].
Proof.
  eexists. split; [reflexivity|].
  rewrite (request_url_parses_back ascii_lower no_traits (fun _ _ => None)
             (fun _ _ => None) 19000 (str "caf" ++ [233] ++ str " & 100%")
             {| searxng_locale := str "fr"; pageno := Some 2;
                time_range := Some (str "week"); cookies := ∅; url := [] |}
             _ eq_refl).
  vm_compute. reflexivity.
Defined.

(** ** Further properties: the response handler *)

Lemma response_loop_unwrapped blocks : forall results,
  Forall unwrapped blocks ->
  response_loop blocks results = Ok (results ++ omap unwrapped_record blocks).
Proof.
  induction blocks as [|block blocks IH]; intros results Hb.
  - cbn. rewrite app_nil_r. reflexivity.
  - apply Forall_cons in Hb as [Hblock Hb]. cbn [response_loop].
    replace (omap unwrapped_record (block :: blocks))
      with (match unwrapped_record block with
            | Some record => record :: omap unwrapped_record blocks
            | None => omap unwrapped_record blocks
            end) by reflexivity.
    unfold unwrapped_record at 1. unfold unwrapped in Hblock.
    destruct (h2_a block) as [link|]; cbn [mbind option_bind]; [|apply IH, Hb].
    destruct (Hblock link eq_refl) as (url & Hhref & Hstart).
    rewrite Hhref. cbn [mbind option_bind]. unfold real_url. rewrite Hstart.
    cbn [mbind pyresult_bind]. rewrite (IH _ Hb), <- app_assoc. reflexivity.
Qed.

(** X5: A title link without an [href] attribute makes the handler raise
    [AttributeError] ([None] has no [startswith]); the records of the other
    blocks are lost with it. *)
Theorem missing_href_aborts_page resp before block after link done :
  b_results resp = before ++ block :: after ->
  response_loop before [] = Ok done ->
  h2_a block = Some link ->
  href link = None ->
  response resp = Raise AttributeError.
Proof.
  intros Hblocks Hbefore Hlink Hhref.
  unfold response. rewrite Hblocks, response_loop_app, Hbefore.
  cbn [mbind pyresult_bind response_loop]. rewrite Hlink, Hhref. reflexivity.
Qed.

Lemma missing_href_aborts_page_witness :
  response {| b_results := [plain_block;
                            {| h2_a := Some {| href := None; link_text := str "x" |};
                               first_p := [] |};
                            plain_block];
              sb_count := []; search_params_pageno := Some 1 |}
  = Raise AttributeError.
Proof.
  apply (missing_href_aborts_page _ [plain_block]
           {| h2_a := Some {| href := None; link_text := str "x" |}; first_p := [] |}
           [plain_block] {| href := None; link_text := str "x" |} [plain_record]);
    reflexivity.
Defined.

(** The handler raises exactly when the loop over the result blocks does,
    with the same exception: the count extraction raises nothing. *)
Lemma response_raises_from_loop resp e :
  response resp = Raise e <-> response_loop (b_results resp) [] = Raise e.
Proof.
  unfold response.
  destruct (response_loop (b_results resp) []) as [records|e']; cbn [mbind pyresult_bind].
  - destruct (_ && _); split; discriminate.
  - reflexivity.
Qed.

(** X8: The first page is never discarded, whatever count the page shows. *)
Theorem first_page_never_discarded resp records n :
  search_params_pageno resp = Some n -> n <= 1 ->
  response_loop (b_results resp) [] = Ok records ->
  response resp
  = Ok (records ++ [NumberOfResults (result_len_of (sb_count resp))]).
Proof.
  intros Hpage Hn Hloop. rewrite (response_unfold resp records Hloop).
  unfold guard_triggers. rewrite Hpage. change (default 0 (Some n)) with n.
  pose proof (result_len_nonneg (sb_count resp)) as Hnn.
  destruct (Z.eqb_spec (result_len_of (sb_count resp)) 0); [reflexivity|].
  destruct (Z.ltb_spec (result_len_of (sb_count resp)) (_page_offset n));
    [|reflexivity].
  unfold _page_offset in *. lia.
Qed.

Lemma first_page_never_discarded_witness :
  response {| b_results := [plain_block]; sb_count := [str "1 result"];
              search_params_pageno := Some 1 |}
  = Ok ([plain_record] ++ [NumberOfResults 1]).
Proof.
  apply (first_page_never_discarded
           {| b_results := [plain_block]; sb_count := [str "1 result"];
              search_params_pageno := Some 1 |} [plain_record] 1);
    [reflexivity | lia | reflexivity].
Defined.

(** X9: With the same document, a page the guard discards is followed by
    discarded pages only, and a page it returns is preceded by returned
    pages only. *)
Theorem guard_is_monotone resp n m :
  n <= m ->
  response (at_page resp n) = Ok [] -> response (at_page resp m) = Ok [].
Proof.
  intros Hnm. unfold response, at_page. cbn.
  destruct (response_loop (b_results resp) []) as [records|e];
    cbn [mbind pyresult_bind]; [|discriminate].
  destruct (Z.eqb_spec (result_len_of (sb_count resp)) 0) as [H0 | H0];
    cbn [negb andb].
  { intros [= H]. destruct records; discriminate. }
  destruct (Z.ltb_spec (result_len_of (sb_count resp)) (_page_offset n))
    as [Hlt | Hge].
  - intros _. unfold _page_offset in *.
    destruct (Z.ltb_spec (result_len_of (sb_count resp)) ((m - 1) * 10 + 1));
      [reflexivity|lia].
  - intros [= H]. destruct records; discriminate.
Qed.

Lemma guard_is_monotone_witness :
  let resp := {| b_results := [plain_block]; sb_count := [str "25 results"];
                 search_params_pageno := None |} in
  response (at_page resp 3) = Ok [plain_record; NumberOfResults 25]
  /\ response (at_page resp 4) = Ok []
  /\ response (at_page resp 9) = Ok [].
Proof.
  split; [reflexivity|]. split; [reflexivity|].
  apply (guard_is_monotone
           {| b_results := [plain_block]; sb_count := [str "25 results"];
              search_params_pageno := None |} 4 9); [lia|reflexivity].
Defined.

(** *** The count: what the [try] statement absorbs *)

(** X10: A count text with more digits than [int] accepts leaves the count
    unknown: [int] raises [ValueError], the only exception of the [try]
    block, and the handler of the block absorbs it. *)
Theorem count_too_long_is_unknown sb_count :
  (int_max_str_digits < len (result_len_container_of sb_count) ->
   get_number_of_results sb_count 0 = Raise ValueError
   /\ result_len_of sb_count = 0)
  /\ (forall result_len e,
        get_number_of_results sb_count result_len = Raise e ->
        e = ValueError
        /\ int_max_str_digits < len (result_len_container_of sb_count)).
Proof.
  unfold result_len_of, get_number_of_results, int_of_digits. split.
  - intros Hlong.
    destruct (Z.ltb_spec 0 (len (result_len_container_of sb_count)));
      [|unfold int_max_str_digits in Hlong; lia].
    destruct (Z.ltb_spec int_max_str_digits (len (result_len_container_of sb_count)));
      [|lia].
    split; reflexivity.
  - intros result_len e.
    destruct (0 <? len (result_len_container_of sb_count)); [|discriminate].
    destruct (Z.ltb_spec int_max_str_digits (len (result_len_container_of sb_count)));
      [|discriminate].
    intros [= <-]. auto.
Qed.

Lemma count_too_long_is_unknown_witness :
  get_number_of_results [str "About "; replicate 4301 57; str " results"] 0
  = Raise ValueError
  /\ result_len_of [str "About "; replicate 4301 57; str " results"] = 0.
Proof.
  apply (proj1 (count_too_long_is_unknown
                  [str "About "; replicate 4301 57; str " results"])).
  vm_compute. reflexivity.
Defined.

(** X11: The removal of the part "from-to" cuts twice the position of the first
    dash, plus two: when the first dash stands that far to the right that
    nothing is left, the count is lost. *)
Theorem late_dash_loses_count sb_count :
  contains 45 (concat sb_count) = true ->
  len (concat sb_count) <= find 45 (concat sb_count) * 2 + 2 ->
  result_len_container_of sb_count = [] /\ result_len_of sb_count = 0.
Proof.
  intros Hdash Hlate.
  assert (Hc : result_len_container_of sb_count = []).
  { unfold result_len_container_of. rewrite Hdash. unfold slice_from.
    rewrite drop_ge; [reflexivity|]. unfold len in Hlate. lia. }
  split; [exact Hc|].
  unfold result_len_of, get_number_of_results. rewrite Hc. reflexivity.
Qed.

Lemma late_dash_loses_count_witness :
  result_len_container_of [str "About 1,234 results - page 2"] = []
  /\ result_len_of [str "About 1,234 results - page 2"] = 0.
Proof.
  apply (late_dash_loses_count [str "About 1,234 results - page 2"]);
    vm_compute; [reflexivity|discriminate].
Defined.

(** *** The exceptions of [real_url] *)

Lemma a2b_base64_loop_raises data : forall quad_pos leftchar pads e,
  a2b_base64_loop quad_pos leftchar pads data = Raise e -> e = BinasciiError.
Proof.
  induction data as [|this_ch rest IH]; intros quad_pos leftchar pads e;
    cbn [a2b_base64_loop].
  - destruct (quad_pos =? 0); [discriminate|]. intros [= <-]. reflexivity.
  - repeat match goal with
           | |- context [if ?b then _ else _] => destruct b
           | |- context [match table_a2b_base64 ?c with _ => _ end] =>
               destruct (table_a2b_base64 c)
           end;
      try discriminate; try apply IH.
    all: match goal with
         | |- cons _ <$> ?m = _ -> _ =>
             destruct m eqn:E; cbn [fmap pyresult_fmap]; [discriminate|];
             intros [= <-]; eapply IH, E
         end.
Qed.

Lemma urlsafe_b64decode_raises s e :
  urlsafe_b64decode s = Raise e -> e = ValueError \/ e = BinasciiError.
Proof.
  unfold urlsafe_b64decode, _bytes_from_decode_data.
  destruct (forallb _ s); cbn [mbind pyresult_bind].
  - intros H. right. eapply a2b_base64_loop_raises, H.
  - intros [= <-]. left. reflexivity.
Qed.

Lemma utf8_decode_strict_raises_aux n : forall s e,
  (length s <= n)%nat -> utf8_decode Strict s = Raise e -> e = UnicodeDecodeError.
Proof.
  induction n as [|n IH]; intros s e Hlen.
  - destruct s; [discriminate|simpl in Hlen; lia].
  - destruct s as [|ch s1]; [discriminate|]. cbn [utf8_decode]. cbn [length] in Hlen.
    repeat match goal with
           | |- context [if ?b then _ else _] => destruct b
           | |- context [match ?l with [] => _ | _ :: _ => _ end] =>
               is_var l; destruct l; cbn [length] in Hlen
           end;
      cbn [decode_error];
      try (intros [= <-]; reflexivity).
    all: match goal with
         | |- cons _ <$> ?m = _ -> _ =>
             destruct m eqn:E; cbn [fmap pyresult_fmap]; [discriminate|];
             intros [= <-]; eapply (IH _ _ _ E)
         end.
    Unshelve. all: cbn [length]; lia.
Qed.

Lemma bytes_decode_raises b e :
  bytes_decode b = Raise e -> e = UnicodeDecodeError.
Proof. apply (utf8_decode_strict_raises_aux (length b)). lia. Qed.

Lemma parse_qs_values_nonempty qs k : parse_qs qs !! k <> Some [].
Proof.
  rewrite parse_qs_lookup. destruct (values_of k (parse_qsl qs)); discriminate.
Qed.

(** What the two decoders raise. *)
Lemma decoders_raise encoded_url e :
  urlsafe_b64decode encoded_url ≫= (fun b => bytes_decode b) = Raise e ->
  e = ValueError \/ e = BinasciiError \/ e = UnicodeDecodeError.
Proof.
  destruct (urlsafe_b64decode _) as [b|e'] eqn:E; cbn [mbind pyresult_bind].
  - intros H. apply bytes_decode_raises in H. auto.
  - intros [= <-]. apply urlsafe_b64decode_raises in E. tauto.
Qed.

Lemma real_url_raises url e :
  real_url url = Raise e ->
  e = KeyError (str "u") \/ e = ValueError \/ e = BinasciiError
  \/ e = UnicodeDecodeError.
Proof.
  unfold real_url. destruct (startswith ck_prefix url); [|discriminate].
  pose proof (parse_qs_values_nonempty (urlparse_query url) (str "u")) as Hne.
  destruct (parse_qs (urlparse_query url) !! str "u") as [[|param_u values]|].
  - contradiction.
  - intros H. right. apply decoders_raise in H. exact H.
  - intros [= <-]. auto.
Qed.

(** X12: [real_url] never raises [IndexError]: [parse_qs] keeps a name only with
    at least one value.  It raises [KeyError] exactly for a wrapper URL
    whose query has no field [u] with a value, and otherwise only what the
    two decoders raise: [ValueError] for a non-ASCII character in the
    value, [binascii.Error] and [UnicodeDecodeError]. *)
Theorem real_url_exceptions url :
  (forall e, real_url url = Raise e ->
     startswith ck_prefix url = true
     /\ (e = KeyError (str "u") \/ e = ValueError \/ e = BinasciiError
         \/ e = UnicodeDecodeError))
  /\ (real_url url = Raise (KeyError (str "u")) <->
      startswith ck_prefix url = true
      /\ values_of (str "u") (parse_qsl (urlparse_query url)) = []).
Proof.
  unfold real_url. destruct (startswith ck_prefix url).
  2:{ split; [discriminate|]. split; [discriminate|]. intros [? _]. discriminate. }
  pose proof (parse_qs_values_nonempty (urlparse_query url) (str "u")) as Hne.
  rewrite parse_qs_lookup in *.
  destruct (values_of (str "u") (parse_qsl (urlparse_query url)))
    as [|param_u values].
  - split; [intros e [= <-]; auto|]. split; auto.
  - assert (Hdec : forall e,
              urlsafe_b64decode
                (slice_from 2 param_u
                 ++ repeat_char 61 ((- len (slice_from 2 param_u)) mod 4))
              ≫= (fun b => bytes_decode b) = Raise e ->
              e = ValueError \/ e = BinasciiError \/ e = UnicodeDecodeError).
    { intros e. destruct (urlsafe_b64decode _) as [b|e'] eqn:E;
        cbn [mbind pyresult_bind].
      - intros H. apply bytes_decode_raises in H. auto.
      - intros [= <-]. apply urlsafe_b64decode_raises in E. tauto. }
    split.
    + intros e H. split; [reflexivity|]. right. apply Hdec, H.
    + split; [|intros [_ H]; discriminate].
      intros H. apply Hdec in H. destruct H as [H | [H | H]]; discriminate.
Qed.

(** *** What [real_url] decodes *)

(** The value of the field [u] is what [real_url] decodes, wherever the
    field stands among the others. *)
Lemma real_url_of_u_field pre value post :
  pre = [] \/ (exists p, pre = p ++ str "&") ->
  Forall (fun c => query_char c = true) pre ->
  Forall (fun pair => pair.1 <> str "u") (parse_qsl pre) ->
  post = [] \/ (exists p, post = str "&" ++ p) ->
  value <> [] ->
  Forall (fun c => plain c = true) value ->
  real_url (ck_prefix ++ pre ++ str "u=" ++ value ++ post)
  = urlsafe_b64decode
      (slice_from 2 value
       ++ repeat_char 61 ((- len (slice_from 2 value)) mod 4))
    ≫= bytes_decode.
Proof.
  intros Hpre Hclean Hu Hpost Hne Hval.
  unfold real_url. rewrite startswith_app.
  replace (pre ++ str "u=" ++ value ++ post)
    with ((pre ++ str "u=" ++ value) ++ post)
    by (rewrite <- !app_assoc; reflexivity).
  rewrite urlparse_query_ck.
  2:{ apply Forall_app. split; [exact Hclean|].
      apply Forall_app. split; [apply (bool_decide_unpack _); vm_compute; exact I|].
      eapply Forall_impl; [exact Hval|]. apply plain_query_char. }
  destruct (parse_qs_u_field pre value
              (before 35 (List.filter not_unsafe post))) as [vs Hlookup];
    [exact Hpre | apply tail_shape; exact Hpost | exact Hu | exact Hne | exact Hval |].
  rewrite <- !app_assoc. rewrite Hlookup. reflexivity.
Qed.

Lemma a2b_four i1 i2 i3 i4 leftchar pads rest :
  0 <= i1 < 64 -> 0 <= i2 < 64 -> 0 <= i3 < 64 -> 0 <= i4 < 64 ->
  exists b1 b2 b3,
    a2b_base64_loop 0 leftchar pads
      (_urlsafe_decode_translation (b64char i1)
       :: _urlsafe_decode_translation (b64char i2)
       :: _urlsafe_decode_translation (b64char i3)
       :: _urlsafe_decode_translation (b64char i4) :: rest)
    = cons b1 <$> (cons b2 <$> (cons b3 <$> a2b_base64_loop 0 0 0 rest)).
Proof.
  intros H1 H2 H3 H4.
  rewrite a2b_char0, a2b_char1, a2b_char2, a2b_char3 by assumption.
  eauto.
Qed.

Lemma a2b_base64_loop_one_over n : forall body,
  Forall is_b64char body -> length body = (4 * n + 1)%nat ->
  a2b_base64_loop 0 0 0 (map _urlsafe_decode_translation body ++ [61; 61; 61])
  = Raise BinasciiError.
Proof.
  induction n as [|n IH]; intros body Hbody Hlen.
  - destruct body as [|c [|c' body]]; try discriminate.
    apply Forall_cons in Hbody as [(i & Hi & ->) _].
    cbn [map app]. rewrite a2b_char0 by exact Hi. reflexivity.
  - destruct body as [|c1 [|c2 [|c3 [|c4 body]]]]; try (cbn in Hlen; lia).
    apply Forall_cons in Hbody as [(i1 & H1 & ->) Hbody].
    apply Forall_cons in Hbody as [(i2 & H2 & ->) Hbody].
    apply Forall_cons in Hbody as [(i3 & H3 & ->) Hbody].
    apply Forall_cons in Hbody as [(i4 & H4 & ->) Hbody].
    cbn [map app].
    destruct (a2b_four i1 i2 i3 i4 0 0
                (map _urlsafe_decode_translation body ++ [61; 61; 61]) H1 H2 H3 H4)
      as (b1 & b2 & b3 & ->).
    rewrite (IH body Hbody) by (cbn in Hlen; lia). reflexivity.
Qed.

(** X13: A wrapper whose base64 text has one character more than a multiple of
    four cannot be decoded, whatever the characters are: no padding
    completes it and [real_url] raises [binascii.Error]. *)
Theorem one_character_over_raises pre tag body post :
  pre = [] \/ (exists p, pre = p ++ str "&") ->
  Forall (fun c => query_char c = true) pre ->
  Forall (fun pair => pair.1 <> str "u") (parse_qsl pre) ->
  post = [] \/ (exists p, post = str "&" ++ p) ->
  length tag = 2%nat ->
  Forall (fun c => always_safe c = true) tag ->
  Forall is_b64char body ->
  (length body mod 4 = 1)%nat ->
  real_url (ck_prefix ++ pre ++ str "u=" ++ tag ++ body ++ post)
  = Raise BinasciiError.
Proof.
  intros Hpre Hclean Hu Hpost Htag Hsafe Hbody Hlen.
  assert (Hplain : Forall (fun c => plain c = true) body).
  { eapply Forall_impl; [exact Hbody|]. apply b64char_plain. }
  replace (tag ++ body ++ post) with ((tag ++ body) ++ post)
    by (rewrite <- app_assoc; reflexivity).
  rewrite real_url_of_u_field; try assumption.
  - destruct tag as [|c1 [|c2 [|c3 tag]]]; try discriminate.
    change (slice_from 2 ([c1; c2] ++ body)) with body.
    assert (Hpad : (- len body) mod 4 = 3).
    { unfold len. pose proof (Nat.div_mod_eq (length body) 4). lia. }
    rewrite Hpad. change (repeat_char 61 3) with [61; 61; 61].
    unfold urlsafe_b64decode, _bytes_from_decode_data.
    rewrite forallb_app, (plain_ascii _ Hplain).
    change (forallb (fun c => (0 <=? c) && (c <? 128)) [61; 61; 61]) with true.
    cbn [andb mbind pyresult_bind]. unfold a2b_base64.
    rewrite map_app. change (map _urlsafe_decode_translation [61; 61; 61])
      with [61; 61; 61].
    rewrite (a2b_base64_loop_one_over (length body / 4) body Hbody); [reflexivity|].
    pose proof (Nat.div_mod_eq (length body) 4). lia.
  - destruct tag; discriminate.
  - apply Forall_app. split; [|exact Hplain].
    eapply Forall_impl; [exact Hsafe|]. apply always_safe_plain.
Qed.

Lemma in_urlsafe_alphabet_b64char body :
  forallb in_urlsafe_alphabet body = true -> Forall is_b64char body.
Proof.
  intros H. apply Forall_forall. intros c Hc. apply list_elem_of_In in Hc.
  rewrite forallb_forall in H. specialize (H c Hc).
  unfold in_urlsafe_alphabet in H. apply existsb_exists in H as (x & Hx & Heq).
  apply Z.eqb_eq in Heq. subst x.
  apply (In_nth _ _ 0) in Hx as (n & Hn & Hnth).
  exists (Z.of_nat n). split.
  - change (length urlsafe_alphabet) with 64%nat in Hn. lia.
  - unfold b64char. rewrite Nat2Z.id. symmetry. exact Hnth.
Qed.

Lemma one_character_over_raises_witness :
  real_url (ck_prefix ++ str "!&&p=5d1f&" ++ str "u=" ++ str "a1"
            ++ str "aHR0cHM6L" ++ str "&ntb=1")
  = Raise BinasciiError.
Proof.
  apply one_character_over_raises.
  - right. exists (str "!&&p=5d1f"). reflexivity.
  - apply (bool_decide_unpack _). vm_compute. exact I.
  - apply (bool_decide_unpack _). vm_compute. exact I.
  - right. exists (str "ntb=1"). reflexivity.
  - reflexivity.
  - apply (bool_decide_unpack _). vm_compute. exact I.
  - apply in_urlsafe_alphabet_b64char. reflexivity.
  - reflexivity.
Defined.

(** *** What the UTF-8 decoder accepts *)

Lemma utf8_encode_char_1 ch : 0 <= ch < 0x80 -> utf8_encode_char ch = Some [ch].
Proof.
  intros H. unfold utf8_encode_char.
  destruct (Z.ltb_spec ch 0); [lia|]. destruct (Z.ltb_spec ch 0x80); [|lia].
  reflexivity.
Qed.

Lemma utf8_encode_char_of_2 ch ch2 :
  0xC2 <= ch < 0xE0 -> 0x80 <= ch2 < 0xC0 ->
  utf8_encode_char (Z.shiftl ch 6 + ch2 - (Z.shiftl 0xC0 6 + 0x80))
  = Some [ch; ch2].
Proof.
  intros H1 H2. rewrite Z.shiftl_mul_pow2 by lia.
  change (Z.shiftl 0xC0 6 + 0x80) with 12416. change (2 ^ 6) with 64.
  set (cp := ch * 64 + ch2 - 12416).
  assert (Hcp : cp = 64 * (ch - 192) + (ch2 - 128)) by (unfold cp; lia).
  rewrite utf8_encode_char_2 by lia.
  assert (cp / 64 = ch - 192) by (symmetry; apply (Z.div_unique _ _ _ (ch2 - 128)); lia).
  assert (cp mod 64 = ch2 - 128) by (symmetry; apply (Z.mod_unique _ _ (ch - 192)); lia).
  f_equal. f_equal; [lia|]. f_equal. lia.
Qed.

Lemma utf8_encode_char_of_3 ch ch2 ch3 :
  0xE0 <= ch < 0xF0 -> 0x80 <= ch2 < 0xC0 -> 0x80 <= ch3 < 0xC0 ->
  (ch = 0xE0 -> 0xA0 <= ch2) -> (ch = 0xED -> ch2 < 0xA0) ->
  utf8_encode_char (Z.shiftl ch 12 + Z.shiftl ch2 6 + ch3
                    - (Z.shiftl 0xE0 12 + Z.shiftl 0x80 6 + 0x80))
  = Some [ch; ch2; ch3].
Proof.
  intros H1 H2 H3 Hlow Hsur. rewrite !Z.shiftl_mul_pow2 by lia.
  change (224 * 2 ^ 12 + 128 * 2 ^ 6 + 128) with 925824.
  change (2 ^ 12) with 4096. change (2 ^ 6) with 64.
  set (cp := ch * 4096 + ch2 * 64 + ch3 - 925824).
  assert (Hcp : cp = 4096 * (ch - 224) + 64 * (ch2 - 128) + (ch3 - 128))
    by (unfold cp; lia).
  rewrite utf8_encode_char_3 by lia.
  assert (cp / 4096 = ch - 224)
    by (symmetry; apply (Z.div_unique _ _ _ (64 * (ch2 - 128) + (ch3 - 128))); lia).
  assert (cp / 64 = 64 * (ch - 224) + (ch2 - 128))
    by (symmetry; apply (Z.div_unique _ _ _ (ch3 - 128)); lia).
  assert (cp mod 64 = ch3 - 128)
    by (symmetry; apply (Z.mod_unique _ _ (64 * (ch - 224) + (ch2 - 128))); lia).
  assert ((cp / 64) mod 64 = ch2 - 128)
    by (symmetry; apply (Z.mod_unique _ _ (ch - 224)); lia).
  f_equal. f_equal; [lia|]. f_equal; [lia|]. f_equal. lia.
Qed.

Lemma utf8_encode_char_of_4 ch ch2 ch3 ch4 :
  0xF0 <= ch < 0xF5 -> 0x80 <= ch2 < 0xC0 -> 0x80 <= ch3 < 0xC0 ->
  0x80 <= ch4 < 0xC0 ->
  (ch = 0xF0 -> 0x90 <= ch2) -> (ch = 0xF4 -> ch2 < 0x90) ->
  utf8_encode_char (Z.shiftl ch 18 + Z.shiftl ch2 12 + Z.shiftl ch3 6 + ch4
                    - (Z.shiftl 0xF0 18 + Z.shiftl 0x80 12 + Z.shiftl 0x80 6
                       + 0x80))
  = Some [ch; ch2; ch3; ch4].
Proof.
  intros H1 H2 H3 H4 Hlow Hhigh. rewrite !Z.shiftl_mul_pow2 by lia.
  change (240 * 2 ^ 18 + 128 * 2 ^ 12 + 128 * 2 ^ 6 + 128) with 63447168.
  change (2 ^ 18) with 262144. change (2 ^ 12) with 4096. change (2 ^ 6) with 64.
  set (cp := ch * 262144 + ch2 * 4096 + ch3 * 64 + ch4 - 63447168).
  assert (Hcp : cp = 262144 * (ch - 240) + 4096 * (ch2 - 128)
                     + 64 * (ch3 - 128) + (ch4 - 128))
    by (unfold cp; lia).
  rewrite utf8_encode_char_4 by lia.
  assert (cp / 262144 = ch - 240)
    by (symmetry;
        apply (Z.div_unique _ _ _ (4096 * (ch2 - 128) + 64 * (ch3 - 128) + (ch4 - 128)));
        lia).
  assert (cp / 4096 = 64 * (ch - 240) + (ch2 - 128))
    by (symmetry; apply (Z.div_unique _ _ _ (64 * (ch3 - 128) + (ch4 - 128))); lia).
  assert (cp / 64 = 4096 * (ch - 240) + 64 * (ch2 - 128) + (ch3 - 128))
    by (symmetry; apply (Z.div_unique _ _ _ (ch4 - 128)); lia).
  assert (cp mod 64 = ch4 - 128)
    by (symmetry;
        apply (Z.mod_unique _ _ (4096 * (ch - 240) + 64 * (ch2 - 128) + (ch3 - 128)));
        lia).
  assert ((cp / 64) mod 64 = ch3 - 128)
    by (symmetry; apply (Z.mod_unique _ _ (64 * (ch - 240) + (ch2 - 128))); lia).
  assert ((cp / 4096) mod 64 = ch2 - 128)
    by (symmetry; apply (Z.mod_unique _ _ (ch - 240)); lia).
  f_equal. f_equal; [lia|]. f_equal; [lia|]. f_equal; [lia|]. f_equal. lia.
Qed.

Ltac decoded_tail IH :=
  match goal with
  | |- cons _ <$> ?m = Ok _ -> _ =>
      let s' := fresh "s'" in
      let E := fresh "E" in
      destruct m as [s'|] eqn:E; cbn [fmap pyresult_fmap]; [|discriminate];
      intros [= <-]; cbn [utf8_encode];
      apply IH in E; [rewrite E | cbn [length] in *; lia | assumption]
  end.

Lemma utf8_encode_decode_aux n : forall b s,
  (length b <= n)%nat -> Forall is_byte b ->
  utf8_decode Strict b = Ok s -> utf8_encode s = Some b.
Proof.
  induction n as [|n IH]; intros b s Hlen Hb.
  - destruct b; [intros [= <-]; reflexivity|simpl in Hlen; lia].
  - destruct b as [|ch s1]; [intros [= <-]; reflexivity|].
    apply Forall_cons in Hb as [Hch Hb1]. unfold is_byte in Hch.
    cbn [utf8_decode decode_error]. unfold is_continuation_byte.
    destruct (Z.ltb_spec ch 0x80).
    { decoded_tail IH. rewrite utf8_encode_char_1 by lia. reflexivity. }
    destruct (Z.ltb_spec ch 0xC2); [discriminate|].
    destruct s1 as [|ch2 s2].
    { repeat match goal with |- context [if ?c then _ else _] => destruct c end;
        discriminate. }
    apply Forall_cons in Hb1 as [Hch2 Hb2]. unfold is_byte in Hch2.
    destruct (Z.ltb_spec ch 0xE0).
    { destruct (Z.leb_spec 0x80 ch2), (Z.ltb_spec ch2 0xC0); cbn [negb andb];
        try discriminate.
      decoded_tail IH. rewrite utf8_encode_char_of_2 by lia. reflexivity. }
    destruct (Z.ltb_spec ch 0xF0).
    { destruct (Z.leb_spec 0x80 ch2), (Z.ltb_spec ch2 0xC0); cbn [negb andb orb];
        try discriminate.
      destruct (Z.ltb_spec ch2 0xA0), (Z.eqb_spec ch 0xE0), (Z.eqb_spec ch 0xED);
        try discriminate; try lia.
      all: destruct s2 as [|ch3 s3]; [discriminate|].
      all: apply Forall_cons in Hb2 as [Hch3 Hb3]; unfold is_byte in Hch3.
      all: destruct (Z.leb_spec 0x80 ch3), (Z.ltb_spec ch3 0xC0); cbn [negb andb];
        try discriminate.
      all: decoded_tail IH; rewrite utf8_encode_char_of_3 by lia; reflexivity. }
    destruct (Z.ltb_spec ch 0xF5); [|discriminate].
    destruct (Z.leb_spec 0x80 ch2), (Z.ltb_spec ch2 0xC0); cbn [negb andb orb];
      try discriminate.
    destruct (Z.ltb_spec ch2 0x90), (Z.eqb_spec ch 0xF0), (Z.eqb_spec ch 0xF4);
      try discriminate; try lia.
    all: destruct s2 as [|ch3 s3]; [discriminate|].
    all: apply Forall_cons in Hb2 as [Hch3 Hb3]; unfold is_byte in Hch3.
    all: destruct (Z.leb_spec 0x80 ch3), (Z.ltb_spec ch3 0xC0); cbn [negb andb];
      try discriminate.
    all: destruct s3 as [|ch4 s4]; [discriminate|].
    all: apply Forall_cons in Hb3 as [Hch4 Hb4]; unfold is_byte in Hch4.
    all: destruct (Z.leb_spec 0x80 ch4), (Z.ltb_spec ch4 0xC0); cbn [negb andb];
      try discriminate.
    all: decoded_tail IH; rewrite utf8_encode_char_of_4 by lia; reflexivity.
Qed.

(** What the strict decoder returns encodes back to the bytes it was
    given: it accepts the shortest form of a code point only, and neither
    surrogates nor values past U+10FFFF. *)
Lemma utf8_encode_decode b s :
  Forall is_byte b -> bytes_decode b = Ok s -> utf8_encode s = Some b.
Proof. apply (utf8_encode_decode_aux (length b)). lia. Qed.

Lemma table_a2b_base64_range c v : table_a2b_base64 c = Some v -> 0 <= v < 64.
Proof.
  unfold table_a2b_base64, is_upper, is_lower, is_digit.
  decide_tests; cbn [andb]; intros [= <-]; lia.
Qed.

Lemma a2b_base64_loop_bytes data : forall quad_pos leftchar pads b,
  a2b_state_ok quad_pos leftchar ->
  a2b_base64_loop quad_pos leftchar pads data = Ok b -> Forall is_byte b.
Proof.
  induction data as [|this_ch rest IH]; intros quad_pos leftchar pads b Hst;
    cbn [a2b_base64_loop].
  - destruct (quad_pos =? 0); [|discriminate]. intros [= <-]. constructor.
  - destruct (this_ch =? BASE64_PAD).
    { destruct (2 <=? quad_pos); [destruct (4 <=? quad_pos + (pads + 1))|].
      - intros [= <-]. constructor.
      - apply IH, Hst.
      - apply IH, Hst. }
    destruct (table_a2b_base64 this_ch) as [v|] eqn:Hv; [|apply IH, Hst].
    apply table_a2b_base64_range in Hv.
    assert (Hstep : forall x k q' l' b,
              0 <= x < 256 -> a2b_state_ok q' l' ->
              cons x <$> a2b_base64_loop q' l' k rest = Ok b -> Forall is_byte b).
    { intros x k q' l' b0 Hx Hst'.
      destruct (a2b_base64_loop q' l' k rest) as [b'|] eqn:E;
        cbn [fmap pyresult_fmap]; [|discriminate].
      intros [= <-]. constructor; [exact Hx|]. eapply IH, E. exact Hst'. }
    unfold a2b_state_ok in Hst.
    destruct (Z.eqb_spec quad_pos 0).
    { apply IH. unfold a2b_state_ok. right. left. lia. }
    destruct (Z.eqb_spec quad_pos 1).
    { apply Hstep.
      - rewrite Z.shiftr_div_pow2, (lor_shiftl leftchar _ 2) by lia. lia.
      - unfold a2b_state_ok. right. right. left.
        rewrite (land_low v 4 ltac:(lia) : Z.land v 0x0f = v mod 2 ^ 4). lia. }
    destruct (Z.eqb_spec quad_pos 2).
    { apply Hstep.
      - rewrite Z.shiftr_div_pow2, (lor_shiftl leftchar _ 4) by lia. lia.
      - unfold a2b_state_ok. right. right. right.
        rewrite (land_low v 2 ltac:(lia) : Z.land v 0x03 = v mod 2 ^ 2). lia. }
    apply Hstep.
    + rewrite (lor_shiftl leftchar _ 6) by lia. lia.
    + unfold a2b_state_ok. left. reflexivity.
Qed.

Lemma urlsafe_b64decode_bytes s b :
  urlsafe_b64decode s = Ok b -> Forall is_byte b.
Proof.
  unfold urlsafe_b64decode, _bytes_from_decode_data.
  destruct (forallb _ s); cbn [mbind pyresult_bind]; [|discriminate].
  apply a2b_base64_loop_bytes. left. reflexivity.
Qed.

(** X14: The destination [real_url] decodes from a wrapper is well-formed text:
    every code point of it is in the code space and none is a surrogate,
    so it has a UTF-8 encoding. *)
Theorem decoded_url_is_scalar url dest :
  startswith ck_prefix url = true ->
  real_url url = Ok dest ->
  forallb is_scalar dest = true.
Proof.
  intros Hstart. unfold real_url. rewrite Hstart.
  destruct (parse_qs (urlparse_query url) !! str "u") as [[|param_u values]|];
    try discriminate.
  destruct (urlsafe_b64decode _) as [b|] eqn:E; cbn [mbind pyresult_bind];
    [|discriminate].
  intros Hdec. apply utf8_encode_scalar. exists b.
  apply utf8_encode_decode; [|exact Hdec].
  eapply urlsafe_b64decode_bytes, E.
Qed.

Lemma decoded_url_is_scalar_witness :
  real_url (str "https://www.bing.com/ck/a?u=a1aHR0cHM6Ly9leGFtcGxlLm9yZy9jYWbDqeKCrA")
  = Ok (str "https://example.org/caf" ++ [233; 8364])
  /\ forallb is_scalar (str "https://example.org/caf" ++ [233; 8364]) = true.
Proof.
  split; [reflexivity|].
  apply (decoded_url_is_scalar
           (str "https://www.bing.com/ck/a?u=a1aHR0cHM6Ly9leGFtcGxlLm9yZy9jYWbDqeKCrA"));
    reflexivity.
Defined.

(** A surrogate written in the three-byte form (the base64 text [7aCA]
    stands for ED A0 80) is refused. *)
Example surrogate_bytes_refused :
  real_url (str "https://www.bing.com/ck/a?u=a17aCA") = Raise UnicodeDecodeError.
Proof. reflexivity. Qed.

(** ** Further properties: the refresh of the trait tables *)

Section RefreshFacts.

Variable language_tag_of : pystr -> pyresult pystr.
Variable region_tag_of : pystr -> pyresult pystr.

(** A loop keeps what the iterations on its own entries keep. *)
Lemma for_each_keeps_in (body : option pystr -> FetchState -> FetchState * completion)
    (P : FetchState -> Prop) tds :
  (forall td st, In td tds -> P st -> P (body td st).1) ->
  forall st, P st -> P (for_each body tds st).1.
Proof.
  induction tds as [|td tds IH]; intros Hbody st Hst; simpl; [exact Hst|].
  pose proof (Hbody td st (or_introl eq_refl) Hst) as Hstep.
  destruct (body td st) as [st' [|e]]; [|exact Hstep].
  apply IH; [|exact Hstep].
  intros td' st'' Hin. apply Hbody. right. exact Hin.
Qed.

(** What holds after the alias is stored and is kept by every iteration
    of both loops holds after the refresh. *)
Lemma _fetch_traits_keeps_in (P : FetchState -> Prop) traits doc :
  (forall st line, P st -> P (print st line)) ->
  (forall td st, In td (language_codes doc) -> P st ->
                 P (language_step language_tag_of td st).1) ->
  (forall td st, In td (market_codes doc) -> P st ->
                 P (region_step region_tag_of td st).1) ->
  P (set_language {| engine_traits := traits; stdout := [] |}
       (str "zh") (str "zh-hans")) ->
  P (_fetch_traits language_tag_of region_tag_of traits doc).1.
Proof.
  intros Hprint Hlang Hregion H0. unfold _fetch_traits.
  set (st0 := if ok doc then _ else _).
  assert (Hst0 : P st0).
  { unfold st0. destruct (ok doc); [exact H0|apply Hprint, H0]. }
  pose proof (for_each_keeps_in (language_step language_tag_of) P
                (language_codes doc) Hlang st0 Hst0) as H1.
  destruct (for_each (language_step language_tag_of) (language_codes doc) st0)
    as [st1 [|e]]; [|exact H1].
  apply (for_each_keeps_in (region_step region_tag_of) P); assumption.
Qed.

Lemma language_step_all_locale td st :
  all_locale (engine_traits (language_step language_tag_of td st).1)
  = all_locale (engine_traits st).
Proof.
  unfold language_step.
  destruct td as [eng_lang|]; [|reflexivity].
  destruct (_ || _); [reflexivity|]. cbn zeta.
  destruct (language_tag_of (babel_lang_of eng_lang)) as [sxng_tag|e].
  - destruct (languages (engine_traits st) !! sxng_tag) as [[|c conflict']|];
      try reflexivity.
    destruct (bool_decide _); reflexivity.
  - destruct e; reflexivity.
Qed.

(** What one iteration of the language loop can have stored. *)
Lemma language_step_stored td st tag code :
  languages (engine_traits (language_step language_tag_of td st).1) !! tag
  = Some code ->
  languages (engine_traits st) !! tag = Some code
  \/ (td = Some code /\ code <> str "en-gb" /\ code <> str "pt-br"
      /\ language_tag_of (babel_lang_of code) = Ok tag).
Proof.
  unfold language_step.
  destruct td as [eng_lang|]; [|auto].
  destruct (decide (eng_lang = str "en-gb")) as [Hgb|Hgb].
  { rewrite (bool_decide_eq_true_2 _ Hgb). auto. }
  destruct (decide (eng_lang = str "pt-br")) as [Hbr|Hbr].
  { rewrite (bool_decide_eq_true_2 _ Hbr), orb_true_r. auto. }
  rewrite (bool_decide_eq_false_2 _ Hgb), (bool_decide_eq_false_2 _ Hbr).
  cbn [orb]. cbn zeta.
  destruct (language_tag_of (babel_lang_of eng_lang)) as [sxng_tag|e] eqn:Etag.
  - assert (Hset :
      languages (engine_traits (set_language st sxng_tag eng_lang)) !! tag
      = Some code ->
      languages (engine_traits st) !! tag = Some code
      \/ (Some eng_lang = Some code /\ code <> str "en-gb"
          /\ code <> str "pt-br"
          /\ language_tag_of (babel_lang_of code) = Ok tag)).
    { cbn. destruct (decide (sxng_tag = tag)) as [->|Hne].
      - rewrite lookup_insert_eq. intros [= ->]. auto.
      - rewrite lookup_insert_ne by exact Hne. auto. }
    destruct (languages (engine_traits st) !! sxng_tag) as [[|c conflict']|];
      [exact Hset| |exact Hset].
    destruct (bool_decide _); auto.
  - destruct e; auto.
Qed.

(** What one iteration of the market loop can have stored. *)
Lemma region_step_stored td st tag code :
  regions (engine_traits (region_step region_tag_of td st).1) !! tag
  = Some code ->
  regions (engine_traits st) !! tag = Some code
  \/ (td = Some code /\ code <> str "en-WW"
      /\ region_tag_of (babel_region_of code) = Ok tag).
Proof.
  unfold region_step.
  destruct td as [eng_region|]; [|auto]. cbn zeta.
  destruct (decide (eng_region = str "en-WW")) as [Hww|Hww].
  { rewrite (bool_decide_eq_true_2 _ Hww). auto. }
  rewrite (bool_decide_eq_false_2 _ Hww).
  destruct (region_tag_of (babel_region_of eng_region)) as [sxng_tag|e] eqn:Etag.
  - assert (Hset :
      regions (engine_traits (set_region st sxng_tag eng_region)) !! tag
      = Some code ->
      regions (engine_traits st) !! tag = Some code
      \/ (Some eng_region = Some code /\ code <> str "en-WW"
          /\ region_tag_of (babel_region_of code) = Ok tag)).
    { cbn. destruct (decide (sxng_tag = tag)) as [->|Hne].
      - rewrite lookup_insert_eq. intros [= ->]. auto.
      - rewrite lookup_insert_ne by exact Hne. auto. }
    destruct (regions (engine_traits st) !! sxng_tag) as [[|c conflict']|];
      [exact Hset| |exact Hset].
    destruct (bool_decide _); auto.
  - destruct e; auto.
Qed.

(** One iteration of the market loop leaves [all_locale] alone, or is the
    one on [en-WW] and sets it to that code. *)
Lemma region_step_all_locale td st :
  all_locale (engine_traits (region_step region_tag_of td st).1)
  = if bool_decide (td = Some (str "en-WW")) then Some (str "en-WW")
    else all_locale (engine_traits st).
Proof.
  unfold region_step.
  destruct td as [eng_region|]; [|reflexivity]. cbn zeta.
  destruct (decide (eng_region = str "en-WW")) as [Hww|Hww].
  - rewrite (bool_decide_eq_true_2 _ Hww).
    rewrite bool_decide_eq_true_2 by (f_equal; exact Hww).
    cbn. f_equal. exact Hww.
  - rewrite (bool_decide_eq_false_2 _ Hww).
    rewrite bool_decide_eq_false_2 by (intros [= H]; exact (Hww H)).
    destruct (region_tag_of (babel_region_of eng_region)) as [sxng_tag|e].
    + destruct (regions (engine_traits st) !! sxng_tag) as [[|c conflict']|];
        try reflexivity.
      destruct (bool_decide _); reflexivity.
    + destruct e; reflexivity.
Qed.

(** An iteration never removes a key of a table. *)
Lemma language_step_dom td st :
  dom (languages (engine_traits st))
  ⊆ dom (languages (engine_traits (language_step language_tag_of td st).1)).
Proof.
  unfold language_step.
  destruct td as [eng_lang|]; [|reflexivity].
  destruct (_ || _); [reflexivity|]. cbn zeta.
  destruct (language_tag_of (babel_lang_of eng_lang)) as [sxng_tag|e].
  - destruct (languages (engine_traits st) !! sxng_tag) as [[|c conflict']|].
    + cbn. rewrite dom_insert. set_solver.
    + destruct (bool_decide _); reflexivity.
    + cbn. rewrite dom_insert. set_solver.
  - destruct e; reflexivity.
Qed.

Lemma region_step_dom td st :
  dom (regions (engine_traits st))
  ⊆ dom (regions (engine_traits (region_step region_tag_of td st).1)).
Proof.
  unfold region_step.
  destruct td as [eng_region|]; [|reflexivity]. cbn zeta.
  destruct (bool_decide _); [reflexivity|].
  destruct (region_tag_of (babel_region_of eng_region)) as [sxng_tag|e].
  - destruct (regions (engine_traits st) !! sxng_tag) as [[|c conflict']|].
    + cbn. rewrite dom_insert. set_solver.
    + destruct (bool_decide _); reflexivity.
    + cbn. rewrite dom_insert. set_solver.
  - destruct e; reflexivity.
Qed.

(** X15: Whatever the traits object held for [zh] and whatever the document
    lists, after the refresh the tag [zh] is mapped to [zh-hans]: the
    alias is stored before the loops, and no entry of the document
    replaces it. *)
Theorem zh_alias_always traits doc :
  languages (engine_traits
               (_fetch_traits language_tag_of region_tag_of traits doc).1)
  !! str "zh" = Some (str "zh-hans").
Proof.
  apply (_fetch_traits_keeps_in
           (fun st => languages (engine_traits st) !! str "zh"
                      = Some (str "zh-hans"))).
  - intros st line H. exact H.
  - intros td st _ H. apply language_step_keeps; [exact H|discriminate].
  - intros td st _ H. rewrite region_step_languages. exact H.
  - cbn. apply lookup_insert_eq.
Qed.

(** X16: Every entry of the language table after a refresh has one of three
    origins: the traits object came with it, it is the alias of [zh], or
    its code is a cell of the language column, is neither [en-gb] nor
    [pt-br], and its tag is the one [babel] gives that code. *)
Theorem language_provenance traits doc tag code :
  languages (engine_traits
               (_fetch_traits language_tag_of region_tag_of traits doc).1)
  !! tag = Some code ->
  languages traits !! tag = Some code
  \/ (tag = str "zh" /\ code = str "zh-hans")
  \/ (In (Some code) (language_codes doc)
      /\ code <> str "en-gb" /\ code <> str "pt-br"
      /\ language_tag_of (babel_lang_of code) = Ok tag).
Proof.
  revert tag code.
  apply (_fetch_traits_keeps_in
           (fun st => forall tag code,
              languages (engine_traits st) !! tag = Some code ->
              languages traits !! tag = Some code
              \/ (tag = str "zh" /\ code = str "zh-hans")
              \/ (In (Some code) (language_codes doc)
                  /\ code <> str "en-gb" /\ code <> str "pt-br"
                  /\ language_tag_of (babel_lang_of code) = Ok tag))).
  - intros st line H. exact H.
  - intros td st Hin H tag code Hstep.
    apply language_step_stored in Hstep as [Hold|(-> & Hgb & Hbr & Htag)];
      [apply H, Hold|]. right; right. auto.
  - intros td st _ H tag code. rewrite region_step_languages. apply H.
  - intros tag code. cbn. destruct (decide (str "zh" = tag)) as [<-|Hne].
    + rewrite lookup_insert_eq. intros [= <-]. auto.
    + rewrite lookup_insert_ne by exact Hne. auto.
Qed.

(** X17: Every entry of the region table after a refresh was there before, or
    its code is a cell of the market column other than [en-WW] and its
    tag is the one [babel] gives that code. *)
Theorem region_provenance traits doc tag code :
  regions (engine_traits
             (_fetch_traits language_tag_of region_tag_of traits doc).1)
  !! tag = Some code ->
  regions traits !! tag = Some code
  \/ (In (Some code) (market_codes doc)
      /\ code <> str "en-WW"
      /\ region_tag_of (babel_region_of code) = Ok tag).
Proof.
  revert tag code.
  apply (_fetch_traits_keeps_in
           (fun st => forall tag code,
              regions (engine_traits st) !! tag = Some code ->
              regions traits !! tag = Some code
              \/ (In (Some code) (market_codes doc)
                  /\ code <> str "en-WW"
                  /\ region_tag_of (babel_region_of code) = Ok tag))).
  - intros st line H. exact H.
  - intros td st _ H tag code. rewrite language_step_regions. apply H.
  - intros td st Hin H tag code Hstep.
    apply region_step_stored in Hstep as [Hold|(-> & Hww & Htag)];
      [apply H, Hold|]. right. auto.
  - intros tag code H. left. exact H.
Qed.

(** X18: A refresh removes no key: every tag mapped before is mapped after it,
    in both tables. *)
Theorem refresh_never_removes traits doc :
  dom (languages traits)
  ⊆ dom (languages
           (engine_traits
              (_fetch_traits language_tag_of region_tag_of traits doc).1))
  /\ dom (regions traits)
     ⊆ dom (regions
              (engine_traits
                 (_fetch_traits language_tag_of region_tag_of traits doc).1)).
Proof.
  split.
  - apply (_fetch_traits_keeps_in
             (fun st => dom (languages traits)
                        ⊆ dom (languages (engine_traits st)))).
    + intros st line H. exact H.
    + intros td st _ H. etrans; [exact H|apply language_step_dom].
    + intros td st _ H. rewrite region_step_languages. exact H.
    + cbn. rewrite dom_insert. set_solver.
  - apply (_fetch_traits_keeps_in
             (fun st => dom (regions traits)
                        ⊆ dom (regions (engine_traits st)))).
    + intros st line H. exact H.
    + intros td st _ H. rewrite language_step_regions. exact H.
    + intros td st _ H. etrans; [exact H|apply region_step_dom].
    + reflexivity.
Qed.

(** The completion of an iteration does not depend on the state. *)
Lemma language_step_completion td st st' :
  (language_step language_tag_of td st).2
  = (language_step language_tag_of td st').2.
Proof.
  unfold language_step.
  destruct td as [eng_lang|]; [|reflexivity].
  destruct (_ || _); [reflexivity|]. cbn zeta.
  destruct (language_tag_of (babel_lang_of eng_lang)) as [sxng_tag|e].
  - destruct (languages (engine_traits st) !! sxng_tag) as [[|c conflict']|],
             (languages (engine_traits st') !! sxng_tag) as [[|c' conflict'']|];
      repeat (destruct (bool_decide _)); reflexivity.
  - destruct e; reflexivity.
Qed.

Lemma region_step_completion td st st' :
  (region_step region_tag_of td st).2
  = (region_step region_tag_of td st').2.
Proof.
  unfold region_step.
  destruct td as [eng_region|]; [|reflexivity]. cbn zeta.
  destruct (bool_decide _); [reflexivity|].
  destruct (region_tag_of (babel_region_of eng_region)) as [sxng_tag|e].
  - destruct (regions (engine_traits st) !! sxng_tag) as [[|c conflict']|],
             (regions (engine_traits st') !! sxng_tag) as [[|c' conflict'']|];
      repeat (destruct (bool_decide _)); reflexivity.
  - destruct e; reflexivity.
Qed.

(** How an iteration on a cell ends, when [babel] raises nothing but
    [UnknownLocaleError]. *)
Lemma language_step_ends td st :
  (forall babel_lang e, language_tag_of babel_lang = Raise e ->
                        e = UnknownLocaleError) ->
  (language_step language_tag_of td st).2
  = match td with Some _ => Normal | None => Raised AttributeError end.
Proof.
  intros Hbabel. unfold language_step.
  destruct td as [eng_lang|]; [|reflexivity].
  destruct (_ || _); [reflexivity|]. cbn zeta.
  destruct (language_tag_of (babel_lang_of eng_lang)) as [sxng_tag|e] eqn:E.
  - destruct (languages (engine_traits st) !! sxng_tag) as [[|c conflict']|];
      try reflexivity.
    destruct (bool_decide _); reflexivity.
  - rewrite (Hbabel _ _ E). reflexivity.
Qed.

Lemma region_step_ends td st :
  (forall babel_region e, region_tag_of babel_region = Raise e ->
                          e = UnknownLocaleError) ->
  (region_step region_tag_of td st).2
  = match td with Some _ => Normal | None => Raised AttributeError end.
Proof.
  intros Hbabel. unfold region_step.
  destruct td as [eng_region|]; [|reflexivity]. cbn zeta.
  destruct (bool_decide _); [reflexivity|].
  destruct (region_tag_of (babel_region_of eng_region)) as [sxng_tag|e] eqn:E.
  - destruct (regions (engine_traits st) !! sxng_tag) as [[|c conflict']|];
      try reflexivity.
    destruct (bool_decide _); reflexivity.
  - rewrite (Hbabel _ _ E). reflexivity.
Qed.

Lemma for_each_ends body tds st :
  (forall td st, (body td st).2
                 = match td with Some _ => Normal
                               | None => Raised AttributeError end) ->
  (for_each body tds st).2
  = if bool_decide (None ∈ tds) then Raised AttributeError else Normal.
Proof.
  intros Hbody. revert st.
  induction tds as [|td tds IH]; intros st; cbn [for_each].
  - rewrite bool_decide_eq_false_2 by (apply not_elem_of_nil). reflexivity.
  - specialize (Hbody td st). destruct (body td st) as [st' c]. cbn in Hbody.
    subst c. destruct td as [text|].
    + rewrite IH. apply (f_equal (fun b : bool => if b then _ else _)).
      apply bool_decide_ext. rewrite elem_of_cons.
      split; [tauto|]. intros [H|H]; [discriminate|exact H].
    + rewrite bool_decide_eq_true_2 by (apply elem_of_cons; left; reflexivity).
      reflexivity.
Qed.

Lemma for_each_stops body tds st :
  (forall st, exists e, body None st = (st, Raised e)) ->
  In None tds -> exists e, (for_each body tds st).2 = Raised e.
Proof.
  intros Hnone. revert st.
  induction tds as [|td tds IH]; intros st Hin; [destruct Hin|]. simpl.
  destruct (body td st) as [st' [|e]] eqn:E; [|eauto].
  destruct Hin as [->|Hin]; [|apply IH, Hin].
  destruct (Hnone st) as [e He]. congruence.
Qed.

(** X20: A cell without text in the language column stops the refresh before
    the market column is read: the refresh raises, and the region table
    and the code of the [all] locale are those the traits object came
    with. *)
Theorem language_failure_skips_markets traits doc :
  In None (language_codes doc) ->
  (exists e, (_fetch_traits language_tag_of region_tag_of traits doc).2
             = Raised e)
  /\ regions (engine_traits
                (_fetch_traits language_tag_of region_tag_of traits doc).1)
     = regions traits
  /\ all_locale (engine_traits
                   (_fetch_traits language_tag_of region_tag_of traits doc).1)
     = all_locale traits.
Proof.
  intros Hin. unfold _fetch_traits.
  set (st0 := if ok doc then _ else _).
  assert (H0 : regions (engine_traits st0) = regions traits
               /\ all_locale (engine_traits st0) = all_locale traits).
  { unfold st0. destruct (ok doc); split; reflexivity. }
  pose proof (for_each_keeps (language_step language_tag_of)
                (fun st => regions (engine_traits st) = regions traits
                           /\ all_locale (engine_traits st) = all_locale traits)
                (fun td st H =>
                   conj (eq_trans (language_step_regions language_tag_of td st)
                                  (proj1 H))
                        (eq_trans (language_step_all_locale td st) (proj2 H)))
                (language_codes doc) st0 H0) as H1.
  destruct (for_each_stops (language_step language_tag_of) (language_codes doc)
              st0 (fun st => ex_intro _ AttributeError eq_refl) Hin) as [e He].
  destruct (for_each (language_step language_tag_of) (language_codes doc) st0)
    as [st1 c1]. cbn in He, H1. subst c1. cbn. split; [eauto|exact H1].
Qed.

(** X21: The code of the [all] locale after a refresh is the one the traits
    object came with or [en-WW], and [en-WW] only when the market column
    lists it; when the refresh completes and the column lists [en-WW],
    it is [en-WW]. *)
Theorem all_locale_sentinel traits doc :
  (all_locale (engine_traits
                 (_fetch_traits language_tag_of region_tag_of traits doc).1)
   = all_locale traits
   \/ (all_locale (engine_traits
                     (_fetch_traits language_tag_of region_tag_of traits doc).1)
       = Some (str "en-WW")
       /\ In (Some (str "en-WW")) (market_codes doc)))
  /\ ((_fetch_traits language_tag_of region_tag_of traits doc).2 = Normal ->
      In (Some (str "en-WW")) (market_codes doc) ->
      all_locale (engine_traits
                    (_fetch_traits language_tag_of region_tag_of traits doc).1)
      = Some (str "en-WW")).
Proof.
  split.
  - apply (_fetch_traits_keeps_in
             (fun st => all_locale (engine_traits st) = all_locale traits
                        \/ (all_locale (engine_traits st) = Some (str "en-WW")
                            /\ In (Some (str "en-WW")) (market_codes doc)))).
    + intros st line H. exact H.
    + intros td st _ H. rewrite language_step_all_locale. exact H.
    + intros td st Hin H. rewrite region_step_all_locale.
      destruct (decide (td = Some (str "en-WW"))) as [->|Hne].
      * rewrite bool_decide_eq_true_2 by reflexivity. right. auto.
      * rewrite (bool_decide_eq_false_2 _ Hne). exact H.
    + left. reflexivity.
  - unfold _fetch_traits. set (st0 := if ok doc then _ else _).
    destruct (for_each (language_step language_tag_of) (language_codes doc) st0)
      as [st1 [|e]]; [|discriminate]. clear st0.
    revert st1. induction (market_codes doc) as [|td tds IH];
      intros st1 Hnormal Hin; [destruct Hin|]. simpl in *.
    pose proof (region_step_all_locale td st1) as Hstep.
    destruct (region_step region_tag_of td st1) as [st2 [|e]];
      [|discriminate]. cbn in Hstep.
    destruct (decide (Some (str "en-WW") ∈ tds)) as [Hlater|Hnot];
      [apply IH; [assumption|apply list_elem_of_In; exact Hlater]|].
    rewrite list_elem_of_In in Hnot.
    destruct Hin as [->|Hin]; [|contradiction].
    rewrite bool_decide_eq_true_2 in Hstep by reflexivity.
    apply (for_each_keeps (region_step region_tag_of)
             (fun st => all_locale (engine_traits st) = Some (str "en-WW")));
      [|exact Hstep].
    intros td st H. rewrite region_step_all_locale.
    destruct (bool_decide _); [reflexivity|exact H].
Qed.

End RefreshFacts.

Section RefreshTwice.

Variable language_tag_of : pystr -> pyresult pystr.
Variable region_tag_of : pystr -> pyresult pystr.

Lemma set_language_same st tag code :
  languages (engine_traits st) !! tag = Some code ->
  engine_traits (set_language st tag code) = engine_traits st.
Proof.
  destruct st as [[l r a] out]. cbn. intros H. rewrite insert_id by exact H.
  reflexivity.
Qed.

Lemma set_region_same st tag code :
  regions (engine_traits st) !! tag = Some code ->
  engine_traits (set_region st tag code) = engine_traits st.
Proof.
  destruct st as [[l r a] out]. cbn. intros H. rewrite insert_id by exact H.
  reflexivity.
Qed.

Lemma set_all_locale_same st code :
  all_locale (engine_traits st) = Some code ->
  engine_traits (set_all_locale st code) = engine_traits st.
Proof.
  destruct st as [[l r a] out]. cbn. intros ->. reflexivity.
Qed.

(** The iteration on a settled entry changes no table. *)
Lemma language_settled_quiet td st :
  language_settled language_tag_of (languages (engine_traits st)) td ->
  engine_traits (language_step language_tag_of td st).1 = engine_traits st.
Proof.
  unfold language_settled, language_step.
  destruct td as [eng_lang|]; [|reflexivity].
  destruct (_ || _); [reflexivity|]. cbn zeta.
  destruct (language_tag_of (babel_lang_of eng_lang)) as [sxng_tag|e].
  - destruct (languages (engine_traits st) !! sxng_tag) as [[|c conflict']|] eqn:E.
    + intros ->. apply set_language_same, E.
    + intros _. destruct (bool_decide _); reflexivity.
    + intros [].
  - intros _. destruct e; reflexivity.
Qed.

(** An iteration settles its entry. *)
Lemma language_step_settles td st :
  language_settled language_tag_of
    (languages (engine_traits (language_step language_tag_of td st).1)) td.
Proof.
  unfold language_settled, language_step.
  destruct td as [eng_lang|]; [|exact I].
  destruct (_ || _); [exact I|]. cbn zeta.
  destruct (language_tag_of (babel_lang_of eng_lang)) as [sxng_tag|e];
    [|exact I].
  destruct (languages (engine_traits st) !! sxng_tag) as [[|c conflict']|] eqn:E.
  - cbn. rewrite lookup_insert_eq. destruct eng_lang; [reflexivity|exact I].
  - destruct (bool_decide _); cbn; rewrite E; exact I.
  - cbn. rewrite lookup_insert_eq. destruct eng_lang; [reflexivity|exact I].
Qed.

(** A settled entry stays settled through every iteration. *)
Lemma language_settled_stable td td' st :
  language_settled language_tag_of (languages (engine_traits st)) td ->
  language_settled language_tag_of
    (languages (engine_traits (language_step language_tag_of td' st).1)) td.
Proof.
  intros Hsettled.
  assert (Hset : forall tag code,
    (languages (engine_traits st) !! tag = None
     \/ languages (engine_traits st) !! tag = Some []) ->
    language_settled language_tag_of
      (languages (engine_traits (set_language st tag code))) td).
  { intros tag code Hfalsy. revert Hsettled. unfold language_settled.
    destruct td as [eng_lang|]; [|auto].
    destruct (_ || _); [auto|].
    destruct (language_tag_of (babel_lang_of eng_lang)) as [sxng_tag|e];
      [|auto].
    cbn. destruct (decide (tag = sxng_tag)) as [->|Hne].
    - rewrite lookup_insert_eq.
      destruct Hfalsy as [-> | ->]; [intros []|].
      intros ->. destruct code; [reflexivity|exact I].
    - rewrite lookup_insert_ne by exact Hne. auto. }
  unfold language_step.
  destruct td' as [eng_lang'|]; [|exact Hsettled].
  destruct (_ || _); [exact Hsettled|]. cbn zeta.
  destruct (language_tag_of (babel_lang_of eng_lang')) as [sxng_tag'|e].
  - destruct (languages (engine_traits st) !! sxng_tag')
      as [[|c conflict']|] eqn:E.
    + apply Hset. auto.
    + destruct (bool_decide _); exact Hsettled.
    + apply Hset. auto.
  - destruct e; exact Hsettled.
Qed.

Lemma region_settled_quiet td st :
  region_settled region_tag_of (engine_traits st) td ->
  engine_traits (region_step region_tag_of td st).1 = engine_traits st.
Proof.
  unfold region_settled, region_step.
  destruct td as [eng_region|]; [|reflexivity]. cbn zeta.
  destruct (bool_decide _).
  { intros H. apply set_all_locale_same, H. }
  destruct (region_tag_of (babel_region_of eng_region)) as [sxng_tag|e].
  - destruct (regions (engine_traits st) !! sxng_tag) as [[|c conflict']|] eqn:E.
    + intros ->. apply set_region_same, E.
    + intros _. destruct (bool_decide _); reflexivity.
    + intros [].
  - intros _. destruct e; reflexivity.
Qed.

Lemma region_step_settles td st :
  region_settled region_tag_of
    (engine_traits (region_step region_tag_of td st).1) td.
Proof.
  unfold region_settled, region_step.
  destruct td as [eng_region|]; [|exact I]. cbn zeta.
  destruct (bool_decide _); [reflexivity|].
  destruct (region_tag_of (babel_region_of eng_region)) as [sxng_tag|e];
    [|exact I].
  destruct (regions (engine_traits st) !! sxng_tag) as [[|c conflict']|] eqn:E.
  - cbn. rewrite lookup_insert_eq. destruct eng_region; [reflexivity|exact I].
  - destruct (bool_decide _); cbn; rewrite E; exact I.
  - cbn. rewrite lookup_insert_eq. destruct eng_region; [reflexivity|exact I].
Qed.

Lemma region_settled_stable td td' st :
  region_settled region_tag_of (engine_traits st) td ->
  region_settled region_tag_of
    (engine_traits (region_step region_tag_of td' st).1) td.
Proof.
  intros Hsettled.
  assert (Hset : forall tag code,
    (regions (engine_traits st) !! tag = None
     \/ regions (engine_traits st) !! tag = Some []) ->
    region_settled region_tag_of (engine_traits (set_region st tag code)) td).
  { intros tag code Hfalsy. revert Hsettled. unfold region_settled.
    destruct td as [eng_region|]; [|auto].
    destruct (bool_decide _); [auto|].
    destruct (region_tag_of (babel_region_of eng_region)) as [sxng_tag|e];
      [|auto].
    cbn. destruct (decide (tag = sxng_tag)) as [->|Hne].
    - rewrite lookup_insert_eq.
      destruct Hfalsy as [-> | ->]; [intros []|].
      intros ->. destruct code; [reflexivity|exact I].
    - rewrite lookup_insert_ne by exact Hne. auto. }
  assert (Hall : forall code,
    code = str "en-WW" ->
    region_settled region_tag_of (engine_traits (set_all_locale st code)) td).
  { intros code ->. revert Hsettled. unfold region_settled.
    destruct td as [eng_region|]; [|auto].
    destruct (decide (eng_region = str "en-WW")) as [->|Hne].
    - rewrite bool_decide_eq_true_2 by reflexivity. reflexivity.
    - rewrite (bool_decide_eq_false_2 _ Hne). auto. }
  unfold region_step.
  destruct td' as [eng_region'|]; [|exact Hsettled]. cbn zeta.
  destruct (decide (eng_region' = str "en-WW")) as [Hww|Hww].
  { rewrite (bool_decide_eq_true_2 _ Hww). apply Hall, Hww. }
  rewrite (bool_decide_eq_false_2 _ Hww).
  destruct (region_tag_of (babel_region_of eng_region')) as [sxng_tag'|e].
  - destruct (regions (engine_traits st) !! sxng_tag')
      as [[|c conflict']|] eqn:E.
    + apply Hset. auto.
    + destruct (bool_decide _); exact Hsettled.
    + apply Hset. auto.
  - destruct e; exact Hsettled.
Qed.

(** A loop run a second time, on a state that agrees on [view] with the
    one its first run ended in, ends the same way and changes no table. *)
Lemma for_each_again {V} (body : option pystr -> FetchState -> FetchState * completion)
    (view : FetchState -> V) (settled : V -> option pystr -> Prop) :
  (forall st st', engine_traits st = engine_traits st' -> view st = view st') ->
  (forall td st, settled (view st) td ->
                 engine_traits (body td st).1 = engine_traits st) ->
  (forall td st, settled (view (body td st).1) td) ->
  (forall td td' st, settled (view st) td ->
                     settled (view (body td' st).1) td) ->
  (forall td st st', (body td st).2 = (body td st').2) ->
  forall tds st st2,
    view st2 = view (for_each body tds st).1 ->
    (for_each body tds st2).2 = (for_each body tds st).2
    /\ engine_traits (for_each body tds st2).1 = engine_traits st2.
Proof.
  intros Hview Hquiet Hsettles Hstable Hcompletion.
  induction tds as [|td tds IH]; intros st st2 Hsame; [split; reflexivity|].
  cbn [for_each] in *.
  pose proof (Hsettles td st) as Hnow.
  pose proof (Hcompletion td st2 st) as Hc.
  destruct (body td st) as [st' c'] eqn:E. cbn in Hnow, Hc.
  assert (Hsettled2 : settled (view st2) td).
  { rewrite Hsame. destruct c' as [|e]; [|exact Hnow].
    apply (for_each_keeps body (fun s => settled (view s) td));
      [|exact Hnow].
    intros td' s H. apply Hstable, H. }
  pose proof (Hquiet td st2 Hsettled2) as Hq.
  destruct (body td st2) as [st2' c2]. cbn in Hc, Hq. subst c2.
  destruct c' as [|e]; [|split; [reflexivity|exact Hq]].
  destruct (IH st' st2') as [H1 H2].
  - rewrite (Hview st2' st2 Hq). exact Hsame.
  - split; [exact H1|]. rewrite H2. exact Hq.
Qed.

(** The two loops run a second time, on a state that holds the tables
    their first run ended with. *)
Lemma loops_again doc st0 st0' :
  engine_traits st0'
  = engine_traits
      (match for_each (language_step language_tag_of) (language_codes doc) st0 with
       | (st, Normal) => for_each (region_step region_tag_of) (market_codes doc) st
       | stopped => stopped
       end).1 ->
  engine_traits
    (match for_each (language_step language_tag_of) (language_codes doc) st0' with
     | (st, Normal) => for_each (region_step region_tag_of) (market_codes doc) st
     | stopped => stopped
     end).1
  = engine_traits st0'
  /\ (match for_each (language_step language_tag_of) (language_codes doc) st0' with
      | (st, Normal) => for_each (region_step region_tag_of) (market_codes doc) st
      | stopped => stopped
      end).2
     = (match for_each (language_step language_tag_of) (language_codes doc) st0 with
        | (st, Normal) => for_each (region_step region_tag_of) (market_codes doc) st
        | stopped => stopped
        end).2.
Proof.
  intros Hsame.
  assert (Hlangs :
    languages (engine_traits st0')
    = languages (engine_traits
                   (for_each (language_step language_tag_of)
                      (language_codes doc) st0).1)).
  { rewrite Hsame.
    destruct (for_each (language_step language_tag_of) (language_codes doc) st0)
      as [stL [|e]]; [|reflexivity].
    apply (for_each_keeps (region_step region_tag_of)
             (fun st => languages (engine_traits st)
                        = languages (engine_traits stL)));
      [|reflexivity].
    intros td st H. rewrite region_step_languages. exact H. }
  destruct (for_each_again (language_step language_tag_of)
              (fun st => languages (engine_traits st))
              (language_settled language_tag_of)
              (fun st st' H => f_equal languages H)
              language_settled_quiet language_step_settles
              language_settled_stable
              (language_step_completion language_tag_of)
              (language_codes doc) st0 st0' Hlangs) as [Hc Hq].
  destruct (for_each (language_step language_tag_of) (language_codes doc) st0)
    as [stL cL].
  destruct (for_each (language_step language_tag_of) (language_codes doc) st0')
    as [stL' cL']. cbn in Hc, Hq. subst cL'.
  destruct cL as [|e]; [|split; [exact Hq|reflexivity]].
  destruct (for_each_again (region_step region_tag_of)
              (fun st => engine_traits st)
              (region_settled region_tag_of)
              (fun st st' H => H)
              region_settled_quiet region_step_settles
              region_settled_stable
              (region_step_completion region_tag_of)
              (market_codes doc) stL stL') as [Hc' Hq'].
  { rewrite Hq. exact Hsame. }
  split; [rewrite Hq'; exact Hq|exact Hc'].
Qed.

(** X22: Refreshing a second time, from the same document, the traits object a
    refresh produced changes nothing in it: the two tables and the code
    of the [all] locale stay as they are, and the second refresh ends as
    the first did. *)
Theorem refresh_twice traits doc :
  engine_traits
    (_fetch_traits language_tag_of region_tag_of
       (engine_traits (_fetch_traits language_tag_of region_tag_of traits doc).1)
       doc).1
  = engine_traits (_fetch_traits language_tag_of region_tag_of traits doc).1
  /\ (_fetch_traits language_tag_of region_tag_of
        (engine_traits (_fetch_traits language_tag_of region_tag_of traits doc).1)
        doc).2
     = (_fetch_traits language_tag_of region_tag_of traits doc).2.
Proof.
  assert (Hzh :
    languages (engine_traits
                 (_fetch_traits language_tag_of region_tag_of traits doc).1)
    !! str "zh" = Some (str "zh-hans")).
  { apply (_fetch_traits_keeps_in language_tag_of region_tag_of
             (fun st => languages (engine_traits st) !! str "zh"
                        = Some (str "zh-hans"))).
    - intros st line H. exact H.
    - intros td st _ H. apply language_step_keeps; [exact H|discriminate].
    - intros td st _ H. rewrite region_step_languages. exact H.
    - cbn. apply lookup_insert_eq. }
  remember (engine_traits
              (_fetch_traits language_tag_of region_tag_of traits doc).1)
    as once eqn:Honce.
  unfold _fetch_traits in *.
  match goal with
  | |- engine_traits (match for_each _ _ ?s with _ => _ end).1 = _ /\ _ =>
      assert (Hstart : engine_traits s = once)
  end.
  { destruct (ok doc); cbn; rewrite insert_id by exact Hzh;
      destruct once; reflexivity. }
  match type of Hstart with
  | engine_traits ?s = _ => set (st0' := s) in *
  end.
  match type of Honce with
  | _ = engine_traits (match for_each _ _ ?s with _ => _ end).1 =>
      set (st0 := s) in *
  end.
  destruct (loops_again doc st0 st0') as [H1 H2].
  { rewrite Hstart. exact Honce. }
  split; [rewrite H1; exact Hstart|exact H2].
Qed.

End RefreshTwice.

(** ** Further properties: the exceptions of the handler, and sample runs *)

Lemma request_keeps_other_entries_witness :
  exists params',
    request ascii_lower no_traits (fun _ _ => None) (fun _ _ => None) 19000
      (str "rocq")
      {| searxng_locale := str "fr"; pageno := Some 2;
         time_range := Some (str "week");
         cookies := {[ str "SRCHHPGUSR" := str "ADLT=OFF" ]}; url := str "stale" |}
    = Ok params'
    /\ pageno params' = Some 2
    /\ cookies params' !! str "SRCHHPGUSR" = Some (str "ADLT=OFF").
Proof.
  eexists. split; [reflexivity|].
  destruct (request_keeps_other_entries ascii_lower no_traits (fun _ _ => None)
              (fun _ _ => None) 19000 (str "rocq")
              {| searxng_locale := str "fr"; pageno := Some 2;
                 time_range := Some (str "week");
                 cookies := {[ str "SRCHHPGUSR" := str "ADLT=OFF" ]};
                 url := str "stale" |}
              _ eq_refl) as (_ & Hpageno & _ & Hcookies & _).
  split; [exact Hpageno|].
  rewrite Hcookies by discriminate. reflexivity.
Defined.

Lemma response_loop_raises blocks : forall results e,
  response_loop blocks results = Raise e ->
  e = AttributeError \/ e = KeyError (str "u") \/ e = ValueError
  \/ e = BinasciiError \/ e = UnicodeDecodeError.
Proof.
  induction blocks as [|block blocks IH]; intros results e;
    cbn [response_loop]; [discriminate|].
  destruct (h2_a block) as [link|]; [|apply IH].
  destruct (href link) as [url|]; [|intros [= <-]; auto].
  destruct (real_url url) as [dest|e'] eqn:E; cbn [mbind pyresult_bind];
    [apply IH|].
  intros [= <-]. right. apply (real_url_raises url), E.
Qed.

Lemma language_provenance_witness :
  languages
    (engine_traits
       (_fetch_traits example_language_tag example_region_tag example_traits
          example_document).1) !! str "ja" = Some (str "jp")
  /\ (languages example_traits !! str "ja" = Some (str "jp")
      \/ (str "ja" = str "zh" /\ str "jp" = str "zh-hans")
      \/ (In (Some (str "jp")) (language_codes example_document)
          /\ str "jp" <> str "en-gb" /\ str "jp" <> str "pt-br"
          /\ example_language_tag (babel_lang_of (str "jp")) = Ok (str "ja"))).
Proof.
  split; [vm_compute; reflexivity|].
  apply (language_provenance example_language_tag example_region_tag).
  vm_compute. reflexivity.
Defined.

Lemma region_provenance_witness :
  regions
    (engine_traits
       (_fetch_traits example_language_tag example_region_tag example_traits
          example_document).1) !! str "id-ID" = Some (str "en-ID")
  /\ (regions example_traits !! str "id-ID" = Some (str "en-ID")
      \/ (In (Some (str "en-ID")) (market_codes example_document)
          /\ str "en-ID" <> str "en-WW"
          /\ example_region_tag (babel_region_of (str "en-ID"))
             = Ok (str "id-ID"))).
Proof.
  split; [vm_compute; reflexivity|].
  apply (region_provenance example_language_tag example_region_tag).
  vm_compute. reflexivity.
Defined.

Lemma language_failure_skips_markets_witness :
  (exists e,
      (_fetch_traits example_language_tag example_region_tag example_traits
         example_broken_document).2 = Raised e)
  /\ regions
       (engine_traits
          (_fetch_traits example_language_tag example_region_tag example_traits
             example_broken_document).1)
     = regions example_traits
  /\ all_locale
       (engine_traits
          (_fetch_traits example_language_tag example_region_tag example_traits
             example_broken_document).1)
     = all_locale example_traits.
Proof.
  apply (language_failure_skips_markets example_language_tag example_region_tag
           example_traits example_broken_document).
  vm_compute. auto.
Defined.

Lemma all_locale_sentinel_witness :
  all_locale
    (engine_traits
       (_fetch_traits example_language_tag example_region_tag example_traits
          example_document).1)
  = Some (str "en-WW").
Proof.
  apply (proj2 (all_locale_sentinel example_language_tag example_region_tag
                  example_traits example_document)).
  - vm_compute. reflexivity.
  - vm_compute. auto.
Defined.

(** ** Further properties: the handler and the refresh, from the text they receive *)

(** X4: A body that [html.fromstring] parses and none of whose title links
    is a wrapper or lacks an [href] does not make the handler raise: it
    returns the empty list when the guard triggers, and otherwise one
    record per block that has a title link, in block order, with the
    [href] as it is, followed by the count record. *)
Theorem response_of_unwrapped_page fromstring text pageno blocks count :
  fromstring text = Ok (blocks, count) ->
  Forall unwrapped blocks ->
  response_on_text fromstring text pageno =
    if guard_triggers {| b_results := blocks; sb_count := count;
                         search_params_pageno := pageno |}
    then Ok []
    else Ok (omap unwrapped_record blocks
             ++ [NumberOfResults (result_len_of count)]).
Proof.
  intros Hparse Hb. unfold response_on_text. rewrite Hparse.
  cbn [mbind pyresult_bind fst snd].
  apply (response_unfold
           {| b_results := blocks; sb_count := count;
              search_params_pageno := pageno |}).
  apply (response_loop_unwrapped _ [] Hb).
Qed.

Lemma response_of_unwrapped_page_witness :
  response_on_text
    (example_fromstring
       ([plain_block; {| h2_a := None; first_p := str "ad" |}; plain_block],
        [str "2 results"]))
    (str "<html>") (Some 1)
  = Ok [plain_record; plain_record; NumberOfResults 2].
Proof.
  rewrite (response_of_unwrapped_page _ _ _
             [plain_block; {| h2_a := None; first_p := str "ad" |}; plain_block]
             [str "2 results"]).
  - reflexivity.
  - reflexivity.
  - repeat constructor; intros link [= <-]; eexists; split; reflexivity.
Defined.

(** X6: The handler raises whatever [html.fromstring] raises on the body
    ([ParserError] on an empty one).  Once the body is parsed it raises
    five exceptions and no other: [AttributeError] for a title link
    without [href], and for a wrapper link [KeyError] for the field [u],
    [ValueError], [binascii.Error] and [UnicodeDecodeError]; the count
    extraction adds none. *)
Theorem response_exceptions fromstring text pageno :
  (forall e, fromstring text = Raise e ->
             response_on_text fromstring text pageno = Raise e)
  /\ (forall dom e,
        fromstring text = Ok dom ->
        response_on_text fromstring text pageno = Raise e ->
        e = AttributeError \/ e = KeyError (str "u") \/ e = ValueError
        \/ e = BinasciiError \/ e = UnicodeDecodeError).
Proof.
  unfold response_on_text. split.
  - intros e ->. reflexivity.
  - intros dom e ->. cbn [mbind pyresult_bind]. intros H.
    apply response_raises_from_loop in H.
    apply (response_loop_raises _ _ _ H).
Qed.

Lemma response_exceptions_witness :
  response_on_text (example_fromstring ([plain_block], [str "1 result"]))
    [] (Some 1)
  = Raise ParserError
  /\ response_on_text
       (example_fromstring
          ([{| h2_a := Some {| href := Some (str "https://www.bing.com/ck/a?p=1");
                               link_text := str "x" |};
               first_p := [] |}],
           [replicate 5000 57]))
       (str "<html>") (Some 1)
     = Raise (KeyError (str "u"))
  /\ (KeyError (str "u") = AttributeError
      \/ KeyError (str "u") = KeyError (str "u")
      \/ KeyError (str "u") = ValueError
      \/ KeyError (str "u") = BinasciiError
      \/ KeyError (str "u") = UnicodeDecodeError).
Proof.
  split; [|split].
  - apply (proj1 (response_exceptions _ [] (Some 1))). reflexivity.
  - vm_compute. reflexivity.
  - apply (proj2 (response_exceptions
                    (example_fromstring
                       ([{| h2_a := Some {| href := Some (str "https://www.bing.com/ck/a?p=1");
                                            link_text := str "x" |};
                            first_p := [] |}],
                        [replicate 5000 57]))
                    (str "<html>") (Some 1))
             ([{| h2_a := Some {| href := Some (str "https://www.bing.com/ck/a?p=1");
                                  link_text := str "x" |};
                  first_p := [] |}],
              [replicate 5000 57])).
    + reflexivity.
    + vm_compute. reflexivity.
Defined.

(** X7: The empty list is returned by the guard only: exactly when the
    body is parsed, the loop over the result blocks completes, and the
    count is neither zero nor below the offset of the page.  Every other
    list the handler returns is the records of the loop followed by the
    count record, even for a page without result block. *)
Theorem response_empty_iff_guard fromstring text pageno :
  (response_on_text fromstring text pageno = Ok [] <->
   exists blocks count records,
     fromstring text = Ok (blocks, count)
     /\ response_loop blocks [] = Ok records
     /\ result_len_of count <> 0
     /\ result_len_of count < _page_offset (default 0 pageno))
  /\ (forall results,
        response_on_text fromstring text pageno = Ok results ->
        results <> [] ->
        exists blocks count records,
          fromstring text = Ok (blocks, count)
          /\ response_loop blocks [] = Ok records
          /\ results = records ++ [NumberOfResults (result_len_of count)]).
Proof.
  unfold response_on_text, response.
  destruct (fromstring text) as [[blocks count]|e] eqn:Hparse;
    cbn [mbind pyresult_bind fst snd b_results sb_count search_params_pageno].
  2:{ split; [split; [discriminate|]|discriminate].
      intros (? & ? & ? & Hx & _). discriminate Hx. }
  destruct (response_loop blocks []) as [records|e] eqn:Hloop;
    cbn [mbind pyresult_bind].
  2:{ split; [split; [discriminate|]|discriminate].
      intros (? & ? & ? & [= <- <-] & Hx & _). congruence. }
  destruct (Z.eqb_spec (result_len_of count) 0) as [H0 | H0];
    destruct (Z.ltb_spec (result_len_of count) (_page_offset (default 0 pageno)))
      as [Hlt | Hge];
    cbn [negb andb]; (split; [split|]).
  all: try (intros [= H]; destruct records; discriminate).
  all: try (intros (? & ? & ? & [= <- <-] & ? & ? & ?); lia).
  all: try (intros results [= <-] Hne;
            first [ contradiction
                  | exists blocks, count, records; auto ]).
  all: try reflexivity.
  all: try (intros _; exists blocks, count, records; auto).
Qed.

Lemma response_empty_iff_guard_witness :
  response_on_text (example_fromstring ([], [str "no results"])) (str "<html>")
    (Some 3)
  = Ok [NumberOfResults 0]
  /\ exists blocks count records,
       example_fromstring ([], [str "no results"]) (str "<html>")
       = Ok (blocks, count)
       /\ response_loop blocks [] = Ok records
       /\ [NumberOfResults 0]
          = records ++ [NumberOfResults (result_len_of count)].
Proof.
  split; [reflexivity|].
  apply (proj2 (response_empty_iff_guard
                  (example_fromstring ([], [str "no results"])) (str "<html>")
                  (Some 3))).
  - reflexivity.
  - discriminate.
Defined.

Section RefreshOnline.

Variable language_tag_of : pystr -> pyresult pystr.
Variable region_tag_of : pystr -> pyresult pystr.
Variable get : pystr -> pyresult (bool * pystr).
Variable Dom : Type.
Variable fromstring : pystr -> pyresult Dom.
Variable eval_xpath : Dom -> pystr -> pyresult (list (option pystr)).

(** Once the page is fetched and parsed and the two columns are read, the
    refresh is the two loops on their cells. *)
Lemma _fetch_traits_on_url_loops traits url xpath_language_codes
    xpath_market_codes resp dom language_cells market_cells :
  get url = Ok resp ->
  fromstring resp.2 = Ok dom ->
  eval_xpath dom xpath_language_codes = Ok language_cells ->
  eval_xpath dom xpath_market_codes = Ok market_cells ->
  _fetch_traits_on_url language_tag_of region_tag_of get Dom fromstring
    eval_xpath traits url xpath_language_codes xpath_market_codes
  = _fetch_traits language_tag_of region_tag_of traits
      {| ok := resp.1; language_codes := language_cells;
         market_codes := market_cells |}.
Proof.
  intros Hget Hparse Hl Hm. unfold _fetch_traits_on_url, _fetch_traits.
  rewrite Hget, Hparse, Hl. cbn [ok language_codes market_codes].
  destruct (for_each _ _ _) as [st [|e]]; [|reflexivity].
  rewrite Hm. reflexivity.
Qed.

(** X19: When [babel] raises nothing but [UnknownLocaleError], a refresh
    ends in one of these ways, tried in this order: with the exception of
    the fetch, of the parse or of the reading of the language column when
    one of them raises; with [AttributeError] when a cell of the language
    column has no text; with the exception of the reading of the market
    column; with [AttributeError] when a cell of the market column has no
    text; normally otherwise.  A code [babel] does not know never stops
    the refresh. *)
Theorem refresh_completion traits url xpath_language_codes xpath_market_codes :
  (forall babel_lang e, language_tag_of babel_lang = Raise e ->
                        e = UnknownLocaleError) ->
  (forall babel_region e, region_tag_of babel_region = Raise e ->
                          e = UnknownLocaleError) ->
  (_fetch_traits_on_url language_tag_of region_tag_of get Dom fromstring
     eval_xpath traits url xpath_language_codes xpath_market_codes).2
  = match get url with
    | Raise e => Raised e
    | Ok resp =>
        match fromstring resp.2 with
        | Raise e => Raised e
        | Ok dom =>
            match eval_xpath dom xpath_language_codes with
            | Raise e => Raised e
            | Ok language_cells =>
                if bool_decide (None ∈ language_cells)
                then Raised AttributeError
                else
                  match eval_xpath dom xpath_market_codes with
                  | Raise e => Raised e
                  | Ok market_cells =>
                      if bool_decide (None ∈ market_cells)
                      then Raised AttributeError
                      else Normal
                  end
            end
        end
    end.
Proof.
  intros Hlang Hregion. unfold _fetch_traits_on_url.
  destruct (get url) as [resp|e]; [|reflexivity].
  set (st0 := if resp.1 then _ else _).
  destruct (fromstring resp.2) as [dom|e]; [|reflexivity].
  destruct (eval_xpath dom xpath_language_codes) as [language_cells|e];
    [|reflexivity].
  pose proof (for_each_ends language_tag_of region_tag_of
                (language_step language_tag_of) language_cells st0
                (fun td st => language_step_ends language_tag_of td st Hlang))
    as H1.
  destruct (for_each (language_step language_tag_of) language_cells st0)
    as [st1 c1]. cbn in H1. subst c1.
  destruct (bool_decide (None ∈ language_cells)); [reflexivity|].
  destruct (eval_xpath dom xpath_market_codes) as [market_cells|e];
    [|reflexivity].
  apply (for_each_ends language_tag_of region_tag_of
           (region_step region_tag_of) market_cells st1
           (fun td st => region_step_ends region_tag_of td st Hregion)).
Qed.

End RefreshOnline.

Lemma refresh_completion_witness :
  (fetch_traits (without_locale (str "xx") example_language_tag)
     example_region_tag (example_get (true, [])) TraitsDocument
     (example_dom_fromstring example_document) example_eval_xpath
     example_traits).2
  = Raised ParserError
  /\ (fetch_traits (without_locale (str "xx") example_language_tag)
        example_region_tag (example_get (false, str "<html>")) TraitsDocument
        (example_dom_fromstring example_broken_document) example_eval_xpath
        example_traits).2
     = Raised AttributeError
  /\ (fetch_traits (without_locale (str "xx") example_language_tag)
        example_region_tag (example_get (true, str "<html>")) TraitsDocument
        (example_dom_fromstring
           {| ok := true; language_codes := [Some (str "fr"); Some (str "xx")];
              market_codes := [Some (str "en-WW")] |})
        example_eval_xpath example_traits).2
     = Normal.
Proof.
  assert (Hbabel : forall babel_lang e,
            without_locale (str "xx") example_language_tag babel_lang = Raise e ->
            e = UnknownLocaleError).
  { intros babel_lang e. unfold without_locale.
    destruct (bool_decide _); [intros [= <-]; reflexivity|discriminate]. }
  unfold fetch_traits. cbn zeta. split; [|split].
  - rewrite (refresh_completion _ example_region_tag); [reflexivity|exact Hbabel|discriminate].
  - rewrite (refresh_completion _ example_region_tag); [reflexivity|exact Hbabel|discriminate].
  - rewrite (refresh_completion _ example_region_tag); [reflexivity|exact Hbabel|discriminate].
Defined.
